(** * GarageMQ: the per-channel session core and the virtual host

    A shallow embedding of [server/channel.go] (package [server]) and of
    [vhost/vhost.go] (package [vhost]), and the properties of the
    specification that were checked against them.

    Conventions of the embedding.
    - Go's unsigned integers are [N] (delivery tags, body sizes) with the
      wrap-around written out where the code can overflow; metrics counters
      and QoS usage are [Z].
    - Go maps are stdpp [gmap]s.  A [for k, v := range m] loop takes the
      order in which the runtime produces the keys as an explicit argument.
    - Objects that are shared through pointers and mutated (the QoS
      accountants) live in a heap and are referred to by address.
    - Calls into the collaborators whose internals are out of scope (queues,
      consumers) are recorded, in order, in a trace.
    - A function that can dereference a nil pointer returns [option]; [None]
      is the runtime panic.
    - Locks and logging have no counterpart: each function is modelled as it
      runs once it holds its locks. *)

From stdpp Require Import gmap strings list fin_maps sorting pretty.
From Stdlib Require Import ZArith.
From Stdlib.Strings Require Import Byte.

Local Open Scope Z_scope.

(** ** Package [amqp] (consumed) *)

(** Modelled from the spec: the reply codes of package [amqp] that the
    channel uses; the package is not part of the sources at hand, the spec
    names the codes. *)
Inductive ReplyCode :=
| NoConsumers | FrameError | NotFound | NotAllowed
| AccessRefused | PreconditionFailed | ResourceLocked.

(** Modelled from the spec: the two error classes of section 7. *)
Inductive ErrorType := ErrorOnConnection | ErrorOnChannel.

(** [amqp.Error], with the fields [sendError] reads. *)
Record Error := mkError {
  ReplyCode_of : ReplyCode;
  ReplyText : string;
  ClassID : Z;
  MethodID : Z;
  ErrorType_of : ErrorType
}.

(** Modelled from the spec: [amqp.NewConnectionError] and
    [amqp.NewChannelError] build an error of the class their name says. *)
Definition NewConnectionError (code : ReplyCode) (text : string) (classID methodID : Z) : Error :=
  mkError code text classID methodID ErrorOnConnection.

Definition NewChannelError (code : ReplyCode) (text : string) (classID methodID : Z) : Error :=
  mkError code text classID methodID ErrorOnChannel.

(** Frame types, section 6 of the spec. *)
Definition FrameMethod : Z := 1.
Definition FrameHeader : Z := 2.
Definition FrameBody : Z := 3.

(** [amqp.Frame]. *)
Record Frame := mkFrame {
  Type_ : Z;
  ChannelID : Z;
  Payload : list byte;
  CloseAfter : bool;
  Sync_ : bool
}.

(** Modelled from the spec: the content header carries the declared
    body-size (uint64) and the properties; delivery-mode is the only
    property the channel looks at. *)
Record ContentHeader := mkContentHeader {
  hBodySize : N;
  DeliveryMode : option N
}.

(** Modelled from the spec: ConfirmMeta of section 3. *)
Record ConfirmMeta := mkConfirmMeta {
  cmDeliveryTag : N;
  ExpectedConfirms : Z;
  ActualConfirms : Z;
  canConfirm : bool
}.

Definition CanConfirm (meta : ConfirmMeta) : bool := canConfirm meta.

(** [amqp.Message]: the fields the channel reads and writes. *)
Record Message := mkMessage {
  Exchange_ : string;
  RoutingKey : string;
  Mandatory : bool;
  Header : option ContentHeader;
  Body : list Frame;
  BodySize : N;
  ConfirmMeta_ : ConfirmMeta
}.

Definition uint64_mod : N := (2 ^ 64)%N.
Definition uint32_mod : N := (2 ^ 32)%N.

(** Go's conversion [uint32(x)] of a [uint64]. *)
Definition uint32 (x : N) : N := (x mod uint32_mod)%N.

(** Modelled from the spec: [Message.Append] extends the body buffer in
    arrival order and the running body size by the fragment's length. *)
Definition Message_Append (m : Message) (body : Frame) : Message :=
  mkMessage (Exchange_ m) (RoutingKey m) (Mandatory m) (Header m)
    (Body m ++ [body])
    ((BodySize m + N.of_nat (length (Payload body))) mod uint64_mod)%N
    (ConfirmMeta_ m).

(** Modelled from the spec: delivery-mode 2 marks a persistent message. *)
Definition IsPersistent (m : Message) : bool :=
  match Header m with
  | Some h => match DeliveryMode h with Some d => (d =? 2)%N | None => false end
  | None => false
  end.

Definition Message_set_Header (m : Message) (h : option ContentHeader) : Message :=
  mkMessage (Exchange_ m) (RoutingKey m) (Mandatory m) h (Body m) (BodySize m) (ConfirmMeta_ m).

Definition Message_set_Body (m : Message) (b : list Frame) : Message :=
  mkMessage (Exchange_ m) (RoutingKey m) (Mandatory m) (Header m) b (BodySize m) (ConfirmMeta_ m).

Definition Message_set_ExpectedConfirms (m : Message) (n : Z) : Message :=
  mkMessage (Exchange_ m) (RoutingKey m) (Mandatory m) (Header m) (Body m) (BodySize m)
    (mkConfirmMeta (cmDeliveryTag (ConfirmMeta_ m)) n
       (ActualConfirms (ConfirmMeta_ m)) (canConfirm (ConfirmMeta_ m))).

(** The methods the channel constructs or receives, with the fields the
    sources name. *)
Inductive Method :=
| BasicReturn (code : ReplyCode) (text : string) (exchange routingKey : string)
| BasicAck (deliveryTag : N) (multiple : bool)
| BasicNack (deliveryTag : N) (multiple requeue : bool)
| BasicReject (deliveryTag : N) (requeue : bool)
| BasicConsume (queue consumerTag : string) (noAck exclusive : bool)
| BasicDeliver (consumerTag : string) (deliveryTag : N)
| ChannelClose (code : ReplyCode) (text : string) (classId methodId : Z)
| ConnectionClose (code : ReplyCode) (text : string) (classId methodId : Z)
| ConnectionCloseOk.

(** What the channel takes from package [amqp] without looking inside: the
    protocol constant, the identifiers of a method and the codec. *)
Class Amqp := {
  Proto091 : string;
  ClassConnection : Z;
  MethodConnectionCloseOk : Z;
  ClassIdentifier : Method → Z;
  MethodIdentifier : Method → Z;
  Sync : Method → bool;
  WriteMethod : Method → string → list byte;
  WriteContentHeader : option ContentHeader → string → list byte;
  ReadContentHeader : list byte → string → option ContentHeader
}.

(** ** Packages [qos], [queue], [exchange], [binding], [consumer] (consumed) *)

(** Modelled from the spec: QosState of section 3, prefetch limits and
    current usage on the two axes (count, bytes). *)
Record AmqpQos := mkQos {
  prefetchCount : Z;
  prefetchSize : Z;
  currentCount : Z;
  currentSize : Z
}.

Definition NewAmqpQos (prefetchCount prefetchSize : Z) : AmqpQos :=
  mkQos prefetchCount prefetchSize 0 0.

(** Modelled from the spec: [Update] replaces the limits and leaves the usage. *)
Definition AmqpQos_Update (count size : Z) (q : AmqpQos) : AmqpQos :=
  mkQos count size (currentCount q) (currentSize q).

(** Modelled from the spec: [Dec(count, bytes)] releases that much usage. *)
Definition AmqpQos_Dec (count size : Z) (q : AmqpQos) : AmqpQos :=
  mkQos (prefetchCount q) (prefetchSize q) (currentCount q - count) (currentSize q - size).

(** A queue as the channel and the virtual host see it: the arguments of
    [NewQueue] and the answer of [IsActive]. *)
Record Queue := mkQueue {
  quName : string;
  quConnID : N;
  quExclusive : bool;
  quAutoDelete : bool;
  quDurable : bool;
  quShardSize : Z;
  quActive : bool
}.

Definition GetName (qu : Queue) : string := quName qu.
Definition IsDurable (qu : Queue) : bool := quDurable qu.
Definition IsActive (qu : Queue) : bool := quActive qu.

(** [binding.New(queue, exchange, routingKey, arguments, topic)]; the
    argument table is always empty in these sources and is left out. *)
Record Binding := mkBinding {
  bindQueue : string;
  bindExchange : string;
  bindRoutingKey : string;
  bindTopic : bool
}.

Inductive ExType := EX_TYPE_DIRECT | EX_TYPE_FANOUT | EX_TYPE_HEADERS | EX_TYPE_TOPIC.

(** Modelled from the spec: the aliases of the exchange types, as in the
    system exchange "amq.direct". *)
Definition GetExchangeTypeAlias (t : ExType) : string :=
  match t with
  | EX_TYPE_DIRECT => "direct"
  | EX_TYPE_FANOUT => "fanout"
  | EX_TYPE_HEADERS => "headers"
  | EX_TYPE_TOPIC => "topic"
  end.

(** [exchange.Exchange]: name, type, the flags of [exchange.New] and the
    bindings handed to [AppendBinding], oldest first. *)
Record Exchange := mkExchange {
  exName : string;
  exType : ExType;
  exDurable : bool;
  exAutoDelete : bool;
  exInternal : bool;
  exSystem : bool;
  exBindings : list Binding
}.

Definition exchange_New (name : string) (t : ExType) (durable autoDelete internal system : bool) : Exchange :=
  mkExchange name t durable autoDelete internal system [].

Definition AppendBinding (ex : Exchange) (bind : Binding) : Exchange :=
  mkExchange (exName ex) (exType ex) (exDurable ex) (exAutoDelete ex) (exInternal ex)
    (exSystem ex) (exBindings ex ++ [bind]).

(** [consumer.Consumer]: the arguments of [NewConsumer]; the accountants
    are addresses in the QoS heap. *)
Record Consumer := mkConsumer {
  cmrQueue : string;
  cmrTag : string;
  cmrNoAck : bool;
  cmrQos : list nat
}.

(** Modelled from the spec: Consumer(queue, tag, noAck, channel, accountants). *)
Definition NewConsumer (queueName consumerTag : string) (noAck : bool) (consumerQos : list nat) : Consumer :=
  mkConsumer queueName consumerTag noAck consumerQos.

Definition Tag (cmr : Consumer) : string := cmrTag cmr.
Definition Qos (cmr : Consumer) : list nat := cmrQos cmr.

(** The answers of the collaborators that depend on their internals:
    which queues an exchange matches for a message (the keys of the map
    [GetMatchedQueues] returns, in the order [range] produces them) and
    whether a queue accepts a consumer (the error text when it refuses). *)
Class Broker := {
  GetMatchedQueues : Exchange → Message → list string;
  Queue_AddConsumer : Queue → Consumer → bool → option string
}.

(** Calls into queues and consumers, as the channel issues them. *)
Inductive Call :=
| QueuePush (qu : string) (m : Message) (immediate : bool)
| QueueRequeue (qu : string) (m : Message)
| QueueAckMsg (qu : string) (m : Message)
| QueueAddConsumer (qu : string) (cmr : Consumer) (exclusive : bool)
| ConsumerStop (cmr : Consumer)
| ConsumerConsume (cmr : Consumer).

(** ** Go's [range] over a map *)

(** [for k, v := range m { body }] where the body may delete entries of the
    map it ranges over: the keys come in the order [order]; an entry that
    was deleted before it is reached is not produced. *)
Definition range_map {K V S : Type} `{Countable K}
    (order : list K) (get : S → gmap K V) (body : K → V → S → S) (s : S) : S :=
  foldl (λ s k, match get s !! k with Some v => body k v s | None => s end) s order.

(** [order] is an order in which [range] can produce the keys of [m]. *)
Definition range_order {K V : Type} `{Countable K} (order : list K) (m : gmap K V) : Prop :=
  order ≡ₚ elements (dom m).

(** ** Package [vhost] *)

Definition EX_DEFAULT_NAME : string := "".

Record VirtualHost := mkVirtualHost {
  name : string;
  system : bool;
  exchanges : gmap string Exchange;
  queues : gmap string Queue;
  srvStorage : gmap string string
}.

Definition vhost_set_exchanges (vhost : VirtualHost) (e : gmap string Exchange) : VirtualHost :=
  mkVirtualHost (name vhost) (system vhost) e (queues vhost) (srvStorage vhost).

Definition vhost_set_queues (vhost : VirtualHost) (q : gmap string Queue) : VirtualHost :=
  mkVirtualHost (name vhost) (system vhost) (exchanges vhost) q (srvStorage vhost).

Definition vhost_set_srvStorage (vhost : VirtualHost) (s : gmap string string) : VirtualHost :=
  mkVirtualHost (name vhost) (system vhost) (exchanges vhost) (queues vhost) s.

Definition getQueue (vhost : VirtualHost) (name : string) : option Queue :=
  queues vhost !! name.

Definition GetQueue (vhost : VirtualHost) (name : string) : option Queue :=
  getQueue vhost name.

Definition getExchange (vhost : VirtualHost) (name : string) : option Exchange :=
  exchanges vhost !! name.

Definition GetExchange (vhost : VirtualHost) (name : string) : option Exchange :=
  getExchange vhost name.

Definition GetDefaultExchange (vhost : VirtualHost) : option Exchange :=
  exchanges vhost !! EX_DEFAULT_NAME.

Definition AppendExchange (vhost : VirtualHost) (ex : Exchange) : VirtualHost :=
  vhost_set_exchanges vhost (<[exName ex := ex]> (exchanges vhost)).

Definition initSystemExchanges (vhost : VirtualHost) : VirtualHost :=
  let vhost :=
    foldl (λ vhost exType,
             let exTypeAlias := GetExchangeTypeAlias exType in
             let exName := ("amq." +:+ exTypeAlias)%string in
             AppendExchange vhost (exchange_New exName exType true false false true))
          vhost [EX_TYPE_DIRECT; EX_TYPE_FANOUT; EX_TYPE_HEADERS; EX_TYPE_TOPIC] in
  let systemExchange := exchange_New EX_DEFAULT_NAME EX_TYPE_DIRECT true false false true in
  AppendExchange vhost systemExchange.

Definition getKeyName (vhost : VirtualHost) : string :=
  if decide (name vhost = "/") then "default" else name vhost.

(** [strings.Join(elems, sep)]. *)
Fixpoint Join (elems : list string) (sep : string) : string :=
  match elems with
  | [] => ""
  | [e] => e
  | e :: rest => (e +:+ sep +:+ Join rest sep)%string
  end.

(** [saveQueues]; [order] is the order of the [range] over [vhost.queues]. *)
Definition saveQueues (order : list string) (vhost : VirtualHost) : VirtualHost :=
  let queueNames :=
    range_map order (λ _, queues vhost)
      (λ name q queueNames, if negb (IsDurable q) then queueNames else queueNames ++ [name]) [] in
  vhost_set_srvStorage vhost
    (<[(getKeyName vhost +:+ ".queues")%string := Join queueNames (String (Ascii.ascii_of_nat 10) EmptyString)]> (srvStorage vhost)).

(** [AppendQueue]; calling [AppendBinding] on the nil exchange that
    [GetDefaultExchange] returns when there is no default exchange panics. *)
Definition AppendQueue (order : list string) (vhost : VirtualHost) (qu : Queue) : option VirtualHost :=
  let vhost := vhost_set_queues vhost (<[GetName qu := qu]> (queues vhost)) in
  match GetDefaultExchange vhost with
  | None => None
  | Some ex =>
      let bind := mkBinding (GetName qu) EX_DEFAULT_NAME (GetName qu) false in
      let vhost := vhost_set_exchanges vhost (<[EX_DEFAULT_NAME := AppendBinding ex bind]> (exchanges vhost)) in
      Some (saveQueues order vhost)
  end.

(** [vhost.New] up to the point where the stored queues are loaded: the
    maps are empty and the system exchanges are declared. *)
Definition vhost_New (name : string) (system : bool) (srvStorage : gmap string string) : VirtualHost :=
  initSystemExchanges (mkVirtualHost name system ∅ ∅ srvStorage).

(** ** Package [server]: the channel *)

Definition channelNew : Z := 0.
Definition channelOpen : Z := 1.
Definition channelClosing : Z := 2.
Definition channelClosed : Z := 3.

(** Modelled from the spec: the metrics sink of section 6, seven counters
    on which only [Inc(n)] and [Dec(n)] are used. *)
Inductive Metric := Publish | Deliver | Acknowledge | Confirm | Total | Ready | Unacked.

Record SrvMetricsState := mkMetrics {
  mPublish : Z;
  mDeliver : Z;
  mAcknowledge : Z;
  mConfirm : Z;
  mTotal : Z;
  mReady : Z;
  mUnacked : Z
}.

Definition Counter (s : SrvMetricsState) (m : Metric) : Z :=
  match m with
  | Publish => mPublish s
  | Deliver => mDeliver s
  | Acknowledge => mAcknowledge s
  | Confirm => mConfirm s
  | Total => mTotal s
  | Ready => mReady s
  | Unacked => mUnacked s
  end.

Definition Counter_add (m : Metric) (n : Z) (s : SrvMetricsState) : SrvMetricsState :=
  match m with
  | Publish => mkMetrics (mPublish s + n) (mDeliver s) (mAcknowledge s) (mConfirm s) (mTotal s) (mReady s) (mUnacked s)
  | Deliver => mkMetrics (mPublish s) (mDeliver s + n) (mAcknowledge s) (mConfirm s) (mTotal s) (mReady s) (mUnacked s)
  | Acknowledge => mkMetrics (mPublish s) (mDeliver s) (mAcknowledge s + n) (mConfirm s) (mTotal s) (mReady s) (mUnacked s)
  | Confirm => mkMetrics (mPublish s) (mDeliver s) (mAcknowledge s) (mConfirm s + n) (mTotal s) (mReady s) (mUnacked s)
  | Total => mkMetrics (mPublish s) (mDeliver s) (mAcknowledge s) (mConfirm s) (mTotal s + n) (mReady s) (mUnacked s)
  | Ready => mkMetrics (mPublish s) (mDeliver s) (mAcknowledge s) (mConfirm s) (mTotal s) (mReady s + n) (mUnacked s)
  | Unacked => mkMetrics (mPublish s) (mDeliver s) (mAcknowledge s) (mConfirm s) (mTotal s) (mReady s) (mUnacked s + n)
  end.

(** [UnackedMessage]. *)
Record UnackedMessage := mkUnackedMessage {
  cTag : string;
  msg : Message;
  queue : string
}.

(** [Channel]: the fields of the struct that are data of the channel
    itself.  [qos] and [consumerQos] are addresses in the QoS heap. *)
Record Channel := mkChannel {
  active : bool;
  confirmMode : bool;
  id : Z;
  status : Z;
  protoVersion : string;
  currentMessage : option Message;
  consumers : gmap string Consumer;
  qos : nat;
  consumerQos : nat;
  deliveryTag : N;
  confirmDeliveryTag : N;
  confirmQueue : list ConfirmMeta;
  ackStore : gmap N UnackedMessage
}.

(** The channel together with what it reaches through [channel.conn],
    [channel.server], [channel.outgoing] and [channel.srvMetrics]: the
    server's protocol version, the connection's accountant and virtual
    host, the outgoing frame sink, the metrics, the QoS heap and the trace
    of calls into queues and consumers. *)
Record World := mkWorld {
  channel : Channel;
  server_protoVersion : string;
  conn_qos : nat;
  conn_vhost : VirtualHost;
  outgoing : list Frame;
  srvMetrics : SrvMetricsState;
  heap : list AmqpQos;
  calls : list Call
}.

Global Instance AmqpQos_inhabited : Inhabited AmqpQos := populate (NewAmqpQos 0 0).

Definition set_channel (w : World) (c : Channel) : World :=
  mkWorld c (server_protoVersion w) (conn_qos w) (conn_vhost w) (outgoing w) (srvMetrics w) (heap w) (calls w).

Definition set_outgoing (w : World) (o : list Frame) : World :=
  mkWorld (channel w) (server_protoVersion w) (conn_qos w) (conn_vhost w) o (srvMetrics w) (heap w) (calls w).

Definition set_srvMetrics (w : World) (s : SrvMetricsState) : World :=
  mkWorld (channel w) (server_protoVersion w) (conn_qos w) (conn_vhost w) (outgoing w) s (heap w) (calls w).

Definition set_heap (w : World) (h : list AmqpQos) : World :=
  mkWorld (channel w) (server_protoVersion w) (conn_qos w) (conn_vhost w) (outgoing w) (srvMetrics w) h (calls w).

Definition set_calls (w : World) (c : list Call) : World :=
  mkWorld (channel w) (server_protoVersion w) (conn_qos w) (conn_vhost w) (outgoing w) (srvMetrics w) (heap w) c.

Definition set_status (w : World) (s : Z) : World :=
  let c := channel w in
  set_channel w
    (mkChannel (active c) (confirmMode c) (id c) s (protoVersion c) (currentMessage c) (consumers c)
       (qos c) (consumerQos c) (deliveryTag c) (confirmDeliveryTag c) (confirmQueue c) (ackStore c)).

Definition set_currentMessage (w : World) (m : option Message) : World :=
  let c := channel w in
  set_channel w
    (mkChannel (active c) (confirmMode c) (id c) (status c) (protoVersion c) m (consumers c)
       (qos c) (consumerQos c) (deliveryTag c) (confirmDeliveryTag c) (confirmQueue c) (ackStore c)).

Definition set_consumers (w : World) (m : gmap string Consumer) : World :=
  let c := channel w in
  set_channel w
    (mkChannel (active c) (confirmMode c) (id c) (status c) (protoVersion c) (currentMessage c) m
       (qos c) (consumerQos c) (deliveryTag c) (confirmDeliveryTag c) (confirmQueue c) (ackStore c)).

Definition set_deliveryTag (w : World) (t : N) : World :=
  let c := channel w in
  set_channel w
    (mkChannel (active c) (confirmMode c) (id c) (status c) (protoVersion c) (currentMessage c) (consumers c)
       (qos c) (consumerQos c) t (confirmDeliveryTag c) (confirmQueue c) (ackStore c)).

Definition set_confirmQueue (w : World) (q : list ConfirmMeta) : World :=
  let c := channel w in
  set_channel w
    (mkChannel (active c) (confirmMode c) (id c) (status c) (protoVersion c) (currentMessage c) (consumers c)
       (qos c) (consumerQos c) (deliveryTag c) (confirmDeliveryTag c) q (ackStore c)).

Definition set_ackStore (w : World) (s : gmap N UnackedMessage) : World :=
  let c := channel w in
  set_channel w
    (mkChannel (active c) (confirmMode c) (id c) (status c) (protoVersion c) (currentMessage c) (consumers c)
       (qos c) (consumerQos c) (deliveryTag c) (confirmDeliveryTag c) (confirmQueue c) s).

(** [channel.srvMetrics.X.Counter.Inc(n)] and [.Dec(n)]. *)
Definition Counter_Inc (m : Metric) (n : Z) (w : World) : World :=
  set_srvMetrics w (Counter_add m n (srvMetrics w)).

Definition Counter_Dec (m : Metric) (n : Z) (w : World) : World :=
  set_srvMetrics w (Counter_add m (- n) (srvMetrics w)).

(** A call into a queue or a consumer. *)
Definition call (c : Call) (w : World) : World := set_calls w (calls w ++ [c]).

(** [amqpQos.Dec(count, size)] and [amqpQos.Update(count, size)] through the
    pointer [p]. *)
Definition Dec (p : nat) (count size : Z) (w : World) : World :=
  set_heap w (alter (AmqpQos_Dec count size) p (heap w)).

Definition Update (p : nat) (count size : Z) (w : World) : World :=
  set_heap w (alter (AmqpQos_Update count size) p (heap w)).

Definition Frame_set_ChannelID (f : Frame) (c : Z) : Frame :=
  mkFrame (Type_ f) c (Payload f) (CloseAfter f) (Sync_ f).

(** [sort.Slice(deliveryTags, func(i, j) { deliveryTags[i] > deliveryTags[j] })]:
    the tags in descending order. *)
Definition tag_ge (x y : N) : Prop := (y ≤ x)%N.

Global Instance tag_ge_dec : RelDecision tag_ge := λ x y, decide (y ≤ x)%N.

Definition sort_Slice_desc (deliveryTags : list N) : list N :=
  merge_sort tag_ge deliveryTags.

(** A loop over a slice whose body can panic. *)
Fixpoint for_each {A S : Type} (body : A → S → option S) (l : list A) (s : S) : option S :=
  match l with
  | [] => Some s
  | x :: l => match body x s with Some s => for_each body l s | None => None end
  end.

Section Channel.
Context `{Amqp} `{Broker}.

Definition sendOutgoing (frame : Frame) (w : World) : World :=
  set_outgoing w (outgoing w ++ [frame]).

Definition SendMethod (method : Method) (w : World) : World :=
  let rawMethod := WriteMethod method (server_protoVersion w) in
  let closeAfter :=
    bool_decide (ClassIdentifier method = ClassConnection)
    && bool_decide (MethodIdentifier method = MethodConnectionCloseOk) in
  sendOutgoing (mkFrame FrameMethod (id (channel w)) rawMethod closeAfter (Sync method)) w.

(** [SendContent] stamps the channel id on the body frames of the message
    it is given; the message after that is the second component. *)
Definition SendContent (method : Method) (message : Message) (w : World) : World * Message :=
  let w := SendMethod method w in
  let rawHeader := WriteContentHeader (Header message) (server_protoVersion w) in
  let w := sendOutgoing (mkFrame FrameHeader (id (channel w)) rawHeader false false) w in
  let body := map (λ payload, Frame_set_ChannelID payload (id (channel w))) (Body message) in
  let w := foldl (λ w payload, sendOutgoing payload w) w body in
  let w := match method with BasicDeliver _ _ => Counter_Inc Deliver 1 w | _ => w end in
  (w, Message_set_Body message body).

Definition addConfirm (meta : ConfirmMeta) (w : World) : World :=
  if negb (confirmMode (channel w)) then w
  else if bool_decide (status (channel w) = channelClosed) then w
  else set_confirmQueue w (confirmQueue (channel w) ++ [meta]).

(** [handleContentHeader].  [ReadContentHeader] answers [None] for an
    error; the header it leaves in the message is then nil, as before. *)
Definition handleContentHeader (headerFrame : Frame) (w : World) : World * option Error :=
  match currentMessage (channel w) with
  | None => (w, Some (NewConnectionError FrameError "unexpected content header frame" 0 0))
  | Some cm =>
      match Header cm with
      | Some _ =>
          (w, Some (NewConnectionError FrameError "unexpected content header frame - header already exists" 0 0))
      | None =>
          match ReadContentHeader (Payload headerFrame) (protoVersion (channel w)) with
          | None => (w, Some (NewConnectionError FrameError "error on parsing content header frame" 0 0))
          | Some h => (set_currentMessage w (Some (Message_set_Header cm (Some h))), None)
          end
      end
  end.

(** The loop of [handleContentBody] over the matched queues.  [qu.Push] on
    the nil that [GetQueue] returns for a name without queue panics. *)
Definition pushToQueue (message : Message) (queueName : string) (w : World) : option World :=
  match GetQueue (conn_vhost w) queueName with
  | None => None
  | Some qu =>
      let w := call (QueuePush queueName message false) w in
      let w := Counter_Inc Total 1 w in
      let w := Counter_Inc Ready 1 w in
      if CanConfirm (ConfirmMeta_ message) && negb (IsPersistent message)
      then Some (addConfirm (ConfirmMeta_ message) w)
      else Some w
  end.

(** [handleContentBody] from the lookup of the exchange on: the message is
    complete.  [message] is the object in the current-message slot, so what
    is written to it is written to the slot. *)
Definition handleContentBody_route (message : Message) (w : World) : option (World * option Error) :=
  let vhost := conn_vhost w in
  match GetExchange vhost (Exchange_ message) with
  | None =>
      let '(w, message) :=
        SendContent (BasicReturn NoConsumers "No route" (Exchange_ message) (RoutingKey message)) message w in
      Some (set_currentMessage w (Some message), None)
  | Some ex =>
      let matchedQueues := GetMatchedQueues ex message in
      if bool_decide (length matchedQueues = 0%nat) then
        if Mandatory message then
          let '(w, message) :=
            SendContent (BasicReturn NoConsumers "No route" (Exchange_ message) (RoutingKey message)) message w in
          Some (set_currentMessage w (Some message), None)
        else Some (addConfirm (ConfirmMeta_ message) w, None)
      else
        let w := Counter_Inc Publish 1 w in
        let message := Message_set_ExpectedConfirms message (Z.of_nat (length matchedQueues)) in
        let w := set_currentMessage w (Some message) in
        match for_each (pushToQueue message) matchedQueues w with
        | None => None
        | Some w => Some (w, None)
        end
  end.

Definition handleContentBody (bodyFrame : Frame) (w : World) : option (World * option Error) :=
  match currentMessage (channel w) with
  | None => Some (w, Some (NewConnectionError FrameError "unexpected content body frame" 0 0))
  | Some cm =>
      match Header cm with
      | None =>
          Some (w, Some (NewConnectionError FrameError "unexpected content body frame - no header yet" 0 0))
      | Some header =>
          let message := Message_Append cm bodyFrame in
          let w := set_currentMessage w (Some message) in
          if (BodySize message <? hBodySize header)%N then Some (w, None)
          else handleContentBody_route message w
      end
  end.

Definition getQueueWithError (queueName : string) (method : Method) (w : World) : Queue + Error :=
  match GetQueue (conn_vhost w) queueName with
  | Some qu =>
      if negb (IsActive qu)
      then inr (NewChannelError NotFound ("queue '" +:+ queueName +:+ "' not found")
                  (ClassIdentifier method) (MethodIdentifier method))
      else inl qu
  | None =>
      inr (NewChannelError NotFound ("queue '" +:+ queueName +:+ "' not found")
             (ClassIdentifier method) (MethodIdentifier method))
  end.

(** [addConsumer]; the argument is the [basic.consume] method.  The copy
    [cmrQos := *channel.consumerQos] is a new accountant at the end of the
    heap. *)
Definition addConsumer (queue consumerTag : string) (noAck exclusive : bool) (w : World)
  : World * (Consumer + Error) :=
  let method := BasicConsume queue consumerTag noAck exclusive in
  match getQueueWithError queue method w with
  | inr err => (w, inr err)
  | inl qu =>
      let '(w, consumerQos) :=
        if bool_decide (server_protoVersion w = Proto091)
        then (w, [qos (channel w); conn_qos w])
        else
          let cmrQos := heap w !!! consumerQos (channel w) in
          (set_heap w (heap w ++ [cmrQos]), [qos (channel w); length (heap w)]) in
      let cmr := NewConsumer queue consumerTag noAck consumerQos in
      match consumers (channel w) !! Tag cmr with
      | Some _ =>
          (w, inr (NewChannelError NotAllowed ("Consumer with tag '" +:+ Tag cmr +:+ "' already exists")
                     (ClassIdentifier method) (MethodIdentifier method)))
      | None =>
          let w := call (QueueAddConsumer (GetName qu) cmr exclusive) w in
          match Queue_AddConsumer qu cmr exclusive with
          | Some quErr =>
              (w, inr (NewChannelError AccessRefused quErr
                         (ClassIdentifier method) (MethodIdentifier method)))
          | None =>
              (set_consumers w (<[Tag cmr := cmr]> (consumers (channel w))), inl cmr)
          end
      end
  end.

Definition removeConsumer (cTag : string) (w : World) : World :=
  match consumers (channel w) !! cTag with
  | Some cmr =>
      let w := call (ConsumerStop cmr) w in
      set_consumers w (delete (Tag cmr) (consumers (channel w)))
  | None => w
  end.

Definition updateQos (prefetchCount prefetchSize : Z) (global : bool) (w : World) : World :=
  if bool_decide (server_protoVersion w = Proto091) then
    if global then Update (conn_qos w) prefetchCount prefetchSize w
    else Update (qos (channel w)) prefetchCount prefetchSize w
  else
    if global then Update (qos (channel w)) prefetchCount prefetchSize w
    else Update (consumerQos (channel w)) prefetchCount prefetchSize w.

(** [atomic.AddUint64(&channel.deliveryTag, 1)]. *)
Definition NextDeliveryTag (w : World) : World * N :=
  let t := ((deliveryTag (channel w) + 1) mod uint64_mod)%N in
  (set_deliveryTag w t, t).

Definition AddUnackedMessage (dTag : N) (cTag : string) (queue : string) (message : Message) (w : World) : World :=
  let w := set_ackStore w (<[dTag := mkUnackedMessage cTag message queue]> (ackStore (channel w))) in
  let w := Counter_Inc Unacked 1 w in
  Counter_Dec Ready 1 w.

Definition decQosAndConsumerNext (unackedMessage : UnackedMessage) (w : World) : World :=
  match consumers (channel w) !! cTag unackedMessage with
  | Some cmr =>
      let w := call (ConsumerConsume cmr) w in
      foldl (λ w amqpQos, Dec amqpQos 1 (Z.of_N (uint32 (BodySize (msg unackedMessage)))) w) w (Qos cmr)
  | None =>
      let w := Dec (qos (channel w)) 1 (Z.of_N (uint32 (BodySize (msg unackedMessage)))) w in
      Dec (conn_qos w) 1 (Z.of_N (uint32 (BodySize (msg unackedMessage)))) w
  end.

Definition ackMsg (unackedMessage : UnackedMessage) (deliveryTag : N) (w : World) : World :=
  let w := set_ackStore w (delete deliveryTag (ackStore (channel w))) in
  let w :=
    match GetQueue (conn_vhost w) (queue unackedMessage) with
    | Some q =>
        let w := call (QueueAckMsg (queue unackedMessage) (msg unackedMessage)) w in
        let w := Counter_Inc Acknowledge 1 w in
        let w := Counter_Dec Total 1 w in
        Counter_Dec Unacked 1 w
    | None => w
    end in
  decQosAndConsumerNext unackedMessage w.

(** [handleAck]; the arguments are the fields of the [basic.ack] method and
    [order] is the order of the [range] over [channel.ackStore]. *)
Definition handleAck (order : list N) (deliveryTag : N) (multiple : bool) (w : World) : World * option Error :=
  let method := BasicAck deliveryTag multiple in
  if multiple then
    (range_map order (λ w, ackStore (channel w))
       (λ tag uMsg w,
          if (deliveryTag =? 0)%N || (tag <=? deliveryTag)%N then ackMsg uMsg tag w else w) w,
     None)
  else
    match ackStore (channel w) !! deliveryTag with
    | None =>
        (w, Some (NewChannelError PreconditionFailed
                    ("Delivery tag [" +:+ pretty deliveryTag +:+ "] not found")
                    (ClassIdentifier method) (MethodIdentifier method)))
    | Some uMsg => (ackMsg uMsg deliveryTag w, None)
    end.

(** [rejectMsg]; the first argument is a pointer, nil when the map had no
    entry, and reading [unackedMessage.queue] through nil panics. *)
Definition rejectMsg (unackedMessage : option UnackedMessage) (deliveryTag : N) (requeue : bool) (w : World)
  : option World :=
  let w := set_ackStore w (delete deliveryTag (ackStore (channel w))) in
  match unackedMessage with
  | None => None
  | Some unackedMessage =>
      let w :=
        match GetQueue (conn_vhost w) (queue unackedMessage) with
        | Some qu =>
            let w :=
              if requeue then
                let w := call (QueueRequeue (queue unackedMessage) (msg unackedMessage)) w in
                Counter_Inc Ready 1 w
              else call (QueueAckMsg (queue unackedMessage) (msg unackedMessage)) w in
            Counter_Dec Unacked 1 w
        | None => w
        end in
      Some (decQosAndConsumerNext unackedMessage w)
  end.

(** [handleReject]; [order] is the order of the [range] over
    [channel.ackStore] that collects the tags. *)
Definition handleReject (order : list N) (deliveryTag : N) (multiple requeue : bool) (method : Method) (w : World)
  : option (World * option Error) :=
  if multiple then
    let deliveryTags :=
      range_map order (λ _, ackStore (channel w)) (λ dTag _ deliveryTags, deliveryTags ++ [dTag]) [] in
    let deliveryTags := sort_Slice_desc deliveryTags in
    match
      for_each (λ tag w,
                  if (deliveryTag =? 0)%N || (tag <=? deliveryTag)%N
                  then rejectMsg (ackStore (channel w) !! tag) tag requeue w
                  else Some w) deliveryTags w
    with
    | None => None
    | Some w => Some (w, None)
    end
  else
    match ackStore (channel w) !! deliveryTag with
    | None =>
        Some (w, Some (NewChannelError PreconditionFailed
                         ("Delivery tag [" +:+ pretty deliveryTag +:+ "] not found")
                         (ClassIdentifier method) (MethodIdentifier method)))
    | Some uMsg =>
        match rejectMsg (Some uMsg) deliveryTag requeue w with
        | None => None
        | Some w => Some (w, None)
        end
    end.

(** [close]; [cmrOrder] and [ackOrder] are the orders of the [range] over
    [channel.consumers] and, inside [handleReject], over [channel.ackStore]. *)
Definition close (cmrOrder : list string) (ackOrder : list N) (w : World) : option World :=
  let w :=
    range_map cmrOrder (λ w, consumers (channel w))
      (λ _ cmr w,
         let w := call (ConsumerStop cmr) w in
         set_consumers w (delete (Tag cmr) (consumers (channel w)))) w in
  let w :=
    if bool_decide (id (channel w) > 0)
    then fst <$> handleReject ackOrder 0 true true (BasicNack 0 false false) w
    else Some w in
  (λ w, set_status w channelClosed) <$> w.

End Channel.

(** ** Concrete collaborators and states for the examples *)

(** The identifiers of AMQP 0-9-1 and a small codec: a method is written as
    its two identifiers, a content header as its body size in one byte. *)
Definition byte_of_Z (z : Z) : byte := default x00 (Byte.of_N (Z.to_N z)).

Definition example_ClassIdentifier (m : Method) : Z :=
  match m with
  | ChannelClose _ _ _ _ => 20
  | ConnectionClose _ _ _ _ | ConnectionCloseOk => 10
  | _ => 60
  end.

Definition example_MethodIdentifier (m : Method) : Z :=
  match m with
  | BasicConsume _ _ _ _ => 20
  | BasicReturn _ _ _ _ => 50
  | BasicDeliver _ _ => 60
  | BasicAck _ _ => 80
  | BasicReject _ _ => 90
  | BasicNack _ _ _ => 120
  | ChannelClose _ _ _ _ => 40
  | ConnectionClose _ _ _ _ => 50
  | ConnectionCloseOk => 51
  end.

Definition example_amqp : Amqp := {|
  Proto091 := "amqp-0-9-1";
  ClassConnection := 10;
  MethodConnectionCloseOk := 51;
  ClassIdentifier := example_ClassIdentifier;
  MethodIdentifier := example_MethodIdentifier;
  Sync := λ m, match m with BasicConsume _ _ _ _ => true | _ => false end;
  WriteMethod := λ m _, [byte_of_Z (example_ClassIdentifier m); byte_of_Z (example_MethodIdentifier m)];
  WriteContentHeader := λ h _,
    match h with Some h => [default x00 (Byte.of_N (hBodySize h))] | None => [] end;
  ReadContentHeader := λ bs _,
    match bs with [b] => Some (mkContentHeader (Byte.to_N b) None) | _ => None end
|}.

(** A broker whose exchanges match on the routing key and whose queues
    refuse an exclusive consumer. *)
Definition example_broker : Broker := {|
  GetMatchedQueues := λ ex m,
    bindQueue <$> filter (λ b, bindRoutingKey b = RoutingKey m) (exBindings ex);
  Queue_AddConsumer := λ qu cmr exclusive,
    if exclusive then Some "queue is busy"%string else None
|}.

Definition example_queue (name : string) : Queue := mkQueue name 0 false false true 1 true.

(** The virtual host "/" with the system exchanges and the queue "q1". *)
Definition example_vhost : VirtualHost :=
  default (vhost_New "/" false ∅) (AppendQueue [] (vhost_New "/" false ∅) (example_queue "q1")).

Definition example_metrics : SrvMetricsState := mkMetrics 0 0 0 0 0 0 0.

Definition example_meta : ConfirmMeta := mkConfirmMeta 1 0 0 true.

(** A message of [size] bytes whose assembly is over. *)
Definition example_message (size : N) : Message :=
  mkMessage "" "q1" false (Some (mkContentHeader size None)) [] size example_meta.

(** Channel [chId] of a connection: accountants at addresses 0 (channel),
    1 (consumer template) and 2 (connection). *)
Definition example_channel (chId : Z) (proto : string) : Channel :=
  mkChannel true false chId channelOpen proto None ∅ 0%nat 1%nat 0 0 [] ∅.

Definition example_world (chId : Z) (proto : string) : World :=
  mkWorld (example_channel chId proto) proto 2%nat example_vhost [] example_metrics
    [mkQos 10 0 3 40; mkQos 5 0 0 0; mkQos 0 0 3 40] [].

(** Scenario S1 with the mandatory flag as given: [basic.publish] to the
    exchange "none" was received and the header declared three bytes. *)
Definition publish_none (mandatory : bool) : World :=
  set_currentMessage (example_world 1 "amqp-0-9-1")
    (Some (mkMessage "none" "" mandatory (Some (mkContentHeader 3 None)) [] 0 example_meta)).

Definition frame_abc : Frame := mkFrame FrameBody 1 [x61; x62; x63] false false.

(** Two messages that differ at most in the channel id stamped on their
    body frames and in the expected-confirms count. *)
Definition same_publish (m m' : Message) : Prop :=
  Exchange_ m' = Exchange_ m ∧ RoutingKey m' = RoutingKey m ∧ Mandatory m' = Mandatory m
  ∧ Header m' = Header m ∧ BodySize m' = BodySize m
  ∧ Payload <$> Body m' = Payload <$> Body m.

(** The entries a multiple ack or reject with [deliveryTag] selects: all of
    them for tag 0, else those up to [deliveryTag]. *)
Definition selected (deliveryTag tag : N) : bool :=
  (deliveryTag =? 0)%N || (tag <=? deliveryTag)%N.

(** The amount of bytes released for an unacked message. *)
Definition released_size (u : UnackedMessage) : Z := Z.of_N (uint32 (BodySize (msg u))).

(** The QoS heap after the release for [u]. *)
Definition released (u : UnackedMessage) (w : World) : list AmqpQos :=
  match consumers (channel w) !! cTag u with
  | Some cmr => foldl (λ h p, alter (AmqpQos_Dec 1 (released_size u)) p h) (heap w) (Qos cmr)
  | None =>
      alter (AmqpQos_Dec 1 (released_size u)) (conn_qos w)
        (alter (AmqpQos_Dec 1 (released_size u)) (qos (channel w)) (heap w))
  end.

(** The call that wakes the consumer of [u], when it is still registered. *)
Definition wake (u : UnackedMessage) (w : World) : list Call :=
  match consumers (channel w) !! cTag u with
  | Some cmr => [ConsumerConsume cmr]
  | None => []
  end.

(** Channel 1 with the delivery [dTag] of a message of [size] bytes from
    [queue] unacked, and no consumer registered. *)
Definition unacked_world (dTag : N) (size : N) (queue : string) : World :=
  set_ackStore (example_world 1 "amqp-0-9-1")
    {[dTag := mkUnackedMessage "c1" (example_message size) queue]}.

(** The accountants [addConsumer] gives a new consumer. *)
Definition new_consumer_qos `{Amqp} (w : World) : list nat :=
  if bool_decide (server_protoVersion w = Proto091)
  then [qos (channel w); conn_qos w]
  else [qos (channel w); length (heap w)].

(** The world after [addConsumer] has built the accountant list. *)
Definition with_consumer_qos `{Amqp} (w : World) : World :=
  if bool_decide (server_protoVersion w = Proto091)
  then w
  else set_heap w (heap w ++ [heap w !!! consumerQos (channel w)]).

(** Channel 1 under a later protocol, and channel 1 with the consumer "c1"
    registered on the queue "q1". *)
Definition later_world : World := example_world 1 "amqp-rabbit".

Definition consuming_world : World :=
  set_consumers (example_world 1 "amqp-0-9-1")
    {["c1"%string := mkConsumer "q1" "c1" false [0%nat; 2%nat]]}.

(** Channel 0 with the delivery 7 unacked. *)
Definition unacked_world_0 : World :=
  set_ackStore (example_world 0 "amqp-0-9-1")
    {[7%N := mkUnackedMessage "c1" (example_message 12) "q1"]}.

(** ** The rest of the channel *)

Definition set_active (w : World) (a : bool) : World :=
  let c := channel w in
  set_channel w
    (mkChannel a (confirmMode c) (id c) (status c) (protoVersion c) (currentMessage c) (consumers c)
       (qos c) (consumerQos c) (deliveryTag c) (confirmDeliveryTag c) (confirmQueue c) (ackStore c)).

Definition set_confirmDeliveryTag (w : World) (t : N) : World :=
  let c := channel w in
  set_channel w
    (mkChannel (active c) (confirmMode c) (id c) (status c) (protoVersion c) (currentMessage c) (consumers c)
       (qos c) (consumerQos c) (deliveryTag c) t (confirmQueue c) (ackStore c)).

(** [NewChannel(id, conn)]: the connection is what [w] holds beside its
    channel; the two accountants [qos.NewAmqpQos(0, 0)] of the new channel
    are new objects at the end of the heap. *)
Definition NewChannel (chId : Z) (w : World) : World :=
  set_heap
    (set_channel w
       (mkChannel true false chId channelNew (server_protoVersion w) None ∅
          (length (heap w)) (S (length (heap w))) 0 0 [] ∅))
    (heap w ++ [NewAmqpQos 0 0; NewAmqpQos 0 0]).

(** [atomic.AddUint64(&channel.confirmDeliveryTag, 1)]. *)
Definition nextConfirmDeliveryTag (w : World) : World * N :=
  let t := ((confirmDeliveryTag (channel w) + 1) mod uint64_mod)%N in
  (set_confirmDeliveryTag w t, t).

(** [n] calls of [NextDeliveryTag] in a row, with the tags they return. *)
Fixpoint NextDeliveryTags (n : nat) (w : World) : World * list N :=
  match n with
  | O => (w, [])
  | S n =>
      let '(w, t) := NextDeliveryTag w in
      let '(w, ts) := NextDeliveryTags n w in
      (w, t :: ts)
  end.

Definition isActive (w : World) : bool := active (channel w).

Definition GetConsumersCount (w : World) : nat := size (consumers (channel w)).

(** The calls [changeFlow] makes on consumers. *)
Inductive FlowCall :=
| CmrPause (cmr : Consumer)
| CmrUnPause (cmr : Consumer)
| CmrConsume (cmr : Consumer).

(** [changeFlow]; [order] is the order of the [range] over
    [channel.consumers]; the second component lists the calls made on the
    consumers, in order. *)
Definition changeFlow (order : list string) (active_ : bool) (w : World) : World * list FlowCall :=
  if Bool.eqb (active (channel w)) active_ then (w, [])
  else
    let w := set_active w active_ in
    if active (channel w) then
      (w, range_map order (λ _ : list FlowCall, consumers (channel w))
            (λ _ cmr t, t ++ [CmrUnPause cmr; CmrConsume cmr]) [])
    else
      (w, range_map order (λ _ : list FlowCall, consumers (channel w))
            (λ _ cmr t, t ++ [CmrPause cmr]) []).

Section ChannelRest.
Context `{Amqp} `{Broker}.

(** One tick of [sendConfirms]; the second component says whether the loop
    goes on ([false] once the channel is closed). *)
Definition sendConfirms_tick (w : World) : World * bool :=
  if bool_decide (status (channel w) = channelClosed) then (w, false)
  else
    let currentConfirms := confirmQueue (channel w) in
    let w := set_confirmQueue w [] in
    (foldl (λ w confirm,
              let w := SendMethod (BasicAck (cmDeliveryTag confirm) false) w in
              Counter_Inc Confirm 1 w) w currentConfirms,
     true).

Definition getExchangeWithError (exchangeName : string) (method : Method) (w : World) : Exchange + Error :=
  match GetExchange (conn_vhost w) exchangeName with
  | None =>
      inr (NewChannelError NotFound ("exchange '" +:+ exchangeName +:+ "' not found")
             (ClassIdentifier method) (MethodIdentifier method))
  | Some ex => inl ex
  end.

End ChannelRest.

(** The connection around the channel: [conn.id], [conn.status] and the
    channels [conn.channels] by id.  All channels of a connection write to
    the one sink [conn.outgoing] and share the server. *)
Record Conn := mkConn {
  world : World;
  conn_id : N;
  conn_status : Z;
  conn_channels : gmap Z Channel
}.

Definition set_world (c : Conn) (w : World) : Conn :=
  mkConn w (conn_id c) (conn_status c) (conn_channels c).

Definition set_conn_status (c : Conn) (s : Z) : Conn :=
  mkConn (world c) (conn_id c) s (conn_channels c).

(** The constant [ConnClosing] of the connection's states; its declaration
    is outside these sources. *)
Class ServerConsts := { ConnClosing : Z }.

Section Connection.
Context `{Amqp} `{Broker} `{ServerConsts}.

(** [sendError].  [channel.conn.channels[0]] is nil when the connection has
    no channel 0, and [SendMethod] on it panics. *)
Definition sendError (err : Error) (c : Conn) : option Conn :=
  match ErrorType_of err with
  | ErrorOnChannel =>
      let w := set_status (world c) channelClosing in
      Some (set_world c
              (SendMethod (ChannelClose (ReplyCode_of err) (ReplyText err) (ClassID err) (MethodID err)) w))
  | ErrorOnConnection =>
      let c := set_conn_status c ConnClosing in
      match conn_channels c !! 0 with
      | None => None
      | Some channel0 =>
          let w0 :=
            SendMethod (ConnectionClose (ReplyCode_of err) (ReplyText err) (ClassID err) (MethodID err))
              (set_channel (world c) channel0) in
          Some (set_world c (set_channel w0 (channel (world c))))
      end
  end.

(** The body of the loop of [handleIncoming] for one frame.  The branch for
    a method frame decodes the method and routes it by class through
    handlers that are outside these sources: it is the parameter
    [on_method].  A frame of another type falls through the switch. *)
Definition handleIncoming_frame (on_method : Frame → Conn → option Conn) (frame : Frame) (c : Conn)
  : option Conn :=
  if bool_decide (Type_ frame = FrameMethod) then on_method frame c
  else if bool_decide (Type_ frame = FrameHeader) then
    let '(w, err) := handleContentHeader frame (world c) in
    match err with
    | Some err => sendError err (set_world c w)
    | None => Some (set_world c w)
    end
  else if bool_decide (Type_ frame = FrameBody) then
    match handleContentBody frame (world c) with
    | None => None
    | Some (w, Some err) => sendError err (set_world c w)
    | Some (w, None) => Some (set_world c w)
    end
  else Some c.

Definition checkQueueLockWithError (qu : option Queue) (method : Method) (c : Conn) : option Error :=
  match qu with
  | None => None
  | Some qu =>
      if quExclusive qu && negb (quConnID qu =? conn_id c)%N then
        Some (NewChannelError ResourceLocked
                ("queue '" +:+ GetName qu +:+ "' is locked to another connection")
                (ClassIdentifier method) (MethodIdentifier method))
      else None
  end.

End Connection.

(** ** The rest of the virtual host *)

(** What the virtual host takes from queues and exchanges without looking
    inside: the answer of [qu.Delete] (the length of the queue, or the
    error text), what [ex.RemoveQueueBindings] leaves of an exchange, and
    whether a queue made by [queue.NewQueue] is active. *)
Class VhostOps := {
  Queue_Delete : Queue → bool → bool → N + string;
  RemoveQueueBindings : Exchange → string → Exchange;
  NewQueue_active : bool
}.

Definition nl : Ascii.ascii := Ascii.ascii_of_nat 10.

(** [strings.Split(s, sep)] for a separator [sep] of one character [c]. *)
Fixpoint Split (s : string) (c : Ascii.ascii) : list string :=
  match s with
  | EmptyString => [EmptyString]
  | String a s' =>
      if Ascii.eqb a c then EmptyString :: Split s' c
      else match Split s' c with
           | [] => [String a EmptyString]
           | x :: xs => String a x :: xs
           end
  end.

Definition GetQueues (vhost : VirtualHost) : gmap string Queue := queues vhost.

Definition Name (vhost : VirtualHost) : string := name vhost.

Section VirtualHostRest.
Context `{VhostOps}.

Definition NewQueue (vhost : VirtualHost) (name : string) (connId : N)
    (exclusive autoDelete durable : bool) (shardSize : Z) : Queue :=
  mkQueue name connId exclusive autoDelete durable shardSize NewQueue_active.

(** [loadQueues]; [shardSize] is [vhost.srvConfig.Queue.ShardSize] and
    [order_of name] the order of the [range] in the [saveQueues] that
    [AppendQueue] runs for the queue [name].  A key that the storage does
    not have is the error of [srvStorage.Get]. *)
Definition loadQueues (order_of : string → list string) (shardSize : Z) (vhost : VirtualHost)
  : option VirtualHost :=
  match srvStorage vhost !! (getKeyName vhost +:+ ".queues")%string with
  | None => Some vhost
  | Some queues =>
      if bool_decide (String.length queues = 0%nat) then Some vhost
      else
        let queueNames := Split queues nl in
        for_each (λ name vhost,
                    AppendQueue (order_of name) vhost (NewQueue vhost name 0 false false true shardSize))
          queueNames vhost
  end.

Definition DeleteQueue (vhost : VirtualHost) (queueName : string) (ifUnused ifEmpty : bool)
  : VirtualHost * (N + string) :=
  match getQueue vhost queueName with
  | None => (vhost, inr "not found"%string)
  | Some qu =>
      match Queue_Delete qu ifUnused ifEmpty with
      | inr err => (vhost, inr err)
      | inl length =>
          let vhost :=
            vhost_set_exchanges vhost ((λ ex, RemoveQueueBindings ex queueName) <$> exchanges vhost) in
          (vhost_set_queues vhost (delete queueName (queues vhost)), inl length)
      end
  end.

End VirtualHostRest.

(** ** More concrete collaborators and states *)

Definition example_consts : ServerConsts := {| ConnClosing := 2 |}.

(** Queues that can always be deleted and have no messages; removing the
    bindings of a queue drops the bindings that name it. *)
Definition example_vhostops : VhostOps := {|
  Queue_Delete := λ _ _ _, inl 0%N;
  RemoveQueueBindings := λ ex queueName,
    mkExchange (exName ex) (exType ex) (exDurable ex) (exAutoDelete ex) (exInternal ex) (exSystem ex)
      (filter (λ b, bindQueue b ≠ queueName) (exBindings ex));
  NewQueue_active := true
|}.

(** A connection with channels 0 and 1, seen from channel 1. *)
Definition example_conn (w : World) : Conn :=
  mkConn w 1 1 {[0 := example_channel 0 "amqp-0-9-1"; 1 := channel w]}.

(** ** Notions used by the further properties *)

(** The frame [SendMethod] writes for [method] on the channel of [w]. *)
Definition method_frame `{Amqp} (method : Method) (w : World) : Frame :=
  mkFrame FrameMethod (id (channel w)) (WriteMethod method (server_protoVersion w))
    (bool_decide (ClassIdentifier method = ClassConnection)
     && bool_decide (MethodIdentifier method = MethodConnectionCloseOk))
    (Sync method).

(** The character [c] occurs in [s]. *)
Fixpoint has_char (c : Ascii.ascii) (s : string) : bool :=
  match s with
  | EmptyString => false
  | String a s' => Ascii.eqb a c || has_char c s'
  end.

(** The key [k] holds a durable queue in [m]. *)
Definition durable_key (m : gmap string Queue) (k : string) : bool :=
  match m !! k with
  | Some q => IsDurable q
  | None => false
  end.

(** How far the Unacked counter is from the size of the ledger. *)
Definition ledger_gap (w : World) : Z :=
  Counter (srvMetrics w) Unacked - Z.of_nat (size (ackStore (channel w))).

(** The queue of every entry of [m] that [P] selects is in the virtual
    host of [w]. *)
Definition queues_present (P : N → bool) (m : gmap N UnackedMessage) (w : World) : Prop :=
  ∀ t u, m !! t = Some u → P t = true → is_Some (GetQueue (conn_vhost w) (queue u)).

(** The calls [changeFlow] makes for the consumer under the key [k]. *)
Definition flow_calls (active_ : bool) (m : gmap string Consumer) (k : string) : list FlowCall :=
  match m !! k with
  | Some cmr => if active_ then [CmrUnPause cmr; CmrConsume cmr] else [CmrPause cmr]
  | None => []
  end.

(** Channel 1 in confirm mode with two confirms waiting. *)
Definition confirming_world : World :=
  let c := example_channel 1 "amqp-0-9-1" in
  set_channel (example_world 1 "amqp-0-9-1")
    (mkChannel (active c) true (id c) (status c) (protoVersion c) (currentMessage c) (consumers c)
       (qos c) (consumerQos c) (deliveryTag c) (confirmDeliveryTag c)
       [mkConfirmMeta 1 1 0 true; mkConfirmMeta 2 1 0 true] (ackStore c)).

(** A virtual host "/" with the durable queues "q1" and "q2" and the
    transient queue "tmp". *)
Definition durable_vhost : VirtualHost :=
  vhost_set_queues (vhost_New "/" false ∅)
    {[ "q1"%string := example_queue "q1";
       "q2"%string := example_queue "q2";
       "tmp"%string := mkQueue "tmp" 0 false false false 1 true ]}.

(** ** The trace and the counters of an ack *)






(** Scenario S3: five deliveries of the queue "q1" to the consumer "c1",
    recorded under the tags 1 to 5 the counter issues; the message of the
    delivery [t] has 10 + t bytes. *)
Definition deliver_next (w : World) : World :=
  let '(w, t) := NextDeliveryTag w in
  AddUnackedMessage t "c1" "q1" (example_message (10 + t)) w.

Definition five_deliveries : World := Nat.iter 5 deliver_next consuming_world.

(** * Properties *)

(** ** The virtual host *)

Lemma saveQueues_queues (order : list string) (vhost : VirtualHost) :
  queues (saveQueues order vhost) = queues vhost.
Proof. reflexivity. Qed.

Lemma saveQueues_exchanges (order : list string) (vhost : VirtualHost) :
  exchanges (saveQueues order vhost) = exchanges vhost.
Proof. reflexivity. Qed.

(** A virtual host made by [New] has its default exchange, named by the
    empty string and without bindings. *)
Lemma vhost_New_default (n : string) (sys : bool) (st : gmap string string) :
  GetDefaultExchange (vhost_New n sys st)
  = Some (exchange_New EX_DEFAULT_NAME EX_TYPE_DIRECT true false false true).
Proof.
  unfold vhost_New, initSystemExchanges, GetDefaultExchange, AppendExchange.
  simpl. apply lookup_insert_eq.
Qed.

(** Declaring an exchange keeps a default exchange in place. *)
Lemma AppendExchange_default (vhost : VirtualHost) (ex : Exchange) :
  is_Some (GetDefaultExchange vhost) →
  is_Some (GetDefaultExchange (AppendExchange vhost ex)).
Proof.
  unfold GetDefaultExchange, AppendExchange. simpl. intros Hd.
  destruct (decide (exName ex = EX_DEFAULT_NAME)) as [->|Hne].
  - rewrite lookup_insert_eq. eauto.
  - rewrite lookup_insert_ne by done. exact Hd.
Qed.

(** C10.  On a virtual host that has its default exchange (every host made
    by [New] has, and [AppendExchange] and [AppendQueue] keep it),
    [AppendQueue qu] returns; afterwards [GetQueue (GetName qu)] answers
    [qu], and the default exchange, the one stored under the empty name,
    has one more binding, the last one, whose queue and routing key are
    both the name of [qu]. *)
Theorem AppendQueue_reachable_by_name
    (order : list string) (vhost : VirtualHost) (qu : Queue) (ex : Exchange) :
  GetDefaultExchange vhost = Some ex →
  ∃ vhost' ex',
    AppendQueue order vhost qu = Some vhost'
    ∧ GetQueue vhost' (GetName qu) = Some qu
    ∧ GetDefaultExchange vhost' = Some ex'
    ∧ exchanges vhost' !! EX_DEFAULT_NAME = Some ex'
    ∧ exBindings ex'
      = exBindings ex ++ [mkBinding (GetName qu) EX_DEFAULT_NAME (GetName qu) false]
    ∧ (∀ b, last (exBindings ex') = Some b →
            bindRoutingKey b = GetName qu ∧ bindQueue b = GetName qu
            ∧ bindExchange b = EX_DEFAULT_NAME).
Proof.
  intros Hd. unfold AppendQueue.
  assert (Hd' : GetDefaultExchange
                  (vhost_set_queues vhost (<[GetName qu:=qu]> (queues vhost))) = Some ex)
    by exact Hd.
  rewrite Hd'. eexists _, _. split; [reflexivity|].
  split.
  { unfold GetQueue, getQueue. rewrite saveQueues_queues. simpl. apply lookup_insert_eq. }
  assert (Hex : exchanges
    (saveQueues order
       (vhost_set_exchanges (vhost_set_queues vhost (<[GetName qu:=qu]> (queues vhost)))
          (<[EX_DEFAULT_NAME:=AppendBinding ex
               (mkBinding (GetName qu) EX_DEFAULT_NAME (GetName qu) false)]>
             (exchanges (vhost_set_queues vhost (<[GetName qu:=qu]> (queues vhost)))))))
    !! EX_DEFAULT_NAME
    = Some (AppendBinding ex (mkBinding (GetName qu) EX_DEFAULT_NAME (GetName qu) false))).
  { rewrite saveQueues_exchanges. simpl. apply lookup_insert_eq. }
  split; [exact Hex|]. split; [exact Hex|]. split; [reflexivity|].
  intros b Hb. simpl in Hb. rewrite last_snoc in Hb. by inversion Hb.
Qed.

Lemma AppendQueue_reachable_by_name_witness :
  ∃ vhost' ex',
    AppendQueue ["q1"%string] (vhost_New "/" false ∅) (example_queue "q1") = Some vhost'
    ∧ GetQueue vhost' "q1" = Some (example_queue "q1")
    ∧ GetDefaultExchange vhost' = Some ex'
    ∧ exchanges vhost' !! EX_DEFAULT_NAME = Some ex'
    ∧ exBindings ex' = [mkBinding "q1" EX_DEFAULT_NAME "q1" false]
    ∧ (∀ b, last (exBindings ex') = Some b →
            bindRoutingKey b = "q1"%string ∧ bindQueue b = "q1"%string
            ∧ bindExchange b = EX_DEFAULT_NAME).
Proof.
  apply (AppendQueue_reachable_by_name ["q1"%string] (vhost_New "/" false ∅) (example_queue "q1")
           (exchange_New EX_DEFAULT_NAME EX_TYPE_DIRECT true false false true)).
  vm_compute. reflexivity.
Defined.

(** ** Message assembly and routing *)

Section Assembly.
Context `{Amqp} `{Broker}.

Lemma foldl_sendOutgoing (body : list Frame) (w : World) :
  foldl (λ w payload, sendOutgoing payload w) w body = set_outgoing w (outgoing w ++ body).
Proof.
  revert w. induction body as [|f body IH]; intros w; simpl.
  - rewrite app_nil_r. by destruct w.
  - rewrite IH. simpl. by rewrite <- app_assoc.
Qed.

(** What [SendContent] puts on the wire for a method that is not
    [basic.deliver]: the method frame, the header frame, then the body
    frames with the channel id stamped; nothing else changes. *)
Lemma SendContent_return (code : ReplyCode) (text ex rk : string) (message : Message) (w : World) :
  SendContent (BasicReturn code text ex rk) message w
  = (set_outgoing w
       (outgoing w
        ++ [mkFrame FrameMethod (id (channel w))
              (WriteMethod (BasicReturn code text ex rk) (server_protoVersion w))
              (bool_decide (ClassIdentifier (BasicReturn code text ex rk) = ClassConnection)
               && bool_decide (MethodIdentifier (BasicReturn code text ex rk) = MethodConnectionCloseOk))
              (Sync (BasicReturn code text ex rk));
            mkFrame FrameHeader (id (channel w))
              (WriteContentHeader (Header message) (server_protoVersion w)) false false]
        ++ map (λ payload, Frame_set_ChannelID payload (id (channel w))) (Body message)),
     Message_set_Body message
       (map (λ payload, Frame_set_ChannelID payload (id (channel w))) (Body message))).
Proof.
  unfold SendContent, SendMethod, sendOutgoing. rewrite foldl_sendOutgoing. simpl.
  f_equal. f_equal. rewrite <- !app_assoc. reflexivity.
Qed.

Lemma addConfirm_frame (meta : ConfirmMeta) (w : World) :
  currentMessage (channel (addConfirm meta w)) = currentMessage (channel w)
  ∧ calls (addConfirm meta w) = calls w
  ∧ outgoing (addConfirm meta w) = outgoing w
  ∧ conn_vhost (addConfirm meta w) = conn_vhost w.
Proof. unfold addConfirm. repeat case_match; done. Qed.

Lemma pushToQueue_frame (message : Message) (queueName : string) (w w' : World) :
  pushToQueue message queueName w = Some w' →
  currentMessage (channel w') = currentMessage (channel w)
  ∧ calls w' = calls w ++ [QueuePush queueName message false]
  ∧ outgoing w' = outgoing w
  ∧ conn_vhost w' = conn_vhost w.
Proof.
  unfold pushToQueue. destruct (GetQueue (conn_vhost w) queueName); [|done].
  case_match; intros [= <-].
  - destruct (addConfirm_frame (ConfirmMeta_ message)
                (Counter_Inc Ready 1 (Counter_Inc Total 1 (call (QueuePush queueName message false) w))))
      as (-> & -> & -> & ->). done.
  - done.
Qed.

Lemma pushToQueue_returns (message : Message) (queueName : string) (w : World) :
  is_Some (GetQueue (conn_vhost w) queueName) → is_Some (pushToQueue message queueName w).
Proof. intros [qu Hqu]. unfold pushToQueue. rewrite Hqu. case_match; eauto. Qed.

(** The loop over the matched queues pushes the message to each of them in
    turn and leaves the current-message slot and the wire alone. *)
Lemma for_each_pushToQueue (message : Message) (matched : list string) (w w' : World) :
  for_each (pushToQueue message) matched w = Some w' →
  currentMessage (channel w') = currentMessage (channel w)
  ∧ calls w' = calls w ++ map (λ qn, QueuePush qn message false) matched
  ∧ outgoing w' = outgoing w.
Proof.
  revert w. induction matched as [|qn matched IH]; intros w; simpl.
  - intros [= <-]. by rewrite app_nil_r.
  - destruct (pushToQueue message qn w) as [w1|] eqn:Hp; [|done].
    intros Hl. destruct (IH _ Hl) as (-> & -> & ->).
    destruct (pushToQueue_frame _ _ _ _ Hp) as (-> & -> & -> & _).
    by rewrite <- app_assoc.
Qed.

Lemma for_each_pushToQueue_returns (message : Message) (matched : list string) (w : World) :
  (∀ qn, qn ∈ matched → is_Some (GetQueue (conn_vhost w) qn)) →
  is_Some (for_each (pushToQueue message) matched w).
Proof.
  revert w. induction matched as [|qn matched IH]; intros w Hq; simpl; [eauto|].
  destruct (pushToQueue_returns message qn w) as [w1 Hp]; [apply Hq; left|].
  rewrite Hp. apply IH. intros qn' Hin.
  destruct (pushToQueue_frame _ _ _ _ Hp) as (_ & _ & _ & ->). apply Hq. by right.
Qed.

Lemma same_publish_refl (m : Message) : same_publish m m.
Proof. by repeat split. Qed.

Lemma same_publish_stamp (m : Message) (c : Z) :
  same_publish m (Message_set_Body m (map (λ payload, Frame_set_ChannelID payload c) (Body m))).
Proof.
  repeat split. simpl. rewrite <- list_fmap_compose. reflexivity.
Qed.

Lemma same_publish_expected (m : Message) (n : Z) :
  same_publish m (Message_set_ExpectedConfirms m n).
Proof. by repeat split. Qed.

(** Routing never answers an error, and what it leaves in the
    current-message slot is the message it was given. *)
Lemma handleContentBody_route_slot (message : Message) (w w' : World) (err : option Error) :
  currentMessage (channel w) = Some message →
  handleContentBody_route message w = Some (w', err) →
  err = None ∧ ∃ m', currentMessage (channel w') = Some m' ∧ same_publish message m'.
Proof.
  intros Hcm. unfold handleContentBody_route.
  destruct (GetExchange (conn_vhost w) (Exchange_ message)) as [ex|].
  - case_bool_decide.
    + destruct (Mandatory message).
      * rewrite SendContent_return. intros [= <- <-]. split; [done|].
        eexists; split; [reflexivity|apply same_publish_stamp].
      * intros [= <- <-]. split; [done|].
        destruct (addConfirm_frame (ConfirmMeta_ message) w) as (-> & _).
        eexists; split; [exact Hcm|apply same_publish_refl].
    + destruct (for_each _ _ _) as [w1|] eqn:Hl; [|done].
      intros [= <- <-]. split; [done|].
      destruct (for_each_pushToQueue _ _ _ _ Hl) as (-> & _).
      eexists; split; [reflexivity|apply same_publish_expected].
  - rewrite SendContent_return. intros [= <- <-]. split; [done|].
    eexists; split; [reflexivity|apply same_publish_stamp].
Qed.

(** Routing returns when every queue the exchange matches is in the
    virtual host. *)
Lemma handleContentBody_route_returns (message : Message) (w : World) :
  (∀ ex qn, GetExchange (conn_vhost w) (Exchange_ message) = Some ex →
            qn ∈ GetMatchedQueues ex message → is_Some (GetQueue (conn_vhost w) qn)) →
  is_Some (handleContentBody_route message w).
Proof.
  intros Hq. unfold handleContentBody_route.
  destruct (GetExchange (conn_vhost w) (Exchange_ message)) as [ex|] eqn:Hex.
  - case_bool_decide.
    + destruct (Mandatory message); [rewrite SendContent_return|]; eauto.
    + destruct (for_each_pushToQueue_returns
                  (Message_set_ExpectedConfirms message (Z.of_nat (length (GetMatchedQueues ex message))))
                  (GetMatchedQueues ex message)
                  (set_currentMessage (Counter_Inc Publish 1 w)
                     (Some (Message_set_ExpectedConfirms message
                              (Z.of_nat (length (GetMatchedQueues ex message)))))))
        as [w1 Hl]; [intros qn Hin; by apply (Hq ex)|].
      rewrite Hl. eauto.
  - rewrite SendContent_return. eauto.
Qed.

(** When the exchange exists and matches queues, the message, with its
    expected-confirms count set, is pushed to each matched queue. *)
Lemma handleContentBody_route_pushes (message : Message) (w w' : World) (err : option Error) (ex : Exchange) :
  GetExchange (conn_vhost w) (Exchange_ message) = Some ex →
  GetMatchedQueues ex message ≠ [] →
  handleContentBody_route message w = Some (w', err) →
  calls w'
  = calls w
    ++ map (λ qn, QueuePush qn
                    (Message_set_ExpectedConfirms message (Z.of_nat (length (GetMatchedQueues ex message))))
                    false)
         (GetMatchedQueues ex message).
Proof.
  intros Hex Hne. unfold handleContentBody_route. rewrite Hex.
  case_bool_decide as Hlen.
  - by destruct (GetMatchedQueues ex message).
  - destruct (for_each _ _ _) as [w1|] eqn:Hl; [|done]. intros [= <- <-].
    by destruct (for_each_pushToQueue _ _ _ _ Hl) as (_ & -> & _).
Qed.

(** When the exchange is absent the message goes back to the publisher as
    a [basic.return], whatever its mandatory flag says. *)
Lemma handleContentBody_route_no_exchange (message : Message) (w : World) :
  GetExchange (conn_vhost w) (Exchange_ message) = None →
  ∃ w', handleContentBody_route message w = Some (w', None)
    ∧ outgoing w'
      = outgoing w
        ++ [mkFrame FrameMethod (id (channel w))
              (WriteMethod (BasicReturn NoConsumers "No route" (Exchange_ message) (RoutingKey message))
                 (server_protoVersion w))
              (bool_decide (ClassIdentifier
                              (BasicReturn NoConsumers "No route" (Exchange_ message) (RoutingKey message))
                            = ClassConnection)
               && bool_decide (MethodIdentifier
                                 (BasicReturn NoConsumers "No route" (Exchange_ message) (RoutingKey message))
                               = MethodConnectionCloseOk))
              (Sync (BasicReturn NoConsumers "No route" (Exchange_ message) (RoutingKey message)));
            mkFrame FrameHeader (id (channel w))
              (WriteContentHeader (Header message) (server_protoVersion w)) false false]
        ++ map (λ payload, Frame_set_ChannelID payload (id (channel w))) (Body message).
Proof.
  intros Hex. unfold handleContentBody_route. rewrite Hex, SendContent_return.
  eexists; split; reflexivity.
Qed.

End Assembly.

Section AssemblyClaims.
Context `{Amqp} `{Broker}.

(** C2, as the code has it.  A content frame is answered with a
    connection-level FrameError, and changes nothing, in these cases: a
    header frame when there is no current message or when the current
    message has its header already, a body frame when there is no current
    message or when the current message has no header yet, the latter with
    the text "unexpected content body frame - no header yet".  Every error
    either handler answers is a connection-level FrameError.  These are the
    only body frames that are refused: when the slot holds a message with
    a header, be it still incomplete or complete already, a body frame is
    never answered with an error; it is appended to that message, and the
    slot holds a message with the same header afterwards, so that the same
    is true of every later body frame. *)
Theorem content_frame_out_of_order (frame : Frame) (w : World) :
  (currentMessage (channel w) = None →
   handleContentHeader frame w
   = (w, Some (mkError FrameError "unexpected content header frame" 0 0 ErrorOnConnection)))
  ∧ (∀ cm h, currentMessage (channel w) = Some cm → Header cm = Some h →
     handleContentHeader frame w
     = (w, Some (mkError FrameError "unexpected content header frame - header already exists"
                   0 0 ErrorOnConnection)))
  ∧ (currentMessage (channel w) = None →
     handleContentBody frame w
     = Some (w, Some (mkError FrameError "unexpected content body frame" 0 0 ErrorOnConnection)))
  ∧ (∀ cm, currentMessage (channel w) = Some cm → Header cm = None →
     handleContentBody frame w
     = Some (w, Some (mkError FrameError "unexpected content body frame - no header yet"
                        0 0 ErrorOnConnection)))
  ∧ (∀ e, snd (handleContentHeader frame w) = Some e →
          ReplyCode_of e = FrameError ∧ ErrorType_of e = ErrorOnConnection)
  ∧ (∀ w' e, handleContentBody frame w = Some (w', Some e) →
          ReplyCode_of e = FrameError ∧ ErrorType_of e = ErrorOnConnection)
  ∧ (∀ w' err, handleContentBody frame w = Some (w', err) →
       is_Some err
       ↔ currentMessage (channel w) = None
         ∨ ∃ cm, currentMessage (channel w) = Some cm ∧ Header cm = None)
  ∧ (∀ cm h, currentMessage (channel w) = Some cm → Header cm = Some h →
       ∀ w' err, handleContentBody frame w = Some (w', err) →
         err = None
         ∧ ∃ m', currentMessage (channel w') = Some m'
              ∧ Header m' = Some h
              ∧ Payload <$> Body m' = (Payload <$> Body cm) ++ [Payload frame]).
Proof.
  assert (Hacc : ∀ cm h, currentMessage (channel w) = Some cm → Header cm = Some h →
            ∀ w' err, handleContentBody frame w = Some (w', err) →
              err = None
              ∧ ∃ m', currentMessage (channel w') = Some m'
                   ∧ Header m' = Some h
                   ∧ Payload <$> Body m' = (Payload <$> Body cm) ++ [Payload frame]).
  { intros cm h Hcm Hh w' err. unfold handleContentBody. rewrite Hcm, Hh.
    destruct (_ <? _)%N.
    - intros [= <- <-]. split; [done|]. eexists. split; [reflexivity|]. split; [done|].
      simpl. by rewrite fmap_app.
    - intros Hr. apply handleContentBody_route_slot in Hr as [-> (m' & Hm' & Hsame)]; [|done].
      split; [done|]. exists m'. split; [done|].
      destruct Hsame as (_ & _ & _ & -> & _ & ->). split; [done|].
      simpl. by rewrite fmap_app. }
  split; [|split; [|split; [|split; [|split; [|split; [|split]]]]]].
  - intros Hcm. unfold handleContentHeader. by rewrite Hcm.
  - intros cm h Hcm Hh. unfold handleContentHeader. by rewrite Hcm, Hh.
  - intros Hcm. unfold handleContentBody. by rewrite Hcm.
  - intros cm Hcm Hh. unfold handleContentBody. by rewrite Hcm, Hh.
  - intros e He. unfold handleContentHeader in He.
    repeat case_match; simpl in He; by simplify_eq.
  - intros w' e He. unfold handleContentBody in He.
    destruct (currentMessage (channel w)) as [cm|] eqn:Hcm; [|by simplify_eq].
    destruct (Header cm) as [h|]; [|by simplify_eq].
    case_match; [by simplify_eq|].
    by apply handleContentBody_route_slot in He as [? _].
  - intros w' err Hr.
    destruct (currentMessage (channel w)) as [cm|] eqn:Hcm.
    + destruct (Header cm) as [h|] eqn:Hh.
      * destruct (Hacc cm h eq_refl Hh w' err Hr) as [-> _].
        split; [by intros [? ?]|]. intros [?|(cm' & [= <-] & Hn)]; [done|congruence].
      * unfold handleContentBody in Hr. rewrite Hcm, Hh in Hr. injection Hr as <- <-.
        split; [eauto|]. by eauto.
    + unfold handleContentBody in Hr. rewrite Hcm in Hr. injection Hr as <- <-.
      split; [by left|by eauto].
  - exact Hacc.
Qed.

(** C3, as the code has it.  While the accumulated body size is below the
    declared one, [handleContentBody] appends the fragment and returns
    success without routing.  Once it reaches or exceeds the declared size
    the message is routed; whenever that returns, it returns success and
    the current-message slot is not cleared: it still holds the completed
    message.  Routing returns when the queues the exchange matches exist,
    and then the message has been pushed to each of them. *)
Theorem handleContentBody_completion
    (bodyFrame : Frame) (w : World) (cm : Message) (header : ContentHeader) :
  currentMessage (channel w) = Some cm →
  Header cm = Some header →
  let message := Message_Append cm bodyFrame in
  let w1 := set_currentMessage w (Some message) in
  ((BodySize message < hBodySize header)%N →
     handleContentBody bodyFrame w = Some (w1, None))
  ∧ ((hBodySize header ≤ BodySize message)%N →
     handleContentBody bodyFrame w = handleContentBody_route message w1
     ∧ (∀ w' err, handleContentBody bodyFrame w = Some (w', err) →
          err = None
          ∧ ∃ m', currentMessage (channel w') = Some m' ∧ same_publish message m')
     ∧ ((∀ ex qn, GetExchange (conn_vhost w) (Exchange_ message) = Some ex →
                  qn ∈ GetMatchedQueues ex message → is_Some (GetQueue (conn_vhost w) qn)) →
        is_Some (handleContentBody bodyFrame w))
     ∧ (∀ ex w' err, GetExchange (conn_vhost w) (Exchange_ message) = Some ex →
          GetMatchedQueues ex message ≠ [] →
          handleContentBody bodyFrame w = Some (w', err) →
          calls w'
          = calls w
            ++ map (λ qn, QueuePush qn
                            (Message_set_ExpectedConfirms message
                               (Z.of_nat (length (GetMatchedQueues ex message)))) false)
                 (GetMatchedQueues ex message))).
Proof.
  intros Hcm Hh message w1.
  assert (Hbelow : (BodySize message < hBodySize header)%N →
                   handleContentBody bodyFrame w = Some (w1, None)).
  { intros Hlt. unfold handleContentBody. rewrite Hcm, Hh.
    fold message. apply N.ltb_lt in Hlt. by rewrite Hlt. }
  assert (Heq : (hBodySize header ≤ BodySize message)%N →
                handleContentBody bodyFrame w = handleContentBody_route message w1).
  { intros Hge. unfold handleContentBody. rewrite Hcm, Hh.
    fold message. apply N.ltb_ge in Hge. by rewrite Hge. }
  split; [exact Hbelow|]. intros Hge. specialize (Heq Hge).
  split; [exact Heq|]. rewrite Heq. split; [|split].
  - intros w' err. by apply (handleContentBody_route_slot message w1).
  - apply (handleContentBody_route_returns message w1).
  - intros ex w' err Hex Hne Hr.
    by rewrite (handleContentBody_route_pushes message w1 w' err ex Hex Hne Hr).
Qed.

End AssemblyClaims.

(** On channel 1 with an empty slot a header frame and a body frame are
    refused; in scenario S1, where the slot holds a message with its header,
    the body frame "abc" is not. *)
Lemma content_frame_out_of_order_witness :
  @handleContentHeader example_amqp frame_abc (example_world 1 "amqp-0-9-1")
  = (example_world 1 "amqp-0-9-1",
     Some (mkError FrameError "unexpected content header frame" 0 0 ErrorOnConnection))
  ∧ @handleContentBody example_amqp example_broker frame_abc (example_world 1 "amqp-0-9-1")
    = Some (example_world 1 "amqp-0-9-1",
            Some (mkError FrameError "unexpected content body frame" 0 0 ErrorOnConnection))
  ∧ ∃ w', @handleContentBody example_amqp example_broker frame_abc (publish_none true) = Some (w', None).
Proof.
  pose proof (@content_frame_out_of_order example_amqp example_broker frame_abc
                (example_world 1 "amqp-0-9-1")) as (Hh & _ & Hb & _).
  pose proof (@content_frame_out_of_order example_amqp example_broker frame_abc
                (publish_none true)) as (_ & _ & _ & _ & _ & _ & _ & Hacc).
  split; [apply Hh; reflexivity|]. split; [apply Hb; reflexivity|].
  destruct (@handleContentBody example_amqp example_broker frame_abc (publish_none true))
    as [[w' err]|] eqn:Hr; [|vm_compute in Hr; discriminate].
  destruct (Hacc (mkMessage "none" "" true (Some (mkContentHeader 3 None)) [] 0 example_meta)
              (mkContentHeader 3 None) eq_refl eq_refl w' err eq_refl) as [-> _].
  by exists w'.
Defined.

(** C2 as claimed fails: in scenario S1 the frame "abc" completes the
    message, which is returned in three frames.  No publish and no header
    follow, yet a second body frame "abc" is not refused: the handler
    returns success, appends the frame to the completed message and
    returns that message a second time, now with two body frames. *)
Lemma body_frame_after_completion_accepted :
  ∃ w1 w2 m2,
    @handleContentBody example_amqp example_broker frame_abc (publish_none true) = Some (w1, None)
    ∧ length (outgoing w1) = 3%nat
    ∧ @handleContentBody example_amqp example_broker frame_abc w1 = Some (w2, None)
    ∧ length (outgoing w2) = 7%nat
    ∧ currentMessage (channel w2) = Some m2
    ∧ Payload <$> Body m2 = [[x61; x62; x63]; [x61; x62; x63]].
Proof.
  eexists. eexists. eexists.
  split; [vm_compute; reflexivity|]. split; [reflexivity|].
  split; [vm_compute; reflexivity|]. split; [reflexivity|].
  split; reflexivity.
Qed.

(** The message of scenario S1 is complete after the frame "abc". *)
Lemma handleContentBody_completion_witness :
  @handleContentBody example_amqp example_broker frame_abc (publish_none true)
  = @handleContentBody_route example_amqp example_broker
      (Message_Append (mkMessage "none" "" true (Some (mkContentHeader 3 None)) [] 0 example_meta) frame_abc)
      (set_currentMessage (publish_none true)
         (Some (Message_Append
                  (mkMessage "none" "" true (Some (mkContentHeader 3 None)) [] 0 example_meta) frame_abc))).
Proof.
  pose proof (@handleContentBody_completion example_amqp example_broker frame_abc (publish_none true)
                (mkMessage "none" "" true (Some (mkContentHeader 3 None)) [] 0 example_meta)
                (mkContentHeader 3 None) eq_refl eq_refl) as [_ Hc].
  apply Hc. vm_compute. discriminate.
Defined.

(** C3 as claimed fails: in scenario S1 the frame "abc" completes the
    message (three bytes declared, three received), the handler returns
    success, and the current-message slot is not null afterwards. *)
Lemma handleContentBody_slot_not_cleared :
  ∃ w', @handleContentBody example_amqp example_broker frame_abc (publish_none true) = Some (w', None)
        ∧ currentMessage (channel w') ≠ None.
Proof.
  eexists. split; [vm_compute; reflexivity|]. discriminate.
Qed.

(** C1, the code at the failing input.  The message of scenario S1 with
    mandatory = false names the exchange "none", which the virtual host
    does not have; the frame "abc" completes it.  The handler then emits
    [basic.return] (NoConsumers, "No route"), the header and the body,
    although the message is not mandatory. *)
Theorem handleContentBody_unknown_exchange_not_mandatory :
  GetExchange (conn_vhost (publish_none false)) "none" = None
  ∧ ∃ w', @handleContentBody example_amqp example_broker frame_abc (publish_none false) = Some (w', None)
      ∧ outgoing w'
        = [mkFrame FrameMethod 1
             (@WriteMethod example_amqp (BasicReturn NoConsumers "No route" "none" "") "amqp-0-9-1")
             false false;
           mkFrame FrameHeader 1
             (@WriteContentHeader example_amqp (Some (mkContentHeader 3 None)) "amqp-0-9-1") false false;
           frame_abc].
Proof.
  split; [vm_compute; reflexivity|].
  eexists. split; [vm_compute; reflexivity|]. vm_compute. reflexivity.
Qed.

(** ** The unacked ledger *)

Section Ledger.
Context `{Amqp} `{Broker}.

Lemma set_heap_id (w : World) : set_heap w (heap w) = w.
Proof. by destruct w. Qed.

Lemma foldl_Dec (l : list nat) (c s : Z) (w : World) :
  foldl (λ w p, Dec p c s w) w l
  = set_heap w (foldl (λ h p, alter (AmqpQos_Dec c s) p h) (heap w) l).
Proof.
  revert w. induction l as [|p l IH]; intros w; simpl.
  - by rewrite set_heap_id.
  - by rewrite IH.
Qed.

(** [decQosAndConsumerNext] wakes the consumer if it is registered and
    changes the QoS heap; it touches nothing else. *)
Lemma decQosAndConsumerNext_eq (u : UnackedMessage) (w : World) :
  decQosAndConsumerNext u w = set_calls (set_heap w (released u w)) (calls w ++ wake u w).
Proof.
  unfold decQosAndConsumerNext, released, wake, released_size.
  destruct (consumers (channel w) !! cTag u) as [cmr|].
  - by rewrite foldl_Dec.
  - rewrite app_nil_r. by destruct w.
Qed.

Lemma ackMsg_channel (u : UnackedMessage) (t : N) (w : World) :
  channel (ackMsg u t w) = channel (set_ackStore w (delete t (ackStore (channel w))))
  ∧ conn_vhost (ackMsg u t w) = conn_vhost w
  ∧ conn_qos (ackMsg u t w) = conn_qos w.
Proof.
  unfold ackMsg. rewrite decQosAndConsumerNext_eq.
  destruct (GetQueue _ _); done.
Qed.

Lemma ackMsg_ackStore (u : UnackedMessage) (t : N) (w : World) :
  ackStore (channel (ackMsg u t w)) = delete t (ackStore (channel w)).
Proof. by destruct (ackMsg_channel u t w) as (-> & _). Qed.

(** What [ackMsg] does with an entry. *)
Lemma ackMsg_effect (u : UnackedMessage) (tag : N) (w : World) :
  ackStore (channel (ackMsg u tag w)) = delete tag (ackStore (channel w))
  ∧ conn_vhost (ackMsg u tag w) = conn_vhost w
  ∧ consumers (channel (ackMsg u tag w)) = consumers (channel w)
  ∧ (is_Some (GetQueue (conn_vhost w) (queue u)) →
     calls (ackMsg u tag w) = calls w ++ [QueueAckMsg (queue u) (msg u)] ++ wake u w
     ∧ Counter (srvMetrics (ackMsg u tag w)) Unacked = Counter (srvMetrics w) Unacked - 1
     ∧ Counter (srvMetrics (ackMsg u tag w)) Total = Counter (srvMetrics w) Total - 1
     ∧ Counter (srvMetrics (ackMsg u tag w)) Acknowledge = Counter (srvMetrics w) Acknowledge + 1
     ∧ Counter (srvMetrics (ackMsg u tag w)) Ready = Counter (srvMetrics w) Ready)
  ∧ (GetQueue (conn_vhost w) (queue u) = None →
     calls (ackMsg u tag w) = calls w ++ wake u w
     ∧ srvMetrics (ackMsg u tag w) = srvMetrics w).
Proof.
  unfold ackMsg. rewrite decQosAndConsumerNext_eq.
  change (conn_vhost (set_ackStore w (delete tag (ackStore (channel w))))) with (conn_vhost w).
  destruct (GetQueue (conn_vhost w) (queue u)) as [qu|]; simpl;
    (split; [done|]); (split; [done|]); (split; [done|]); split; try done; try (by intros [? ?]).
  intros _. rewrite <- app_assoc. split; [done|]. lia.
Qed.

Lemma rejectMsg_Some (u : UnackedMessage) (t : N) (requeue : bool) (w : World) :
  ∃ w', rejectMsg (Some u) t requeue w = Some w'
    ∧ channel w' = channel (set_ackStore w (delete t (ackStore (channel w))))
    ∧ conn_vhost w' = conn_vhost w
    ∧ conn_qos w' = conn_qos w.
Proof.
  unfold rejectMsg. eexists. split; [reflexivity|].
  rewrite decQosAndConsumerNext_eq.
  destruct (GetQueue _ _); destruct requeue; done.
Qed.

(** A loop that skips the entries outside a selection runs over the
    selection. *)
Lemma foldl_filter {A S : Type} (P : A → bool) (f : A → S → S) (l : list A) (s : S) :
  foldl (λ s x, if P x then f x s else s) s l = foldl (λ s x, f x s) s (filter (λ x, P x = true) l).
Proof.
  revert s. induction l as [|x l IH]; intros s; simpl; [done|].
  rewrite filter_cons. destruct (P x) eqn:HP.
  - rewrite decide_True by done. simpl. apply IH.
  - rewrite decide_False by (by intros ?). apply IH.
Qed.

Lemma for_each_filter {A S : Type} (P : A → bool) (f : A → S → option S) (l : list A) (s : S) :
  for_each (λ x s, if P x then f x s else Some s) l s = for_each f (filter (λ x, P x = true) l) s.
Proof.
  revert s. induction l as [|x l IH]; intros s; simpl; [done|].
  rewrite filter_cons. destruct (P x) eqn:HP.
  - rewrite decide_True by done. simpl. destruct (f x s); [apply IH|done].
  - rewrite decide_False by (by intros ?). apply IH.
Qed.

(** The [range] of [handleAck]: each key of the order still has the entry
    it had when the loop began at the time it is reached, since the body
    deletes the key it is at and no other. *)
Lemma handleAck_range (deliveryTag : N) (store0 : gmap N UnackedMessage) (order : list N) (w : World) :
  NoDup order →
  (∀ t, t ∈ order → ackStore (channel w) !! t = store0 !! t) →
  range_map order (λ w, ackStore (channel w))
    (λ tag uMsg w, if selected deliveryTag tag then ackMsg uMsg tag w else w) w
  = foldl (λ w tag, match store0 !! tag with Some uMsg => ackMsg uMsg tag w | None => w end) w
      (filter (λ tag, selected deliveryTag tag = true) order).
Proof.
  intros Hnd Hst.
  rewrite <- (foldl_filter (selected deliveryTag)
                (λ tag w, match store0 !! tag with Some uMsg => ackMsg uMsg tag w | None => w end)).
  unfold range_map. revert w Hst.
  induction order as [|t order IH]; intros w Hst; simpl; [done|].
  apply NoDup_cons in Hnd as [Hnotin Hnd].
  rewrite (Hst t) by left.
  assert (Hrest : ∀ w1, ackStore (channel w1) = ackStore (channel w)
                        ∨ ackStore (channel w1) = delete t (ackStore (channel w)) →
                        ∀ t', t' ∈ order → ackStore (channel w1) !! t' = store0 !! t').
  { intros w1 [->| ->] t' Hin.
    - apply Hst. by right.
    - rewrite lookup_delete_ne by (intros ->; done). apply Hst. by right. }
  destruct (store0 !! t) as [u|]; [destruct (selected deliveryTag t)|].
  - apply (IH Hnd). apply Hrest. right. apply ackMsg_ackStore.
  - apply (IH Hnd). apply Hrest. by left.
  - destruct (selected deliveryTag t); apply (IH Hnd), Hrest; by left.
Qed.


Lemma range_order_NoDup {K V : Type} `{Countable K} (order : list K) (m : gmap K V) :
  range_order order m → NoDup order.
Proof. intros Hp. unfold range_order in Hp. rewrite Hp. apply NoDup_elements. Qed.

Lemma range_order_elem {K V : Type} `{Countable K} (order : list K) (m : gmap K V) (k : K) :
  range_order order m → k ∈ order ↔ is_Some (m !! k).
Proof.
  intros Hp. unfold range_order in Hp. rewrite Hp, elem_of_elements. apply elem_of_dom.
Qed.










End Ledger.

Section LedgerReject.
Context `{Amqp} `{Broker}.

Global Instance tag_ge_trans : Transitive tag_ge.
Proof. intros x y z. unfold tag_ge. lia. Qed.

Global Instance tag_ge_total : base.Total tag_ge.
Proof. intros x y. unfold tag_ge. lia. Qed.

(** The loop that collects the tags of the ledger yields them in the order
    of the [range]. *)
Lemma collect_range (store : gmap N UnackedMessage) (order acc : list N) :
  (∀ t, t ∈ order → is_Some (store !! t)) →
  range_map order (λ _ : list N, store) (λ dTag _ deliveryTags, deliveryTags ++ [dTag]) acc
  = acc ++ order.
Proof.
  unfold range_map. revert acc. induction order as [|t order IH]; intros acc Hin; simpl.
  - by rewrite app_nil_r.
  - destruct (Hin t) as [u ->]; [left|].
    rewrite IH by (intros t' Ht'; apply Hin; by right).
    by rewrite <- app_assoc.
Qed.

Lemma StronglySorted_strict (l : list N) :
  StronglySorted tag_ge l → NoDup l → StronglySorted (λ x y, (y < x)%N) l.
Proof.
  induction 1 as [|x l Hs IH Hall]; intros Hnd; constructor.
  - apply IH. by apply NoDup_cons in Hnd as [_ ?].
  - apply NoDup_cons in Hnd as [Hnotin _].
    rewrite Forall_forall in Hall |- *. intros y Hy.
    specialize (Hall y Hy). unfold tag_ge in Hall.
    assert (y ≠ x) by (intros ->; done). lia.
Qed.

Lemma StronglySorted_filter {A : Type} (R : relation A) (P : A → Prop) `{!∀ x, Decision (P x)}
    (l : list A) :
  StronglySorted R l → StronglySorted R (filter P l).
Proof.
  induction 1 as [|x l Hs IH Hall]; [constructor|].
  rewrite filter_cons. case_decide; [|done].
  constructor; [done|].
  rewrite Forall_forall in Hall |- *. intros y Hy.
  apply Hall. by apply list_elem_of_filter in Hy as [_ ?].
Qed.

(** The tags in descending order: the same tags, each strictly below the
    ones before it. *)
Lemma sort_Slice_desc_spec (order : list N) :
  NoDup order →
  sort_Slice_desc order ≡ₚ order
  ∧ NoDup (sort_Slice_desc order)
  ∧ StronglySorted (λ x y, (y < x)%N) (sort_Slice_desc order).
Proof.
  intros Hnd. unfold sort_Slice_desc.
  assert (Hp := merge_sort_Permutation tag_ge order).
  assert (Hnd' : NoDup (merge_sort tag_ge order)) by (by rewrite Hp).
  split; [done|]. split; [done|].
  apply StronglySorted_strict; [|done]. apply StronglySorted_merge_sort; apply _.
Qed.

(** In the loop of [handleReject] each tag still has the entry it had
    when the loop began at the time it is reached. *)
Lemma reject_loop (store0 : gmap N UnackedMessage) (tags : list N) (requeue : bool) (w : World) :
  NoDup tags →
  (∀ t, t ∈ tags → ackStore (channel w) !! t = store0 !! t) →
  for_each (λ tag w, rejectMsg (ackStore (channel w) !! tag) tag requeue w) tags w
  = for_each (λ tag w, rejectMsg (store0 !! tag) tag requeue w) tags w.
Proof.
  revert w. induction tags as [|t tags IH]; intros w Hnd Hst; simpl; [done|].
  apply NoDup_cons in Hnd as [Hnotin Hnd].
  rewrite (Hst t) by left.
  destruct (store0 !! t) as [u|]; [|done].
  destruct (rejectMsg_Some u t requeue w) as (w1 & -> & Hch & _).
  apply (IH _ Hnd). intros t' Hin. rewrite Hch. simpl.
  rewrite lookup_delete_ne by (intros ->; done). apply Hst. by right.
Qed.

(** The loop returns when every tag has an entry; the entries of the tags
    are gone from the ledger afterwards, and the registry, the channel id
    and the collaborators are as before. *)
Lemma reject_loop_returns (store0 : gmap N UnackedMessage) (tags : list N) (requeue : bool) (w : World) :
  (∀ t, t ∈ tags → is_Some (store0 !! t)) →
  ∃ w', for_each (λ tag w, rejectMsg (store0 !! tag) tag requeue w) tags w = Some w'
    ∧ (∀ k, ackStore (channel w') !! k
            = if bool_decide (k ∈ tags) then None else ackStore (channel w) !! k)
    ∧ consumers (channel w') = consumers (channel w)
    ∧ id (channel w') = id (channel w)
    ∧ conn_vhost w' = conn_vhost w.
Proof.
  revert w. induction tags as [|t tags IH]; intros w Hin; cbn [for_each].
  - eexists. split; [reflexivity|]. split; [|done].
    intros k. rewrite bool_decide_eq_false_2; [done|]. apply not_elem_of_nil.
  - destruct (Hin t) as [u Hu]; [left|]. rewrite Hu.
    destruct (rejectMsg_Some u t requeue w) as (w1 & -> & Hch & Hvh & _).
    destruct (IH w1) as (w' & -> & Hst & Hc & Hid & Hv); [intros t' Ht'; apply Hin; by right|].
    eexists. split; [reflexivity|].
    rewrite Hc, Hid, Hv, Hvh, Hch. split; [|done].
    intros k. rewrite Hst, Hch. simpl.
    destruct (decide (k = t)) as [->|Hne].
    + rewrite lookup_delete_eq. rewrite (bool_decide_eq_true_2 (t ∈ t :: tags)) by left.
      by case_bool_decide.
    + rewrite lookup_delete_ne by done.
      apply (f_equal (λ b : bool, if b then None else ackStore (channel w) !! k)).
      apply bool_decide_ext. rewrite elem_of_cons. split; [by right|by intros [?|?]].
Qed.

(** What [rejectMsg] does with an entry. *)
Lemma rejectMsg_effect (u : UnackedMessage) (tag : N) (requeue : bool) (w : World) :
  ∃ w', rejectMsg (Some u) tag requeue w = Some w'
    ∧ ackStore (channel w') = delete tag (ackStore (channel w))
    ∧ heap w' = released u w
    ∧ (is_Some (GetQueue (conn_vhost w) (queue u)) →
       calls w'
       = calls w
         ++ [if requeue then QueueRequeue (queue u) (msg u) else QueueAckMsg (queue u) (msg u)]
         ++ wake u w
       ∧ Counter (srvMetrics w') Unacked = Counter (srvMetrics w) Unacked - 1
       ∧ Counter (srvMetrics w') Ready = Counter (srvMetrics w) Ready + (if requeue then 1 else 0))
    ∧ (GetQueue (conn_vhost w) (queue u) = None →
       calls w' = calls w ++ wake u w ∧ srvMetrics w' = srvMetrics w).
Proof.
  unfold rejectMsg. eexists. split; [reflexivity|].
  rewrite decQosAndConsumerNext_eq.
  change (conn_vhost (set_ackStore w (delete tag (ackStore (channel w))))) with (conn_vhost w).
  destruct (GetQueue (conn_vhost w) (queue u)) as [qu|]; destruct requeue; simpl;
    (split; [done|]); (split; [done|]); split; try done; try (by intros [? ?]).
  - intros _. rewrite <- app_assoc. split; [done|]. lia.
  - intros _. rewrite <- app_assoc. split; [done|]. lia.
Qed.

Lemma foldl_alter_lookup {A : Type} (f : A → A) (l : list nat) (h : list A) (p : nat) :
  NoDup l →
  foldl (λ h p, alter f p h) h l !! p
  = if bool_decide (p ∈ l) then f <$> h !! p else h !! p.
Proof.
  revert h. induction l as [|q l IH]; intros h Hnd; cbn [foldl].
  - rewrite bool_decide_eq_false_2; [done|apply not_elem_of_nil].
  - apply NoDup_cons in Hnd as [Hnotin Hnd]. rewrite (IH _ Hnd).
    destruct (decide (p = q)) as [->|Hne].
    + rewrite (bool_decide_eq_false_2 (q ∈ l)) by done.
      rewrite (bool_decide_eq_true_2 (q ∈ q :: l)) by left.
      apply list_lookup_alter_eq.
    + rewrite list_lookup_alter_ne by done.
      apply (f_equal (λ b : bool, if b then f <$> h !! p else h !! p)).
      apply bool_decide_ext. rewrite elem_of_cons. split; [by right|by intros [?|?]].
Qed.

(** [handleReject] with multiple set. *)
Lemma handleReject_multiple (order : list N) (dt : N) (requeue : bool) (method : Method) (w : World) :
  range_order order (ackStore (channel w)) →
  StronglySorted (λ x y, (y < x)%N) (filter (λ tag, selected dt tag = true) (sort_Slice_desc order))
  ∧ (∀ tag, tag ∈ filter (λ tag, selected dt tag = true) (sort_Slice_desc order)
            ↔ is_Some (ackStore (channel w) !! tag) ∧ selected dt tag = true)
  ∧ ∃ w', handleReject order dt true requeue method w = Some (w', None)
      ∧ for_each (λ tag w, rejectMsg (ackStore (channel w) !! tag) tag requeue w)
          (filter (λ tag, selected dt tag = true) (sort_Slice_desc order)) w = Some w'
      ∧ (∀ k, ackStore (channel w') !! k
              = if selected dt k then None else ackStore (channel w) !! k)
      ∧ consumers (channel w') = consumers (channel w)
      ∧ id (channel w') = id (channel w).
Proof.
  intros Hord.
  pose proof (range_order_NoDup _ _ Hord) as Hnd.
  destruct (sort_Slice_desc_spec order Hnd) as (Hperm & Hnd' & Hsorted).
  assert (Hmem : ∀ tag, tag ∈ filter (λ tag, selected dt tag = true) (sort_Slice_desc order)
                        ↔ is_Some (ackStore (channel w) !! tag) ∧ selected dt tag = true).
  { intros tag. rewrite list_elem_of_filter, Hperm, (range_order_elem _ _ _ Hord). tauto. }
  split; [by apply StronglySorted_filter|]. split; [exact Hmem|].
  destruct (reject_loop_returns (ackStore (channel w))
              (filter (λ tag, selected dt tag = true) (sort_Slice_desc order)) requeue w)
    as (w' & Hloop & Hst & Hc & Hid & _); [intros t Ht; by apply Hmem in Ht as [? _]|].
  assert (Hloop' : for_each (λ tag w0, rejectMsg (ackStore (channel w0) !! tag) tag requeue w0)
                     (filter (λ tag, selected dt tag = true) (sort_Slice_desc order)) w = Some w').
  { rewrite (reject_loop (ackStore (channel w))); [done| |done]. by apply NoDup_filter. }
  exists w'. split; [|split; [|split; [|done]]].
  - unfold handleReject.
    rewrite collect_range by (intros t Ht; by apply (range_order_elem _ _ _ Hord)).
    rewrite app_nil_l.
    pose proof (for_each_filter (selected dt)
                  (λ tag w, rejectMsg (ackStore (channel w) !! tag) tag requeue w)
                  (sort_Slice_desc order) w) as Hf.
    unfold selected in Hf at 1. rewrite Hf. clear Hf. by rewrite Hloop'.
  - exact Hloop'.
  - intros k. rewrite Hst. destruct (selected dt k) eqn:Hsel.
    + case_bool_decide as Hcd; [done|].
      destruct (ackStore (channel w) !! k) eqn:Hk; [|done].
      exfalso. apply Hcd, Hmem. eauto.
    + rewrite bool_decide_eq_false_2; [done|].
      intros Hin. apply Hmem in Hin as [_ Hin]. congruence.
Qed.

(** The calls of the reject loop: the earlier ones stay, and each entry
    whose queue is in the virtual host has had its call. *)
Lemma reject_loop_calls (store0 : gmap N UnackedMessage) (tags : list N) (requeue : bool) (w w' : World) :
  for_each (λ tag w, rejectMsg (store0 !! tag) tag requeue w) tags w = Some w' →
  (∀ c, c ∈ calls w → c ∈ calls w')
  ∧ (∀ t u, t ∈ tags → store0 !! t = Some u →
            is_Some (GetQueue (conn_vhost w) (queue u)) →
            (if requeue then QueueRequeue (queue u) (msg u) else QueueAckMsg (queue u) (msg u))
            ∈ calls w').
Proof.
  revert w. induction tags as [|t tags IH]; intros w; cbn [for_each].
  - intros [= <-]. split; [done|]. intros t u Hin. by apply elem_of_nil in Hin.
  - destruct (store0 !! t) as [u|] eqn:Hu; [|done].
    destruct (rejectMsg_effect u t requeue w) as (w1 & Hr & _ & _ & Hq & Hnq).
    destruct (rejectMsg_Some u t requeue w) as (w1' & Hr' & _ & Hvh & _).
    rewrite Hr in Hr'. injection Hr' as <-. rewrite Hr.
    intros Hl. destruct (IH _ Hl) as [Hmono Hcalls].
    assert (Hstep : ∀ c, c ∈ calls w → c ∈ calls w1).
    { intros c Hc. destruct (GetQueue (conn_vhost w) (queue u)) eqn:Hg.
      - destruct Hq as (-> & _); [eauto|]. apply elem_of_app. by left.
      - destruct (Hnq eq_refl) as (-> & _). apply elem_of_app. by left. }
    split; [intros c Hc; by apply Hmono, Hstep|].
    intros t' u' Hin Hu' Hqu'. apply elem_of_cons in Hin as [->|Hin].
    + rewrite Hu in Hu'. injection Hu' as <-.
      apply Hmono. destruct (Hq Hqu') as (-> & _).
      apply elem_of_app. right. apply elem_of_app. left. apply list_elem_of_singleton. done.
    + apply (Hcalls t' u' Hin Hu'). by rewrite Hvh.
Qed.

(** The loop of [close] over the registry: every consumer is stopped and
    deleted, provided each is registered under its own tag. *)
Lemma close_range (order : list string) (w : World) :
  NoDup order →
  (∀ k c, consumers (channel w) !! k = Some c → Tag c = k) →
  let w' :=
    range_map order (λ w, consumers (channel w))
      (λ _ cmr w,
         let w := call (ConsumerStop cmr) w in
         set_consumers w (delete (Tag cmr) (consumers (channel w)))) w in
  (∀ k, consumers (channel w') !! k
        = if bool_decide (k ∈ order) then None else consumers (channel w) !! k)
  ∧ ackStore (channel w') = ackStore (channel w)
  ∧ id (channel w') = id (channel w)
  ∧ conn_vhost w' = conn_vhost w
  ∧ (∀ c, c ∈ calls w → c ∈ calls w')
  ∧ (∀ k c, k ∈ order → consumers (channel w) !! k = Some c → ConsumerStop c ∈ calls w').
Proof.
  unfold range_map. revert w.
  induction order as [|k0 order IH]; intros w Hnd Htag; cbv zeta; cbn [foldl].
  - split; [|split; [done|split; [done|split; [done|split; [done|]]]]].
    + intros k. rewrite bool_decide_eq_false_2; [done|apply not_elem_of_nil].
    + intros k c Hin. by apply elem_of_nil in Hin.
  - apply NoDup_cons in Hnd as [Hnotin Hnd].
    assert (Hcons : ∀ k, bool_decide (k ∈ k0 :: order) = bool_decide (k = k0 ∨ k ∈ order)).
    { intros k. apply bool_decide_ext. apply elem_of_cons. }
    destruct (consumers (channel w) !! k0) as [cmr|] eqn:Hk0.
    + pose proof (Htag _ _ Hk0) as Ht.
      set (w1 := set_consumers (call (ConsumerStop cmr) w)
                   (delete (Tag cmr) (consumers (channel (call (ConsumerStop cmr) w))))).
      destruct (IH w1 Hnd) as (Hl & -> & -> & -> & Hmono & Hstop).
      { intros k c. unfold w1. simpl. rewrite Ht. intros Hd.
        apply lookup_delete_Some in Hd as [_ Hd]. by apply Htag. }
      split; [|split; [done|split; [done|split; [done|split]]]].
      * intros k. rewrite Hl, Hcons. unfold w1. simpl. rewrite Ht.
        destruct (decide (k = k0)) as [->|Hne].
        -- rewrite lookup_delete_eq. rewrite (bool_decide_eq_true_2 (k0 = k0 ∨ _)) by (by left).
           by case_bool_decide.
        -- rewrite lookup_delete_ne by done.
           apply (f_equal (λ b : bool, if b then None else consumers (channel w) !! k)).
           apply bool_decide_ext. split; [by right|by intros [?|?]].
      * intros c Hc. apply Hmono. unfold w1. simpl. apply elem_of_app. by left.
      * intros k c Hin Hk. apply elem_of_cons in Hin as [->|Hin].
        -- rewrite Hk0 in Hk. injection Hk as <-. apply Hmono. unfold w1. simpl.
           apply elem_of_app. right. by apply list_elem_of_singleton.
        -- apply (Hstop k c Hin). unfold w1. simpl. rewrite Ht.
           rewrite lookup_delete_ne by (intros ->; done). exact Hk.
    + destruct (IH w Hnd Htag) as (Hl & -> & -> & -> & Hmono & Hstop).
      split; [|split; [done|split; [done|split; [done|split; [done|]]]]].
      * intros k. rewrite Hl, Hcons.
        destruct (decide (k = k0)) as [->|Hne].
        -- rewrite (bool_decide_eq_true_2 (k0 = k0 ∨ _)) by (by left).
           rewrite Hk0. by case_bool_decide.
        -- apply (f_equal (λ b : bool, if b then None else consumers (channel w) !! k)).
           apply bool_decide_ext. split; [by right|by intros [?|?]].
      * intros k c Hin Hk. apply elem_of_cons in Hin as [->|Hin]; [congruence|].
        by apply (Hstop k c).
Qed.


End LedgerReject.

Section LedgerClaims.
Context `{Amqp} `{Broker}.


(** C5, as the code has it.  [handleReject] with multiple set processes
    the selected entries of the ledger in strictly descending order of
    their tags, each with the entry the ledger held for it, and they are
    gone from the ledger afterwards.  [rejectMsg] removes the entry; if the
    queue of the entry is still in the virtual host it calls [Requeue] and
    increments Ready when requeue is set, calls [AckMsg] otherwise, and
    decrements Unacked in both cases; if the queue is gone it makes no call
    to a queue and leaves the counters as they are.  With multiple unset a
    tag that is not in the ledger is answered with the channel-level
    PreconditionFailed. *)
Theorem handleReject_descending (order : list N) (dt : N) (requeue : bool) (method : Method) (w : World) :
  let store0 := ackStore (channel w) in
  let processed := filter (λ tag, selected dt tag = true) (sort_Slice_desc order) in
  (range_order order store0 →
     StronglySorted (λ x y, (y < x)%N) processed
     ∧ (∀ tag, tag ∈ processed ↔ is_Some (store0 !! tag) ∧ selected dt tag = true)
     ∧ ∃ w', handleReject order dt true requeue method w = Some (w', None)
         ∧ for_each (λ tag w, rejectMsg (store0 !! tag) tag requeue w) processed w = Some w'
         ∧ ∀ k, ackStore (channel w') !! k = if selected dt k then None else store0 !! k)
  ∧ (∀ u tag w0,
       ∃ w', rejectMsg (Some u) tag requeue w0 = Some w'
         ∧ ackStore (channel w') = delete tag (ackStore (channel w0))
         ∧ (is_Some (GetQueue (conn_vhost w0) (queue u)) →
            calls w'
            = calls w0
              ++ [if requeue then QueueRequeue (queue u) (msg u) else QueueAckMsg (queue u) (msg u)]
              ++ wake u w0
            ∧ Counter (srvMetrics w') Unacked = Counter (srvMetrics w0) Unacked - 1
            ∧ Counter (srvMetrics w') Ready
              = Counter (srvMetrics w0) Ready + (if requeue then 1 else 0))
         ∧ (GetQueue (conn_vhost w0) (queue u) = None →
            calls w' = calls w0 ++ wake u w0 ∧ srvMetrics w' = srvMetrics w0))
  ∧ (store0 !! dt = None →
     handleReject order dt false requeue method w
     = Some (w, Some (mkError PreconditionFailed ("Delivery tag [" +:+ pretty dt +:+ "] not found")
                        (ClassIdentifier method) (MethodIdentifier method) ErrorOnChannel)))
  ∧ (∀ u, store0 !! dt = Some u →
     handleReject order dt false requeue method w
     = (λ w', (w', None)) <$> rejectMsg (Some u) dt requeue w).
Proof.
  intros store0 processed. subst store0 processed.
  split; [|split; [|split]].
  - intros Hord.
    destruct (handleReject_multiple order dt requeue method w Hord)
      as (Hsorted & Hmem & w' & Hr & Hloop & Hst & _).
    split; [exact Hsorted|]. split; [exact Hmem|].
    exists w'. split; [exact Hr|]. split; [|exact Hst].
    rewrite <- Hloop. symmetry. apply reject_loop; [|done].
    apply NoDup_filter. by apply sort_Slice_desc_spec, (range_order_NoDup _ _ Hord).
  - intros u tag w0.
    destruct (rejectMsg_effect u tag requeue w0) as (w' & Hr & Hst & _ & Hq & Hnq).
    by exists w'.
  - intros Hn. unfold handleReject. by rewrite Hn.
  - intros u Hs. unfold handleReject. rewrite Hs.
    by destruct (rejectMsg (Some u) dt requeue w).
Qed.

(** C6, as the code has it.  Acking or rejecting the unacked message [u]
    ends with the QoS release, which decrements the usage (count, bytes)
    by exactly (1, body size of the message converted to a 32-bit unsigned
    integer), which is the body size when that is below 2^32: on each
    accountant of the consumer's QoS list, once per occurrence, when the
    consumer tag is registered on the channel, and then [Consume] is called
    on the consumer; on the channel's and on the connection's accountant
    otherwise, without any call. *)
Theorem qos_release_on_ack_and_reject (u : UnackedMessage) (tag : N) (requeue : bool) (w : World) :
  (heap (ackMsg u tag w) = released u w
   ∧ ∃ w', rejectMsg (Some u) tag requeue w = Some w' ∧ heap w' = released u w)
  ∧ heap (decQosAndConsumerNext u w) = released u w
  ∧ (∀ cmr, consumers (channel w) !! cTag u = Some cmr →
       calls (decQosAndConsumerNext u w) = calls w ++ [ConsumerConsume cmr]
       ∧ released u w = foldl (λ h p, alter (AmqpQos_Dec 1 (released_size u)) p h) (heap w) (Qos cmr)
       ∧ (NoDup (Qos cmr) →
          ∀ p, released u w !! p
               = if bool_decide (p ∈ Qos cmr)
                 then AmqpQos_Dec 1 (released_size u) <$> heap w !! p
                 else heap w !! p))
  ∧ (consumers (channel w) !! cTag u = None →
       calls (decQosAndConsumerNext u w) = calls w
       ∧ (qos (channel w) ≠ conn_qos w →
          ∀ p, released u w !! p
               = if bool_decide (p = qos (channel w) ∨ p = conn_qos w)
                 then AmqpQos_Dec 1 (released_size u) <$> heap w !! p
                 else heap w !! p))
  ∧ (∀ q, currentCount (AmqpQos_Dec 1 (released_size u) q) = currentCount q - 1
          ∧ currentSize (AmqpQos_Dec 1 (released_size u) q)
            = currentSize q - Z.of_N (BodySize (msg u) mod 2 ^ 32)
          ∧ prefetchCount (AmqpQos_Dec 1 (released_size u) q) = prefetchCount q
          ∧ prefetchSize (AmqpQos_Dec 1 (released_size u) q) = prefetchSize q)
  ∧ ((BodySize (msg u) < 2 ^ 32)%N → released_size u = Z.of_N (BodySize (msg u))).
Proof.
  split; [|split; [|split; [|split; [|split]]]].
  - split.
    + unfold ackMsg. rewrite decQosAndConsumerNext_eq.
      destruct (GetQueue _ _); reflexivity.
    + destruct (rejectMsg_effect u tag requeue w) as (w' & Hr & _ & Hh & _). eauto.
  - by rewrite decQosAndConsumerNext_eq.
  - intros cmr Hc. rewrite decQosAndConsumerNext_eq. unfold wake, released. rewrite Hc.
    split; [done|]. split; [done|]. intros Hnd p. by apply foldl_alter_lookup.
  - intros Hc. rewrite decQosAndConsumerNext_eq. unfold wake, released. rewrite Hc.
    split; [simpl; by rewrite app_nil_r|]. intros Hne p.
    rewrite !list_lookup_alter.
    destruct (decide (conn_qos w = p)) as [<-|Hn1].
    + rewrite decide_False by done. rewrite bool_decide_eq_true_2; [done|by right].
    + destruct (decide (qos (channel w) = p)) as [<-|Hn2].
      * rewrite bool_decide_eq_true_2; [done|by left].
      * rewrite bool_decide_eq_false_2; [done|]. intros [->| ->]; done.
  - intros q. done.
  - intros Hlt. unfold released_size, uint32, uint32_mod. by rewrite N.mod_small.
Qed.

End LedgerClaims.


(** Scenario S3 rejected: the tags 1 to 5 are unacked and the [range]
    yields them in the order 4, 1, 5, 3, 2.  A multiple reject up to 4 with
    requeue processes the tags 4, 3, 2, 1 in this order: [Requeue] is
    called for the message of 4 first and for that of 1 last, each call
    followed by the wake-up of the consumer; the tag 5 stays in the ledger,
    Unacked has gone down and Ready up by four. *)
Lemma handleReject_descending_witness :
  filter (λ tag, selected 4 tag = true) (sort_Slice_desc [4; 1; 5; 3; 2]%N) = [4; 3; 2; 1]%N
  ∧ ∃ w', @handleReject example_amqp [4; 1; 5; 3; 2]%N 4 true true (BasicNack 4 true true) five_deliveries
          = Some (w', None)
      ∧ (∀ k, ackStore (channel w') !! k
              = if selected 4 k then None else ackStore (channel five_deliveries) !! k)
      ∧ calls w'
        = [QueueRequeue "q1" (example_message 14);
           ConsumerConsume (mkConsumer "q1" "c1" false [0%nat; 2%nat]);
           QueueRequeue "q1" (example_message 13);
           ConsumerConsume (mkConsumer "q1" "c1" false [0%nat; 2%nat]);
           QueueRequeue "q1" (example_message 12);
           ConsumerConsume (mkConsumer "q1" "c1" false [0%nat; 2%nat]);
           QueueRequeue "q1" (example_message 11);
           ConsumerConsume (mkConsumer "q1" "c1" false [0%nat; 2%nat])]
      ∧ Counter (srvMetrics w') Unacked = Counter (srvMetrics five_deliveries) Unacked - 4
      ∧ Counter (srvMetrics w') Ready = Counter (srvMetrics five_deliveries) Ready + 4.
Proof.
  split; [vm_compute; reflexivity|].
  destruct (@handleReject_descending example_amqp [4; 1; 5; 3; 2]%N 4 true (BasicNack 4 true true)
              five_deliveries) as (Hm & _).
  destruct Hm as (_ & _ & w' & Hr & Hloop & Hst);
    [unfold range_order; vm_compute (elements _); solve_Permutation|].
  exists w'. split; [exact Hr|]. split; [exact Hst|].
  vm_compute in Hloop. injection Hloop as <-.
  split; [reflexivity|]. split; reflexivity.
Defined.

(** C5 as claimed fails: the queue "gone" of the unacked delivery 7 is no
    longer in the virtual host; rejecting with requeue removes the entry
    but calls no [Requeue] and leaves Ready and Unacked as they were. *)
Lemma handleReject_queue_gone :
  GetQueue (conn_vhost (unacked_world 7 12 "gone")) "gone" = None
  ∧ ∃ w', @handleReject example_amqp [7%N] 7 true true (BasicNack 7 true true) (unacked_world 7 12 "gone")
          = Some (w', None)
      ∧ ackStore (channel w') = ∅
      ∧ calls w' = []
      ∧ Counter (srvMetrics w') Unacked = Counter (srvMetrics (unacked_world 7 12 "gone")) Unacked
      ∧ Counter (srvMetrics w') Ready = Counter (srvMetrics (unacked_world 7 12 "gone")) Ready.
Proof.
  split; [vm_compute; reflexivity|].
  eexists. split; [vm_compute; reflexivity|]. repeat split; vm_compute; reflexivity.
Qed.

(** A message of 12 bytes, no consumer registered: the channel's
    accountant (address 0) and the connection's (address 2) are released. *)
Lemma qos_release_on_ack_and_reject_witness :
  released (mkUnackedMessage "c1" (example_message 12) "q1") (unacked_world 7 12 "q1") !! 0%nat
  = Some (mkQos 10 0 2 28)
  ∧ released (mkUnackedMessage "c1" (example_message 12) "q1") (unacked_world 7 12 "q1") !! 1%nat
    = Some (mkQos 5 0 0 0)
  ∧ released (mkUnackedMessage "c1" (example_message 12) "q1") (unacked_world 7 12 "q1") !! 2%nat
    = Some (mkQos 0 0 2 28).
Proof.
  destruct (qos_release_on_ack_and_reject (mkUnackedMessage "c1" (example_message 12) "q1") 7 true
              (unacked_world 7 12 "q1")) as (_ & _ & _ & Hn & _ & _).
  destruct Hn as [_ Hn]; [vm_compute; reflexivity|].
  assert (Hne : qos (channel (unacked_world 7 12 "q1")) ≠ conn_qos (unacked_world 7 12 "q1"))
    by (vm_compute; discriminate).
  rewrite !(Hn Hne). repeat split; reflexivity.
Defined.

(** C6 as claimed fails: for a message of 2^32 bytes the release takes
    one from the count of the channel's accountant and nothing from its
    bytes. *)
Lemma qos_release_truncates :
  BodySize (msg (mkUnackedMessage "c1" (example_message 4294967296) "q1")) = 4294967296%N
  ∧ ∃ q q',
      heap (unacked_world 7 4294967296 "q1") !! 0%nat = Some q
      ∧ heap (ackMsg (mkUnackedMessage "c1" (example_message 4294967296) "q1") 7
                (unacked_world 7 4294967296 "q1")) !! 0%nat = Some q'
      ∧ currentCount q' = currentCount q - 1
      ∧ currentSize q' = currentSize q
      ∧ currentSize q'
        ≠ currentSize q
          - Z.of_N (BodySize (msg (mkUnackedMessage "c1" (example_message 4294967296) "q1"))).
Proof.
  split; [reflexivity|].
  eexists _, _. split; [vm_compute; reflexivity|]. split; [vm_compute; reflexivity|].
  split; [reflexivity|]. split; [reflexivity|]. vm_compute. discriminate.
Qed.

(** ** The consumer registry and QoS scopes *)

Section Registry.
Context `{Amqp} `{Broker}.

Lemma Update_lookup (p0 : nat) (c s : Z) (w : World) (p : nat) :
  heap (Update p0 c s w) !! p
  = if bool_decide (p = p0) then AmqpQos_Update c s <$> heap w !! p else heap w !! p.
Proof.
  unfold Update. simpl. rewrite list_lookup_alter.
  destruct (decide (p0 = p)) as [->|Hne].
  - by rewrite bool_decide_eq_true_2.
  - by rewrite bool_decide_eq_false_2.
Qed.

(** [addConsumer] once the queue is found and active. *)
Lemma addConsumer_found (queue consumerTag : string) (noAck exclusive : bool) (w : World) (qu : Queue) :
  GetQueue (conn_vhost w) queue = Some qu →
  IsActive qu = true →
  addConsumer queue consumerTag noAck exclusive w
  = let method := BasicConsume queue consumerTag noAck exclusive in
    let cmr := NewConsumer queue consumerTag noAck (new_consumer_qos w) in
    match consumers (channel w) !! consumerTag with
    | Some _ =>
        (with_consumer_qos w,
         inr (mkError NotAllowed ("Consumer with tag '" +:+ consumerTag +:+ "' already exists")
                (ClassIdentifier method) (MethodIdentifier method) ErrorOnChannel))
    | None =>
        match Queue_AddConsumer qu cmr exclusive with
        | Some quErr =>
            (call (QueueAddConsumer (GetName qu) cmr exclusive) (with_consumer_qos w),
             inr (mkError AccessRefused quErr (ClassIdentifier method) (MethodIdentifier method)
                    ErrorOnChannel))
        | None =>
            (set_consumers (call (QueueAddConsumer (GetName qu) cmr exclusive) (with_consumer_qos w))
               (<[consumerTag := cmr]> (consumers (channel w))),
             inl cmr)
        end
    end.
Proof.
  intros Hq Ha. unfold addConsumer, getQueueWithError, new_consumer_qos, with_consumer_qos.
  rewrite Hq, Ha. simpl.
  case_bool_decide; simpl;
    destruct (consumers (channel w) !! consumerTag); try reflexivity;
    destruct (Queue_AddConsumer _ _ _); reflexivity.
Qed.

Lemma addConsumer_not_found (queue consumerTag : string) (noAck exclusive : bool) (w : World) :
  GetQueue (conn_vhost w) queue = None
  ∨ (∃ qu, GetQueue (conn_vhost w) queue = Some qu ∧ IsActive qu = false) →
  addConsumer queue consumerTag noAck exclusive w
  = (w, inr (mkError NotFound ("queue '" +:+ queue +:+ "' not found")
               (ClassIdentifier (BasicConsume queue consumerTag noAck exclusive))
               (MethodIdentifier (BasicConsume queue consumerTag noAck exclusive))
               ErrorOnChannel)).
Proof.
  unfold addConsumer, getQueueWithError.
  intros [->|(qu & -> & ->)]; reflexivity.
Qed.

(** A successful [addConsumer] found its queue, active. *)
Lemma addConsumer_success (queue consumerTag : string) (noAck exclusive : bool) (w w' : World) (cmr : Consumer) :
  addConsumer queue consumerTag noAck exclusive w = (w', inl cmr) →
  cmr = NewConsumer queue consumerTag noAck (new_consumer_qos w)
  ∧ heap w' = heap (with_consumer_qos w)
  ∧ consumers (channel w') = <[consumerTag := cmr]> (consumers (channel w))
  ∧ qos (channel w') = qos (channel w)
  ∧ consumerQos (channel w') = consumerQos (channel w)
  ∧ server_protoVersion w' = server_protoVersion w.
Proof.
  destruct (GetQueue (conn_vhost w) queue) as [qu|] eqn:Hq.
  - destruct (IsActive qu) eqn:Ha.
    + rewrite (addConsumer_found _ _ _ _ _ _ Hq Ha). simpl.
      destruct (consumers (channel w) !! consumerTag); [done|].
      destruct (Queue_AddConsumer _ _ _); [done|].
      intros [= <- <-]. unfold with_consumer_qos. by case_bool_decide.
    + rewrite addConsumer_not_found by eauto. done.
  - rewrite addConsumer_not_found by eauto. done.
Qed.

(** [addConsumer] keeps every consumer of the registry under its own tag. *)
Lemma addConsumer_registry_tags (queue consumerTag : string) (noAck exclusive : bool)
    (w w' : World) (r : Consumer + Error) :
  (∀ k c, consumers (channel w) !! k = Some c → Tag c = k) →
  addConsumer queue consumerTag noAck exclusive w = (w', r) →
  ∀ k c, consumers (channel w') !! k = Some c → Tag c = k.
Proof.
  intros Htag Ha.
  assert (Hq : consumers (channel (with_consumer_qos w)) = consumers (channel w)).
  { unfold with_consumer_qos. by case_bool_decide. }
  destruct (GetQueue (conn_vhost w) queue) as [qu|] eqn:Hg;
    [destruct (IsActive qu) eqn:Hact|].
  - rewrite (addConsumer_found _ _ _ _ _ _ Hg Hact) in Ha. cbv zeta in Ha.
    destruct (consumers (channel w) !! consumerTag) eqn:Hc.
    + injection Ha as <- _. by rewrite Hq.
    + destruct (Queue_AddConsumer _ _ _).
      * injection Ha as <- _. simpl. by rewrite Hq.
      * injection Ha as <- _. simpl. intros k c Hk.
        apply lookup_insert_Some in Hk as [[<- <-]|[_ Hk]]; [done|by apply Htag].
  - rewrite addConsumer_not_found in Ha by eauto. by injection Ha as <- _.
  - rewrite addConsumer_not_found in Ha by eauto. by injection Ha as <- _.
Qed.

End Registry.

Section RegistryClaims.
Context `{Amqp} `{Broker}.

(** C7.  Under protocol 0-9-1 [updateQos] updates the connection's
    accountant when global is set and the channel's otherwise, and a new
    consumer's accountants are the channel's and the connection's.  Under
    another protocol [updateQos] updates the channel's accountant when
    global is set and the channel's consumer template otherwise; a new
    consumer's accountants are the channel's and a new accountant, a copy
    of the template as it is at registration, which no later [updateQos]
    changes.  An update replaces the limits of the accountant it is
    applied to and of no other. *)
Theorem qos_scope_by_protocol
    (count size : Z) (queue consumerTag : string) (noAck exclusive : bool) (w : World) :
  (server_protoVersion w = Proto091 →
     updateQos count size true w = Update (conn_qos w) count size w
     ∧ updateQos count size false w
       = Update (qos (channel w)) count size w
     ∧ ∀ w' cmr, addConsumer queue consumerTag noAck exclusive w = (w', inl cmr) →
         Qos cmr = [qos (channel w); conn_qos w] ∧ heap w' = heap w)
  ∧ (server_protoVersion w ≠ Proto091 →
     updateQos count size true w
     = Update (qos (channel w)) count size w
     ∧ updateQos count size false w
       = Update (consumerQos (channel w)) count size w
     ∧ ∀ w' cmr, addConsumer queue consumerTag noAck exclusive w = (w', inl cmr) →
         Qos cmr = [qos (channel w); length (heap w)]
         ∧ heap w' = heap w ++ [heap w !!! consumerQos (channel w)]
         ∧ ((qos (channel w) < length (heap w))%nat →
            (consumerQos (channel w) < length (heap w))%nat →
            heap w' !! length (heap w) = heap w !! consumerQos (channel w)
            ∧ heap w' !! consumerQos (channel w) = heap w !! consumerQos (channel w)
            ∧ ∀ w2 c s global,
                server_protoVersion w2 = server_protoVersion w →
                qos (channel w2) = qos (channel w) →
                consumerQos (channel w2) = consumerQos (channel w) →
                heap (updateQos c s global w2) !! length (heap w) = heap w2 !! length (heap w)))
  ∧ (∀ p0 p, heap (Update p0 count size w) !! p
             = if bool_decide (p = p0)
               then AmqpQos_Update count size <$> heap w !! p
               else heap w !! p)
  ∧ (∀ q, prefetchCount (AmqpQos_Update count size q) = count
          ∧ prefetchSize (AmqpQos_Update count size q) = size
          ∧ currentCount (AmqpQos_Update count size q) = currentCount q
          ∧ currentSize (AmqpQos_Update count size q) = currentSize q).
Proof.
  split; [|split; [|split]].
  - intros Hp. unfold updateQos. rewrite bool_decide_eq_true_2 by done.
    split; [done|]. split; [done|]. intros w' cmr Ha.
    apply addConsumer_success in Ha as (-> & -> & _).
    unfold new_consumer_qos, with_consumer_qos. by rewrite bool_decide_eq_true_2.
  - intros Hp. unfold updateQos. rewrite bool_decide_eq_false_2 by done.
    split; [done|]. split; [done|]. intros w' cmr Ha.
    apply addConsumer_success in Ha as (-> & -> & _).
    unfold new_consumer_qos, with_consumer_qos. rewrite bool_decide_eq_false_2 by done. simpl.
    split; [done|]. split; [done|]. intros Hq Hc. split; [|split].
    + rewrite lookup_app_r by lia. rewrite Nat.sub_diag. simpl.
      destruct (lookup_lt_is_Some_2 _ _ Hc) as [q Hq'].
      by rewrite (list_lookup_total_correct _ _ _ Hq').
    + by rewrite lookup_app_l.
    + intros w2 c s global Hp2 Hq2 Hc2. unfold updateQos.
      rewrite Hp2, bool_decide_eq_false_2 by done.
      destruct global; rewrite Update_lookup, bool_decide_eq_false_2; try done; lia.
  - intros p0 p. apply Update_lookup.
  - done.
Qed.

(** C8.  [addConsumer] answers, in this order: the channel-level NotFound
    when the queue is not in the virtual host or is not active; the
    channel-level NotAllowed "Consumer with tag 'T' already exists", the
    registry being as before, when the tag is registered on the channel;
    the channel-level AccessRefused with the queue's reason when the
    queue's [AddConsumer] refuses, the registry again as before; and
    otherwise the consumer, which it has put in the registry under its
    tag. *)
Theorem addConsumer_outcomes (queue consumerTag : string) (noAck exclusive : bool) (w : World) :
  let method := BasicConsume queue consumerTag noAck exclusive in
  let cmr := NewConsumer queue consumerTag noAck (new_consumer_qos w) in
  (GetQueue (conn_vhost w) queue = None
   ∨ (∃ qu, GetQueue (conn_vhost w) queue = Some qu ∧ IsActive qu = false) →
   addConsumer queue consumerTag noAck exclusive w
   = (w, inr (mkError NotFound ("queue '" +:+ queue +:+ "' not found")
                (ClassIdentifier method) (MethodIdentifier method) ErrorOnChannel)))
  ∧ (∀ qu, GetQueue (conn_vhost w) queue = Some qu → IsActive qu = true →
       Tag cmr = consumerTag
       ∧ (is_Some (consumers (channel w) !! Tag cmr) →
          ∃ w', addConsumer queue consumerTag noAck exclusive w
                = (w', inr (mkError NotAllowed
                              ("Consumer with tag '" +:+ consumerTag +:+ "' already exists")
                              (ClassIdentifier method) (MethodIdentifier method) ErrorOnChannel))
            ∧ consumers (channel w') = consumers (channel w)
            ∧ calls w' = calls w)
       ∧ (consumers (channel w) !! Tag cmr = None →
          (∀ reason, Queue_AddConsumer qu cmr exclusive = Some reason →
             ∃ w', addConsumer queue consumerTag noAck exclusive w
                   = (w', inr (mkError AccessRefused reason
                                 (ClassIdentifier method) (MethodIdentifier method) ErrorOnChannel))
               ∧ consumers (channel w') = consumers (channel w))
          ∧ (Queue_AddConsumer qu cmr exclusive = None →
             ∃ w', addConsumer queue consumerTag noAck exclusive w = (w', inl cmr)
               ∧ consumers (channel w') = <[Tag cmr := cmr]> (consumers (channel w))
               ∧ consumers (channel w') !! Tag cmr = Some cmr))).
Proof.
  intros method cmr. split; [apply addConsumer_not_found|].
  intros qu Hq Ha. split; [done|].
  rewrite (addConsumer_found _ _ _ _ _ _ Hq Ha). cbv zeta. fold method cmr.
  change (Tag cmr) with consumerTag.
  assert (Hw : consumers (channel (with_consumer_qos w)) = consumers (channel w)
               ∧ calls (with_consumer_qos w) = calls w).
  { unfold with_consumer_qos. by case_bool_decide. }
  destruct Hw as [Hw1 Hw2].
  split.
  - intros [c Hc]. rewrite Hc. eauto.
  - intros Hc. rewrite Hc. split.
    + intros reason Hr. rewrite Hr. eexists. split; [reflexivity|]. exact Hw1.
    + intros Hr. rewrite Hr. eexists. split; [reflexivity|]. simpl.
      split; [done|]. apply lookup_insert_eq.
Qed.

End RegistryClaims.

(** ** Closing the channel *)

Section CloseClaims.
Context `{Amqp}.

(** C9, as the code has it.  When every consumer is registered under its
    own tag, [close] returns; afterwards the registry is empty, every
    consumer that was registered has been stopped, and the channel is
    Closed.  On a channel whose id is above 0 the ledger is empty as well,
    its entries having gone through [handleReject] with deliveryTag = 0,
    multiple and requeue set, which requeued each entry whose queue is in
    the virtual host.  On channel 0 [close] leaves the ledger as it is. *)
Theorem close_empties_registry_and_ledger (cmrOrder : list string) (ackOrder : list N) (w : World) :
  range_order cmrOrder (consumers (channel w)) →
  range_order ackOrder (ackStore (channel w)) →
  (∀ k c, consumers (channel w) !! k = Some c → Tag c = k) →
  let w1 :=
    range_map cmrOrder (λ w, consumers (channel w))
      (λ _ cmr w,
         let w := call (ConsumerStop cmr) w in
         set_consumers w (delete (Tag cmr) (consumers (channel w)))) w in
  ∃ w', close cmrOrder ackOrder w = Some w'
    ∧ consumers (channel w') = ∅
    ∧ status (channel w') = channelClosed
    ∧ (∀ k c, consumers (channel w) !! k = Some c → ConsumerStop c ∈ calls w')
    ∧ (id (channel w) > 0 →
       ackStore (channel w') = ∅
       ∧ (∃ w2, handleReject ackOrder 0 true true (BasicNack 0 false false) w1 = Some (w2, None)
                ∧ w' = set_status w2 channelClosed)
       ∧ (∀ t u, ackStore (channel w) !! t = Some u →
                 is_Some (GetQueue (conn_vhost w) (queue u)) →
                 QueueRequeue (queue u) (msg u) ∈ calls w'))
    ∧ (id (channel w) ≤ 0 → ackStore (channel w') = ackStore (channel w)).
Proof.
  intros Hco Hao Htag w1.
  pose proof (close_range cmrOrder w (range_order_NoDup _ _ Hco) Htag) as Hcr.
  cbv zeta in Hcr. fold w1 in Hcr.
  destruct Hcr as (Hl & Hack & Hid & Hvh & Hmono & Hstop).
  assert (Hempty : consumers (channel w1) = ∅).
  { apply map_empty. intros k. rewrite Hl. case_bool_decide as Hin; [done|].
    destruct (consumers (channel w) !! k) eqn:Hk; [|done].
    exfalso. apply Hin. apply (range_order_elem _ _ _ Hco). eauto. }
  assert (Hstopped : ∀ k c, consumers (channel w) !! k = Some c → ConsumerStop c ∈ calls w1).
  { intros k c Hk. apply (Hstop k c); [|done]. apply (range_order_elem _ _ _ Hco). eauto. }
  unfold close. fold w1. rewrite Hid.
  case_bool_decide as Hpos.
  - destruct (handleReject_multiple ackOrder 0 true (BasicNack 0 false false) w1)
      as (_ & Hmem & w2 & Hr & Hloop & Hst & Hc2 & _); [by rewrite Hack|].
    rewrite Hr. simpl. eexists. split; [reflexivity|]. simpl.
    rewrite (reject_loop (ackStore (channel w1))) in Hloop;
      [|by apply NoDup_filter, sort_Slice_desc_spec, (range_order_NoDup _ _ Hao)|done].
    destruct (reject_loop_calls _ _ _ _ _ Hloop) as [Hmono2 Hcalls].
    split; [by rewrite Hc2|]. split; [done|].
    split; [intros k c Hk; by apply Hmono2, (Hstopped k c)|].
    split; [|lia]. intros _. split; [|split].
    + apply map_empty. intros k. by rewrite Hst.
    + by exists w2.
    + intros t u Hu Hq. apply (Hcalls t u).
      * apply Hmem. rewrite Hack, Hu. eauto.
      * by rewrite Hack.
      * by rewrite Hvh.
  - simpl. eexists. split; [reflexivity|]. simpl.
    split; [done|]. split; [done|]. split; [exact Hstopped|].
    split; [lia|]. intros _. exact Hack.
Qed.

End CloseClaims.

(** Closing channel 1 with the consumer "c1" registered and the delivery 7
    unacked. *)
Lemma close_empties_registry_and_ledger_witness :
  ∃ w', @close example_amqp ["c1"%string] [7%N]
          (set_ackStore consuming_world {[7%N := mkUnackedMessage "c1" (example_message 12) "q1"]})
        = Some w'
    ∧ consumers (channel w') = ∅
    ∧ ackStore (channel w') = ∅
    ∧ status (channel w') = channelClosed.
Proof.
  destruct (@close_empties_registry_and_ledger example_amqp ["c1"%string] [7%N]
              (set_ackStore consuming_world
                 {[7%N := mkUnackedMessage "c1" (example_message 12) "q1"]}))
    as (w' & Hc & Hreg & Hst & _ & Hled & _).
  - vm_compute. reflexivity.
  - vm_compute. reflexivity.
  - intros k c Hk. simpl in Hk. apply lookup_singleton_Some in Hk as [<- <-]. reflexivity.
  - exists w'. split; [exact Hc|]. split; [exact Hreg|]. split; [|exact Hst].
    apply Hled. reflexivity.
Defined.

(** C9 as claimed fails: closing channel 0 with the delivery 7 unacked
    leaves the delivery in the ledger. *)
Lemma close_channel_0_keeps_ledger :
  ∃ w', @close example_amqp [] [7%N] unacked_world_0 = Some w'
    ∧ status (channel w') = channelClosed
    ∧ ackStore (channel w') !! 7%N = Some (mkUnackedMessage "c1" (example_message 12) "q1")
    ∧ ackStore (channel w') ≠ ∅.
Proof.
  eexists. split; [vm_compute; reflexivity|]. split; [reflexivity|].
  split; [vm_compute; reflexivity|].
  intros He. apply (f_equal (λ m : gmap N UnackedMessage, m !! 7%N)) in He.
  vm_compute in He. discriminate.
Qed.

(** Under a later protocol the consumer "c1" gets the channel's accountant
    and a copy of the template, at address 3. *)
Lemma qos_scope_by_protocol_witness :
  ∃ w' cmr,
    @addConsumer example_amqp example_broker "q1" "c1" false false later_world = (w', inl cmr)
    ∧ Qos cmr = [0%nat; 3%nat]
    ∧ heap w' = heap later_world ++ [mkQos 5 0 0 0]
    ∧ heap (@updateQos example_amqp 7 7 false w') !! 3%nat = heap w' !! 3%nat
    ∧ heap (@updateQos example_amqp 7 7 true w') !! 3%nat = heap w' !! 3%nat.
Proof.
  destruct (@addConsumer example_amqp example_broker "q1" "c1" false false later_world)
    as [w' [cmr|e]] eqn:Ha; [|vm_compute in Ha; discriminate].
  exists w', cmr. split; [reflexivity|].
  destruct (@qos_scope_by_protocol example_amqp example_broker 0 0 "q1" "c1" false false later_world)
    as (_ & Hlater & _).
  destruct Hlater as (_ & _ & Hadd); [vm_compute; discriminate|].
  destruct (Hadd w' cmr Ha) as (Hq & Hh & Hs).
  split; [exact Hq|]. split; [exact Hh|].
  destruct Hs as (_ & _ & Hs); [vm_compute; lia|vm_compute; lia|].
  destruct (@addConsumer_success example_amqp example_broker _ _ _ _ _ _ _ Ha)
    as (_ & _ & _ & Hq' & Hc' & Hp').
  split; apply (Hs w' _ _ _ Hp' Hq' Hc').
Defined.

(** On the queue "q1": the tag "c1" is taken in [consuming_world], a
    second consumer "c2" is accepted, an exclusive one is refused; the
    queue "q2" is not there. *)
Lemma addConsumer_outcomes_witness :
  (∃ w', @addConsumer example_amqp example_broker "q1" "c1" false false consuming_world
         = (w', inr (mkError NotAllowed "Consumer with tag 'c1' already exists" 60 20 ErrorOnChannel))
     ∧ consumers (channel w') = consumers (channel consuming_world))
  ∧ (∃ w', @addConsumer example_amqp example_broker "q1" "c2" false false consuming_world
           = (w', inl (mkConsumer "q1" "c2" false [0%nat; 2%nat]))
       ∧ consumers (channel w') !! "c2"%string = Some (mkConsumer "q1" "c2" false [0%nat; 2%nat]))
  ∧ @addConsumer example_amqp example_broker "q2" "c2" false false consuming_world
    = (consuming_world, inr (mkError NotFound "queue 'q2' not found" 60 20 ErrorOnChannel)).
Proof.
  split; [|split].
  - destruct (@addConsumer_outcomes example_amqp example_broker "q1" "c1" false false consuming_world)
      as (_ & Hf).
    destruct (Hf (example_queue "q1")) as (_ & Hdup & _); [vm_compute; reflexivity|reflexivity|].
    destruct Hdup as (w' & Ha & Hc & _); [vm_compute; eauto|].
    exists w'. split; [exact Ha|exact Hc].
  - destruct (@addConsumer_outcomes example_amqp example_broker "q1" "c2" false false consuming_world)
      as (_ & Hf).
    destruct (Hf (example_queue "q1")) as (_ & _ & Hnew); [vm_compute; reflexivity|reflexivity|].
    destruct Hnew as (_ & Hok); [vm_compute; reflexivity|].
    destruct Hok as (w' & Ha & _ & Hl); [reflexivity|].
    exists w'. split; [exact Ha|exact Hl].
  - apply (@addConsumer_outcomes example_amqp example_broker "q2" "c2" false false consuming_world).
    left. vm_compute. reflexivity.
Defined.

(** * Further properties *)

(** ** What the channel puts on the wire *)

Section Wire.
Context `{Amqp} `{Broker}.

Lemma SendMethod_eq (method : Method) (w : World) :
  SendMethod method w = set_outgoing w (outgoing w ++ [method_frame method w]).
Proof. reflexivity. Qed.

(** X1.  [SendContent] writes the method frame, then the header frame,
    then the body frames of the message in their order, each with its
    payload and stamped with the id of the channel, and nothing else; it
    counts one delivery when the method is [basic.deliver] and touches
    neither the channel nor any other counter. *)
Theorem SendContent_frames (method : Method) (message : Message) (w : World) :
  let w' := (SendContent method message w).1 in
  let stamped := map (λ f, Frame_set_ChannelID f (id (channel w))) (Body message) in
  outgoing w'
  = outgoing w
    ++ [method_frame method w;
        mkFrame FrameHeader (id (channel w))
          (WriteContentHeader (Header message) (server_protoVersion w)) false false]
    ++ stamped
  ∧ (∀ f, f ∈ drop (length (outgoing w)) (outgoing w') → ChannelID f = id (channel w))
  ∧ Payload <$> stamped = Payload <$> Body message
  ∧ Type_ <$> stamped = Type_ <$> Body message
  ∧ (SendContent method message w).2 = Message_set_Body message stamped
  ∧ channel w' = channel w
  ∧ calls w' = calls w
  ∧ heap w' = heap w
  ∧ srvMetrics w'
    = match method with
      | BasicDeliver _ _ => Counter_add Deliver 1 (srvMetrics w)
      | _ => srvMetrics w
      end.
Proof.
  intros w' stamped. subst w' stamped.
  assert (Hout : outgoing (SendContent method message w).1
                 = outgoing w
                   ++ [method_frame method w;
                       mkFrame FrameHeader (id (channel w))
                         (WriteContentHeader (Header message) (server_protoVersion w)) false false]
                   ++ map (λ f, Frame_set_ChannelID f (id (channel w))) (Body message)).
  { unfold SendContent, SendMethod, sendOutgoing. rewrite foldl_sendOutgoing.
    destruct method; simpl; by rewrite <- !app_assoc. }
  split; [exact Hout|]. split; [|split; [|split; [|split]]].
  - intros f. rewrite Hout, drop_app_length. intros Hf.
    apply elem_of_cons in Hf as [->|Hf]; [done|].
    apply elem_of_cons in Hf as [->|Hf]; [done|].
    apply list_elem_of_fmap in Hf as (g & -> & _). done.
  - rewrite <- list_fmap_compose. reflexivity.
  - rewrite <- list_fmap_compose. reflexivity.
  - reflexivity.
  - unfold SendContent, SendMethod, sendOutgoing. rewrite foldl_sendOutgoing.
    destruct method; done.
Qed.

Lemma confirm_loop (confirms : list ConfirmMeta) (w : World) :
  foldl (λ w confirm, Counter_Inc Confirm 1 (SendMethod (BasicAck (cmDeliveryTag confirm) false) w))
    w confirms
  = set_srvMetrics
      (set_outgoing w
         (outgoing w
          ++ map (λ confirm, method_frame (BasicAck (cmDeliveryTag confirm) false) w) confirms))
      (Counter_add Confirm (Z.of_nat (length confirms)) (srvMetrics w)).
Proof.
  revert w. induction confirms as [|confirm confirms IH]; intros w.
  - simpl. rewrite app_nil_r. destruct w as [? ? ? ? ? [] ? ?]. simpl.
    unfold set_srvMetrics, set_outgoing, Counter_add. simpl. by rewrite Z.add_0_r.
  - cbn [foldl]. rewrite IH. cbv zeta.
    unfold Counter_Inc, SendMethod, sendOutgoing, set_srvMetrics, set_outgoing, method_frame.
    simpl. rewrite <- app_assoc. simpl.
    f_equal. destruct (srvMetrics w). unfold Counter_add. simpl. f_equal. lia.
Qed.

(** X2.  A tick of [sendConfirms] on a closed channel sends nothing and
    ends the loop.  On a channel that is not closed it empties the confirm
    queue and sends one [basic.ack], multiple unset, for each waiting
    confirm, in the order in which they were queued, with the delivery tag
    of the confirm; the Confirm counter grows by their number and nothing
    else changes. *)
Theorem sendConfirms_tick_drains (w : World) :
  (status (channel w) = channelClosed → sendConfirms_tick w = (w, false))
  ∧ (status (channel w) ≠ channelClosed →
     let w' := (sendConfirms_tick w).1 in
     (sendConfirms_tick w).2 = true
     ∧ confirmQueue (channel w') = []
     ∧ outgoing w'
       = outgoing w
         ++ map (λ confirm, method_frame (BasicAck (cmDeliveryTag confirm) false) w)
              (confirmQueue (channel w))
     ∧ Counter (srvMetrics w') Confirm
       = Counter (srvMetrics w) Confirm + Z.of_nat (length (confirmQueue (channel w)))
     ∧ (∀ m, m ≠ Confirm → Counter (srvMetrics w') m = Counter (srvMetrics w) m)
     ∧ channel w' = channel (set_confirmQueue w [])
     ∧ calls w' = calls w
     ∧ heap w' = heap w
     ∧ (sendConfirms_tick w').1 = w').
Proof.
  split.
  - intros Hc. unfold sendConfirms_tick. by rewrite bool_decide_eq_true_2.
  - intros Hc. unfold sendConfirms_tick. rewrite bool_decide_eq_false_2 by done.
    cbv zeta. cbn [fst snd].
    rewrite (confirm_loop (confirmQueue (channel w)) (set_confirmQueue w [])). cbn.
    split; [done|]. split; [done|]. split; [done|].
    split; [by destruct (srvMetrics w)|].
    split; [intros m Hm; destruct m, (srvMetrics w); done|].
    split; [done|]. split; [done|]. split; [done|].
    rewrite bool_decide_eq_false_2 by done. reflexivity.
Qed.

Lemma addConfirm_loop (metas : list ConfirmMeta) (w : World) :
  confirmMode (channel w) = true →
  status (channel w) ≠ channelClosed →
  foldl (λ w meta, addConfirm meta w) w metas
  = set_confirmQueue w (confirmQueue (channel w) ++ metas).
Proof.
  revert w. induction metas as [|meta metas IH]; intros w Hm Hs; cbn [foldl].
  - rewrite app_nil_r. by destruct w as [[] ? ? ? ? ? ? ?].
  - assert (Hstep : addConfirm meta w = set_confirmQueue w (confirmQueue (channel w) ++ [meta])).
    { unfold addConfirm. rewrite Hm. cbn. by rewrite bool_decide_eq_false_2. }
    rewrite Hstep, IH by done. cbn. unfold set_confirmQueue. cbn.
    by rewrite <- app_assoc.
Qed.

(** X3.  [addConfirm] does nothing when the channel is not in confirm mode
    or is closed, and queues the confirm behind the waiting ones
    otherwise.  So the confirms added on an open channel in confirm mode
    are acknowledged by the next tick after the ones that were waiting and
    in the order in which they were added. *)
Theorem confirms_keep_their_order (metas : list ConfirmMeta) (w : World) :
  (∀ meta, confirmMode (channel w) = false ∨ status (channel w) = channelClosed →
           addConfirm meta w = w)
  ∧ (confirmMode (channel w) = true → status (channel w) ≠ channelClosed →
     let w1 := foldl (λ w meta, addConfirm meta w) w metas in
     confirmQueue (channel w1) = confirmQueue (channel w) ++ metas
     ∧ outgoing (sendConfirms_tick w1).1
       = outgoing w
         ++ map (λ confirm, method_frame (BasicAck (cmDeliveryTag confirm) false) w)
              (confirmQueue (channel w) ++ metas)
     ∧ cmDeliveryTag <$> confirmQueue (channel w1)
       = (cmDeliveryTag <$> confirmQueue (channel w)) ++ (cmDeliveryTag <$> metas)).
Proof.
  split.
  - intros meta [Hm|Hs]; unfold addConfirm.
    + by rewrite Hm.
    + destruct (confirmMode (channel w)); [|done]. cbn. by rewrite bool_decide_eq_true_2.
  - intros Hm Hs. cbv zeta. rewrite addConfirm_loop by done.
    split; [done|]. split; [|cbn; by rewrite fmap_app].
    destruct (sendConfirms_tick_drains (set_confirmQueue w (confirmQueue (channel w) ++ metas)))
      as [_ Ht].
    destruct Ht as (_ & _ & Ho & _); [done|]. exact Ho.
Qed.

End Wire.

Lemma sendConfirms_tick_drains_witness :
  (@sendConfirms_tick example_amqp confirming_world).2 = true
  ∧ confirmQueue (channel (@sendConfirms_tick example_amqp confirming_world).1) = []
  ∧ outgoing (@sendConfirms_tick example_amqp confirming_world).1
    = [@method_frame example_amqp (BasicAck 1 false) confirming_world;
       @method_frame example_amqp (BasicAck 2 false) confirming_world].
Proof.
  destruct (@sendConfirms_tick_drains example_amqp confirming_world) as [_ Ht].
  destruct Ht as (Hgo & Hq & Ho & _); [vm_compute; discriminate|].
  split; [exact Hgo|]. split; [exact Hq|exact Ho].
Defined.

Lemma confirms_keep_their_order_witness :
  confirmQueue
    (channel (foldl (λ w meta, @addConfirm meta w) confirming_world [mkConfirmMeta 3 1 0 true]))
  = [mkConfirmMeta 1 1 0 true; mkConfirmMeta 2 1 0 true; mkConfirmMeta 3 1 0 true].
Proof.
  destruct (@confirms_keep_their_order example_amqp [mkConfirmMeta 3 1 0 true] confirming_world)
    as [_ Ht].
  destruct Ht as (Hq & _); [reflexivity|vm_compute; discriminate|]. exact Hq.
Defined.

(** ** Delivery tags and the new channel *)

Lemma NextDeliveryTags_from (n : nat) (w : World) :
  (deliveryTag (channel w) + N.of_nat n < 2 ^ 64)%N →
  (NextDeliveryTags n w).2 = map (λ i, deliveryTag (channel w) + N.of_nat i)%N (seq 1 n)
  ∧ (NextDeliveryTags n w).1 = set_deliveryTag w (deliveryTag (channel w) + N.of_nat n)%N.
Proof.
  revert w. induction n as [|n IH]; intros w Hlt.
  - simpl. split; [done|]. rewrite N.add_0_r. by destruct w as [[] ? ? ? ? ? ? ?].
  - cbn [NextDeliveryTags]. unfold NextDeliveryTag. cbv zeta.
    assert (Hstep : ((deliveryTag (channel w) + 1) mod uint64_mod
                     = deliveryTag (channel w) + 1)%N).
    { apply N.mod_small. unfold uint64_mod. lia. }
    rewrite Hstep.
    destruct (IH (set_deliveryTag w (deliveryTag (channel w) + 1)%N)) as [Hts Hw].
    { simpl. lia. }
    destruct (NextDeliveryTags n (set_deliveryTag w (deliveryTag (channel w) + 1)%N))
      as [w' ts] eqn:Hn.
    cbn [fst snd] in *. subst. split.
    + cbn [seq map]. f_equal.
      rewrite <- (seq_shift n 1), map_map. apply map_ext. intros i.
      unfold set_deliveryTag. cbn [channel set_channel deliveryTag].
      rewrite Nat2N.inj_succ. lia.
    + unfold set_deliveryTag. cbn [channel set_channel deliveryTag active confirmMode id status
        protoVersion currentMessage consumers qos consumerQos confirmDeliveryTag confirmQueue ackStore
        server_protoVersion conn_qos conn_vhost outgoing srvMetrics heap calls].
      rewrite Nat2N.inj_succ. do 2 f_equal. lia.
Qed.

(** X4.  As long as the 64-bit counter does not wrap, [n] calls of
    [NextDeliveryTag] in a row return the tags c+1, ..., c+n, where c is
    the counter before: strictly increasing, pairwise distinct and never
    0.  At c = 2^64 - 1 the counter wraps and the tag is 0.
    [nextConfirmDeliveryTag] counts in the same way on its own counter and
    leaves the delivery tags alone. *)
Theorem NextDeliveryTag_monotone (n : nat) (w : World) :
  ((deliveryTag (channel w) + N.of_nat n < 2 ^ 64)%N →
   (NextDeliveryTags n w).2 = map (λ i, deliveryTag (channel w) + N.of_nat i)%N (seq 1 n)
   ∧ deliveryTag (channel (NextDeliveryTags n w).1) = (deliveryTag (channel w) + N.of_nat n)%N
   ∧ StronglySorted N.lt (NextDeliveryTags n w).2
   ∧ NoDup (NextDeliveryTags n w).2
   ∧ Forall (λ t, t ≠ 0 ∧ deliveryTag (channel w) < t)%N (NextDeliveryTags n w).2)
  ∧ (deliveryTag (channel w) = (2 ^ 64 - 1)%N → (NextDeliveryTag w).2 = 0%N)
  ∧ ((confirmDeliveryTag (channel w) < 2 ^ 64 - 1)%N →
     (nextConfirmDeliveryTag w).2 = (confirmDeliveryTag (channel w) + 1)%N
     ∧ confirmDeliveryTag (channel (nextConfirmDeliveryTag w).1)
       = (confirmDeliveryTag (channel w) + 1)%N
     ∧ deliveryTag (channel (nextConfirmDeliveryTag w).1) = deliveryTag (channel w)
     ∧ confirmDeliveryTag (channel (NextDeliveryTag w).1) = confirmDeliveryTag (channel w)).
Proof.
  split; [|split].
  - intros Hlt. destruct (NextDeliveryTags_from n w Hlt) as [-> ->].
    split; [done|]. split; [done|].
    assert (Hs : StronglySorted N.lt
                   (map (λ i, deliveryTag (channel w) + N.of_nat i)%N (seq 1 n))).
    { generalize 1%nat. clear Hlt. induction n as [|n IH]; intros s; simpl; constructor.
      - apply IH.
      - apply Forall_forall. intros t Ht. apply list_elem_of_In, in_map_iff in Ht as (i & <- & Hi).
        apply in_seq in Hi. lia. }
    split; [exact Hs|]. split.
    + clear Hlt. induction Hs as [|t ts _ IH Hall]; constructor; [|exact IH].
      intros Hin. rewrite Forall_forall in Hall. specialize (Hall _ Hin). lia.
    + apply Forall_forall. intros t Ht. apply list_elem_of_In, in_map_iff in Ht as (i & <- & Hi).
      apply in_seq in Hi. lia.
  - intros Hc. unfold NextDeliveryTag, uint64_mod. simpl. rewrite Hc. reflexivity.
  - intros Hlt. unfold nextConfirmDeliveryTag, NextDeliveryTag, uint64_mod. simpl.
    rewrite N.mod_small by lia. done.
Qed.

Lemma NextDeliveryTag_monotone_witness :
  (NextDeliveryTags 3 (example_world 1 "amqp-0-9-1")).2 = [1; 2; 3]%N
  ∧ (nextConfirmDeliveryTag (example_world 1 "amqp-0-9-1")).2 = 1%N.
Proof.
  destruct (NextDeliveryTag_monotone 3 (example_world 1 "amqp-0-9-1")) as (Hd & _ & Hc).
  split.
  - destruct Hd as (Ht & _); [vm_compute; reflexivity|]. exact Ht.
  - destruct Hc as (Ht & _); [vm_compute; reflexivity|]. exact Ht.
Defined.

(** X5.  A channel made by [NewChannel] is active, New and not in confirm
    mode, has no current message, no consumer, no unacked delivery and no
    waiting confirm; its two accountants are new objects without limits
    and without usage, different from each other and from every accountant
    there was, all of which are as before; and the first delivery tag it
    issues is 1. *)
Theorem NewChannel_is_fresh (chId : Z) (w : World) :
  let w' := NewChannel chId w in
  id (channel w') = chId
  ∧ active (channel w') = true
  ∧ status (channel w') = channelNew
  ∧ confirmMode (channel w') = false
  ∧ currentMessage (channel w') = None
  ∧ consumers (channel w') = ∅
  ∧ ackStore (channel w') = ∅
  ∧ confirmQueue (channel w') = []
  ∧ protoVersion (channel w') = server_protoVersion w
  ∧ heap w' !! qos (channel w') = Some (NewAmqpQos 0 0)
  ∧ heap w' !! consumerQos (channel w') = Some (NewAmqpQos 0 0)
  ∧ qos (channel w') ≠ consumerQos (channel w')
  ∧ (∀ p q, heap w !! p = Some q →
            heap w' !! p = Some q ∧ p ≠ qos (channel w') ∧ p ≠ consumerQos (channel w'))
  ∧ (NextDeliveryTag w').2 = 1%N
  ∧ (NextDeliveryTags 3 w').2 = [1; 2; 3]%N.
Proof.
  intros w'. subst w'. unfold NewChannel. simpl.
  repeat (split; [done|]).
  split; [by rewrite lookup_app_r, Nat.sub_diag|].
  split; [rewrite lookup_app_r by lia; by replace (S (length (heap w)) - length (heap w))%nat
                                          with 1%nat by lia|].
  split; [lia|]. split; [|done].
  intros p q Hp. pose proof (lookup_lt_Some _ _ _ Hp).
  split; [by rewrite lookup_app_l|lia].
Qed.

(** ** The ledger and its counter *)

Section LedgerMore.
Context `{Amqp} `{Broker}.

(** [rejectMsg] never touches Total and Acknowledge. *)
Lemma rejectMsg_other_counters (u : UnackedMessage) (tag : N) (requeue : bool) (w w' : World) :
  rejectMsg (Some u) tag requeue w = Some w' →
  Counter (srvMetrics w') Total = Counter (srvMetrics w) Total
  ∧ Counter (srvMetrics w') Acknowledge = Counter (srvMetrics w) Acknowledge.
Proof.
  unfold rejectMsg. rewrite decQosAndConsumerNext_eq. intros [= <-].
  change (conn_vhost (set_ackStore w (delete tag (ackStore (channel w))))) with (conn_vhost w).
  destruct (GetQueue (conn_vhost w) (queue u)); [|done].
  destruct requeue; simpl; destruct (srvMetrics w); done.
Qed.

Lemma size_delete_present (m : gmap N UnackedMessage) (t : N) :
  is_Some (m !! t) → Z.of_nat (size (delete t m)) = Z.of_nat (size m) - 1.
Proof.
  intros Hs. rewrite map_size_delete_Some by done.
  pose proof (map_size_ne_0_lookup_2 m t Hs). lia.
Qed.

Lemma ackMsg_gap (u : UnackedMessage) (tag : N) (w : World) :
  is_Some (ackStore (channel w) !! tag) →
  is_Some (GetQueue (conn_vhost w) (queue u)) →
  ledger_gap (ackMsg u tag w) = ledger_gap w.
Proof.
  intros Hs Hq. unfold ledger_gap.
  destruct (ackMsg_effect u tag w) as (-> & _ & _ & Hcalls & _).
  destruct (Hcalls Hq) as (_ & -> & _). rewrite size_delete_present by done. lia.
Qed.

Lemma rejectMsg_gap (u : UnackedMessage) (tag : N) (requeue : bool) (w w' : World) :
  rejectMsg (Some u) tag requeue w = Some w' →
  is_Some (ackStore (channel w) !! tag) →
  is_Some (GetQueue (conn_vhost w) (queue u)) →
  ledger_gap w' = ledger_gap w.
Proof.
  intros Hr Hs Hq. unfold ledger_gap.
  destruct (rejectMsg_effect u tag requeue w) as (w1 & Hr1 & Hst & _ & Hcalls & _).
  rewrite Hr in Hr1. injection Hr1 as <-. rewrite Hst.
  destruct (Hcalls Hq) as (_ & -> & _). rewrite size_delete_present by done. lia.
Qed.

Lemma ack_fold_gap (store0 : gmap N UnackedMessage) (tags : list N) (w : World) :
  NoDup tags →
  (∀ t, t ∈ tags →
        ∃ u, store0 !! t = Some u ∧ ackStore (channel w) !! t = Some u
             ∧ is_Some (GetQueue (conn_vhost w) (queue u))) →
  ledger_gap (foldl (λ w tag, match store0 !! tag with Some uMsg => ackMsg uMsg tag w | None => w end)
                w tags)
  = ledger_gap w.
Proof.
  revert w. induction tags as [|t tags IH]; intros w Hnd Hin; cbn [foldl]; [done|].
  apply NoDup_cons in Hnd as [Hnotin Hnd].
  destruct (Hin t) as (u & Hu & Hst & Hq); [left|]. rewrite Hu.
  destruct (ackMsg_effect u t w) as (Hst' & Hvh & _).
  rewrite IH; [apply ackMsg_gap; [by rewrite Hst|done]|done|].
  intros t' Ht'. destruct (Hin t') as (u' & Hu' & Hst'' & Hq'); [by right|].
  exists u'. split; [done|]. rewrite Hst', Hvh.
  split; [|done]. rewrite lookup_delete_ne by (intros ->; done). done.
Qed.

Lemma reject_loop_gap (store0 : gmap N UnackedMessage) (tags : list N) (requeue : bool) (w w' : World) :
  NoDup tags →
  (∀ t, t ∈ tags →
        ∃ u, store0 !! t = Some u ∧ ackStore (channel w) !! t = Some u
             ∧ is_Some (GetQueue (conn_vhost w) (queue u))) →
  for_each (λ tag w, rejectMsg (store0 !! tag) tag requeue w) tags w = Some w' →
  ledger_gap w' = ledger_gap w.
Proof.
  revert w. induction tags as [|t tags IH]; intros w Hnd Hin; cbn [for_each].
  - by intros [= <-].
  - apply NoDup_cons in Hnd as [Hnotin Hnd].
    destruct (Hin t) as (u & Hu & Hst & Hq); [left|]. rewrite Hu.
    destruct (rejectMsg_Some u t requeue w) as (w1 & Hr & Hch & Hvh & _). rewrite Hr.
    intros Hl. rewrite (IH w1 Hnd); [apply (rejectMsg_gap u t requeue w w1 Hr); [by rewrite Hst|done]| |done].
    intros t' Ht'. destruct (Hin t') as (u' & Hu' & Hst'' & Hq'); [by right|].
    exists u'. split; [done|]. rewrite Hch, Hvh. simpl.
    split; [|done]. rewrite lookup_delete_ne by (intros ->; done). done.
Qed.

(** X6.  A delivery recorded with [AddUnackedMessage] is in the ledger
    under its tag, with Unacked one up and Ready one down.  Acking that tag
    then succeeds and takes the entry out again; if the queue is in the
    virtual host the queue's [AckMsg] is called, Unacked is back where it
    was, and Total is one down and Acknowledge one up.  Rejecting it
    instead also succeeds and takes the entry out; with requeue the queue's
    [Requeue] is called and both Unacked and Ready are back where they
    were, without requeue [AckMsg] is called and Total stays as it is. *)
Theorem deliver_then_settle
    (order : list N) (dTag : N) (cTag_ queue_ : string) (message : Message)
    (requeue : bool) (method : Method) (w : World) :
  let w1 := AddUnackedMessage dTag cTag_ queue_ message w in
  let u := mkUnackedMessage cTag_ message queue_ in
  ackStore (channel w1) !! dTag = Some u
  ∧ Counter (srvMetrics w1) Unacked = Counter (srvMetrics w) Unacked + 1
  ∧ Counter (srvMetrics w1) Ready = Counter (srvMetrics w) Ready - 1
  ∧ (∃ w2, handleAck order dTag false w1 = (w2, None)
       ∧ ackStore (channel w2) = delete dTag (ackStore (channel w))
       ∧ (is_Some (GetQueue (conn_vhost w) queue_) →
          calls w2 = calls w ++ [QueueAckMsg queue_ message] ++ wake u w
          ∧ Counter (srvMetrics w2) Unacked = Counter (srvMetrics w) Unacked
          ∧ Counter (srvMetrics w2) Ready = Counter (srvMetrics w) Ready - 1
          ∧ Counter (srvMetrics w2) Total = Counter (srvMetrics w) Total - 1
          ∧ Counter (srvMetrics w2) Acknowledge = Counter (srvMetrics w) Acknowledge + 1))
  ∧ (∃ w2, handleReject order dTag false requeue method w1 = Some (w2, None)
       ∧ ackStore (channel w2) = delete dTag (ackStore (channel w))
       ∧ (is_Some (GetQueue (conn_vhost w) queue_) →
          calls w2
          = calls w
            ++ [if requeue then QueueRequeue queue_ message else QueueAckMsg queue_ message]
            ++ wake u w
          ∧ Counter (srvMetrics w2) Unacked = Counter (srvMetrics w) Unacked
          ∧ Counter (srvMetrics w2) Ready
            = Counter (srvMetrics w) Ready - 1 + (if requeue then 1 else 0)
          ∧ Counter (srvMetrics w2) Total = Counter (srvMetrics w) Total
          ∧ Counter (srvMetrics w2) Acknowledge = Counter (srvMetrics w) Acknowledge))
  ∧ (ackStore (channel w) !! dTag = None →
     delete dTag (ackStore (channel w)) = ackStore (channel w)).
Proof.
  intros w1 u.
  assert (Hin : ackStore (channel w1) !! dTag = Some u) by apply lookup_insert_eq.
  assert (Hst : delete dTag (ackStore (channel w1)) = delete dTag (ackStore (channel w))).
  { unfold w1. simpl. apply delete_insert_eq. }
  assert (Hm : srvMetrics w1 = Counter_add Ready (-1) (Counter_add Unacked 1 (srvMetrics w)))
    by reflexivity.
  split; [exact Hin|].
  split; [rewrite Hm; destruct (srvMetrics w); simpl; lia|].
  split; [rewrite Hm; destruct (srvMetrics w); simpl; lia|].
  split; [|split].
  - exists (ackMsg u dTag w1). unfold handleAck. rewrite Hin.
    destruct (ackMsg_effect u dTag w1) as (Hs & _ & _ & Hq & _).
    split; [done|]. split; [by rewrite Hs|].
    intros Hqu. destruct (Hq Hqu) as (-> & -> & -> & -> & ->).
    rewrite Hm. split; [done|]. destruct (srvMetrics w); simpl. lia.
  - destruct (rejectMsg_effect u dTag requeue w1) as (w2 & Hr & Hs & _ & Hq & _).
    exists w2. unfold handleReject. rewrite Hin, Hr.
    split; [done|]. split; [by rewrite Hs|].
    intros Hqu. destruct (Hq Hqu) as (-> & HU & HR).
    split; [done|].
    destruct (rejectMsg_other_counters u dTag requeue w1 w2 Hr) as [HT HA].
    rewrite HU, HR, HT, HA, Hm.
    destruct (srvMetrics w); simpl. lia.
  - intros Hn. by apply delete_id.
Qed.

(** X7.  The Unacked counter keeps pace with the ledger: the difference
    between the counter and the number of entries stays the same when a
    delivery is recorded under a tag that is not in the ledger, and when
    entries whose queues are in the virtual host are acked or rejected,
    one by one or several at once.  It grows by one when a delivery is
    recorded under a tag that is in the ledger already, and when an entry
    is acked whose queue is no longer in the virtual host. *)
Theorem ledger_counter_in_step
    (order : list N) (dt : N) (requeue : bool) (method : Method) (w : World) :
  (∀ dTag cTag_ queue_ message,
     ledger_gap (AddUnackedMessage dTag cTag_ queue_ message w)
     = ledger_gap w + match ackStore (channel w) !! dTag with Some _ => 1 | None => 0 end)
  ∧ (range_order order (ackStore (channel w)) →
     queues_present (selected dt) (ackStore (channel w)) w →
     ledger_gap (handleAck order dt true w).1 = ledger_gap w
     ∧ ∃ w', handleReject order dt true requeue method w = Some (w', None)
         ∧ ledger_gap w' = ledger_gap w)
  ∧ (∀ u, ackStore (channel w) !! dt = Some u →
       (is_Some (GetQueue (conn_vhost w) (queue u)) →
        ledger_gap (handleAck order dt false w).1 = ledger_gap w
        ∧ ∃ w', handleReject order dt false requeue method w = Some (w', None)
            ∧ ledger_gap w' = ledger_gap w)
       ∧ (GetQueue (conn_vhost w) (queue u) = None →
          ledger_gap (handleAck order dt false w).1 = ledger_gap w + 1)).
Proof.
  split; [|split].
  - intros dTag cTag_ queue_ message. unfold ledger_gap, AddUnackedMessage. simpl.
    rewrite map_size_insert.
    destruct (ackStore (channel w) !! dTag); destruct (srvMetrics w); simpl; lia.
  - intros Hord Hq.
    pose proof (range_order_NoDup _ _ Hord) as Hnd.
    assert (Hsel : ∀ l : list N, (∀ t, t ∈ l → is_Some (ackStore (channel w) !! t)) →
                   ∀ t, t ∈ filter (λ tag, selected dt tag = true) l →
                        ∃ u, ackStore (channel w) !! t = Some u
                             ∧ ackStore (channel w) !! t = Some u
                             ∧ is_Some (GetQueue (conn_vhost w) (queue u))).
    { intros l Hl t Ht. apply list_elem_of_filter in Ht as [Hs Ht].
      destruct (Hl t Ht) as [u Hu]. exists u. split; [done|]. split; [done|].
      by apply (Hq t u). }
    split.
    + unfold handleAck. cbn [fst].
      assert (Hloop := handleAck_range dt (ackStore (channel w)) order w Hnd (λ _ _, eq_refl)).
      unfold selected in Hloop at 1. rewrite Hloop. clear Hloop.
      apply ack_fold_gap; [by apply NoDup_filter|].
      apply Hsel. intros t Ht. by apply (range_order_elem _ _ _ Hord).
    + destruct (handleReject_multiple order dt requeue method w Hord)
        as (_ & _ & w' & Hr & Hloop & _).
      exists w'. split; [exact Hr|].
      destruct (sort_Slice_desc_spec order Hnd) as (Hperm & Hnd' & _).
      rewrite (reject_loop (ackStore (channel w))) in Hloop; [|by apply NoDup_filter|done].
      assert (Hndf : NoDup (filter (λ tag, selected dt tag = true) (sort_Slice_desc order)))
        by (by apply NoDup_filter).
      apply (reject_loop_gap (ackStore (channel w)) _ requeue w w' Hndf); [|exact Hloop].
      apply Hsel. intros t Ht. rewrite Hperm in Ht. by apply (range_order_elem _ _ _ Hord).
  - intros u Hu. split.
    + intros Hq. split.
      * unfold handleAck. rewrite Hu. cbn [fst]. apply ackMsg_gap; [by rewrite Hu|done].
      * destruct (rejectMsg_Some u dt requeue w) as (w' & Hr & _).
        exists w'. unfold handleReject. rewrite Hu, Hr. split; [done|].
        apply (rejectMsg_gap u dt requeue w w' Hr); [by rewrite Hu|done].
    + intros Hq. unfold handleAck. rewrite Hu. cbn [fst]. unfold ledger_gap.
      destruct (ackMsg_effect u dt w) as (-> & _ & _ & _ & Hn).
      destruct (Hn Hq) as (_ & ->). rewrite size_delete_present by (by rewrite Hu). lia.
Qed.

End LedgerMore.

Lemma deliver_then_settle_witness :
  ∃ w2, @handleAck example_amqp [7%N] 7 false
          (AddUnackedMessage 7 "c1" "q1" (example_message 12) (example_world 1 "amqp-0-9-1"))
        = (w2, None)
    ∧ calls w2 = [QueueAckMsg "q1" (example_message 12)]
    ∧ Counter (srvMetrics w2) Unacked = 0
    ∧ Counter (srvMetrics w2) Total = -1.
Proof.
  destruct (@deliver_then_settle example_amqp [7%N] 7 "c1" "q1" (example_message 12) true
              (BasicNack 7 false true) (example_world 1 "amqp-0-9-1"))
    as (_ & _ & _ & (w2 & Ha & _ & Hq) & _).
  exists w2. split; [exact Ha|].
  destruct Hq as (Hc & HU & _ & HT & _); [vm_compute; eauto|].
  split; [exact Hc|]. split; [exact HU|exact HT].
Defined.

Lemma ledger_counter_in_step_witness :
  ledger_gap (@handleAck example_amqp [7%N] 0 true (unacked_world 7 12 "q1")).1
  = ledger_gap (unacked_world 7 12 "q1").
Proof.
  destruct (@ledger_counter_in_step example_amqp [7%N] 0 true (BasicNack 0 true true)
              (unacked_world 7 12 "q1")) as (_ & Hm & _).
  destruct Hm as [Hm _]; [vm_compute; reflexivity| |exact Hm].
  intros t u Hu _. simpl in Hu. apply lookup_singleton_Some in Hu as [_ <-].
  vm_compute. eauto.
Defined.

(** ** The registry, flow and closing *)

Section RegistryMore.
Context `{Amqp} `{Broker}.

(** X8.  [removeConsumer] does nothing for a tag that is not registered.
    For a consumer registered under its own tag it stops the consumer and
    takes exactly that tag out of the registry, whose size goes down by
    one; removing the tag once more does nothing.  The ledger, the
    accountants and the counters are not touched. *)
Theorem removeConsumer_unregisters (cTag_ : string) (w : World) :
  (consumers (channel w) !! cTag_ = None → removeConsumer cTag_ w = w)
  ∧ (∀ cmr, consumers (channel w) !! cTag_ = Some cmr → Tag cmr = cTag_ →
       consumers (channel (removeConsumer cTag_ w)) = delete cTag_ (consumers (channel w))
       ∧ calls (removeConsumer cTag_ w) = calls w ++ [ConsumerStop cmr]
       ∧ S (GetConsumersCount (removeConsumer cTag_ w)) = GetConsumersCount w
       ∧ removeConsumer cTag_ (removeConsumer cTag_ w) = removeConsumer cTag_ w)
  ∧ ackStore (channel (removeConsumer cTag_ w)) = ackStore (channel w)
  ∧ heap (removeConsumer cTag_ w) = heap w
  ∧ srvMetrics (removeConsumer cTag_ w) = srvMetrics w
  ∧ outgoing (removeConsumer cTag_ w) = outgoing w.
Proof.
  split; [|split].
  - intros Hn. unfold removeConsumer. by rewrite Hn.
  - intros cmr Hc Ht.
    assert (Hrem : removeConsumer cTag_ w
                   = set_consumers (call (ConsumerStop cmr) w) (delete cTag_ (consumers (channel w)))).
    { unfold removeConsumer. by rewrite Hc, Ht. }
    rewrite Hrem. simpl.
    split; [done|]. split; [done|]. split.
    + unfold GetConsumersCount. simpl. rewrite map_size_delete_Some by (by rewrite Hc).
      pose proof (map_size_ne_0_lookup_2 (consumers (channel w)) cTag_ (mk_is_Some _ _ Hc)). lia.
    + unfold removeConsumer. simpl. by rewrite lookup_delete_eq.
  - unfold removeConsumer. by destruct (consumers (channel w) !! cTag_).
Qed.

(** X9.  A consumer that [addConsumer] has registered is taken out again
    by [removeConsumer] with its tag: the registry is then what it was
    before the two calls, one entry larger in between, and the calls made
    are the queue's [AddConsumer] and then the consumer's [Stop]. *)
Theorem addConsumer_then_removeConsumer
    (queue consumerTag : string) (noAck exclusive : bool) (w w' : World) (cmr : Consumer) :
  addConsumer queue consumerTag noAck exclusive w = (w', inl cmr) →
  consumers (channel w) !! consumerTag = None
  ∧ GetConsumersCount w' = S (GetConsumersCount w)
  ∧ consumers (channel (removeConsumer consumerTag w')) = consumers (channel w)
  ∧ GetConsumersCount (removeConsumer consumerTag w') = GetConsumersCount w
  ∧ (∃ qu, GetQueue (conn_vhost w) queue = Some qu
           ∧ calls (removeConsumer consumerTag w')
             = calls w ++ [QueueAddConsumer (GetName qu) cmr exclusive; ConsumerStop cmr])
  ∧ ackStore (channel (removeConsumer consumerTag w')) = ackStore (channel w).
Proof.
  intros Ha.
  assert (Hq : consumers (channel (with_consumer_qos w)) = consumers (channel w)
               ∧ calls (with_consumer_qos w) = calls w
               ∧ ackStore (channel (with_consumer_qos w)) = ackStore (channel w)).
  { unfold with_consumer_qos. by case_bool_decide. }
  destruct Hq as (Hq1 & Hq2 & Hq3).
  destruct (GetQueue (conn_vhost w) queue) as [qu|] eqn:Hg;
    [destruct (IsActive qu) eqn:Hact|].
  - rewrite (addConsumer_found _ _ _ _ _ _ Hg Hact) in Ha. cbv zeta in Ha.
    destruct (consumers (channel w) !! consumerTag) eqn:Hc; [done|].
    destruct (Queue_AddConsumer _ _ _); [done|].
    injection Ha as <- <-.
    split; [done|]. unfold GetConsumersCount, removeConsumer. simpl.
    rewrite lookup_insert_eq. simpl. rewrite delete_insert_id by done.
    split; [by rewrite map_size_insert_None|].
    split; [done|]. split; [done|]. split; [|done].
    exists qu. split; [done|]. by rewrite Hq2, <- app_assoc.
  - rewrite addConsumer_not_found in Ha by eauto. done.
  - rewrite addConsumer_not_found in Ha by eauto. done.
Qed.

End RegistryMore.

Lemma removeConsumer_unregisters_witness :
  consumers (channel (removeConsumer "c1" consuming_world)) = ∅
  ∧ calls (removeConsumer "c1" consuming_world)
    = [ConsumerStop (mkConsumer "q1" "c1" false [0%nat; 2%nat])]
  ∧ removeConsumer "c2" consuming_world = consuming_world.
Proof.
  destruct (removeConsumer_unregisters "c1" consuming_world) as (_ & Hr & _).
  destruct (Hr (mkConsumer "q1" "c1" false [0%nat; 2%nat])) as (Hc & Hs & _);
    [vm_compute; reflexivity|reflexivity|].
  split; [rewrite Hc; vm_compute; reflexivity|]. split; [exact Hs|].
  apply (removeConsumer_unregisters "c2" consuming_world). vm_compute. reflexivity.
Defined.

Lemma addConsumer_then_removeConsumer_witness :
  ∃ w' cmr,
    @addConsumer example_amqp example_broker "q1" "c2" false false consuming_world = (w', inl cmr)
    ∧ consumers (channel (removeConsumer "c2" w')) = consumers (channel consuming_world)
    ∧ GetConsumersCount w' = 2%nat.
Proof.
  destruct (@addConsumer example_amqp example_broker "q1" "c2" false false consuming_world)
    as [w' [cmr|e]] eqn:Ha; [|vm_compute in Ha; discriminate].
  exists w', cmr. split; [reflexivity|].
  destruct (@addConsumer_then_removeConsumer example_amqp example_broker _ _ _ _ _ _ _ Ha)
    as (_ & Hn & Hc & _).
  split; [exact Hc|]. rewrite Hn. vm_compute. reflexivity.
Defined.

Section FlowAndClose.
Context `{Amqp}.

Lemma flow_range (f : Consumer → list FlowCall) (m : gmap string Consumer)
    (order : list string) (acc : list FlowCall) :
  range_map order (λ _ : list FlowCall, m) (λ _ cmr t, t ++ f cmr) acc
  = acc ++ concat (map (λ k, match m !! k with Some cmr => f cmr | None => [] end) order).
Proof.
  unfold range_map. revert acc. induction order as [|k order IH]; intros acc; simpl.
  - by rewrite app_nil_r.
  - destruct (m !! k); rewrite IH; [by rewrite <- app_assoc|done].
Qed.

(** X10.  [changeFlow] with the flag the channel has already does nothing
    and makes no call.  With the other flag it sets the flag and, going
    through the registry, calls [Pause] on each consumer when the channel
    is switched off, and [UnPause] followed by [Consume] on each consumer
    when it is switched on; each registered consumer gets its calls, and
    only registered consumers do.  A second call with the same flag does
    nothing.  The registry and the ledger are not changed. *)
Theorem changeFlow_pauses_and_resumes (order order' : list string) (a : bool) (w : World) :
  let r := changeFlow order a w in
  isActive r.1 = a
  ∧ (active (channel w) = a → r = (w, []))
  ∧ (active (channel w) ≠ a →
     r.1 = set_active w a
     ∧ r.2 = concat (map (flow_calls a (consumers (channel w))) order)
     ∧ (range_order order (consumers (channel w)) →
        ∀ cmr, (∃ k, consumers (channel w) !! k = Some cmr)
               ↔ (if a then CmrUnPause cmr else CmrPause cmr) ∈ r.2))
  ∧ changeFlow order' a r.1 = (r.1, [])
  ∧ consumers (channel r.1) = consumers (channel w)
  ∧ ackStore (channel r.1) = ackStore (channel w)
  ∧ calls r.1 = calls w
  ∧ outgoing r.1 = outgoing w.
Proof.
  intros r. subst r. unfold isActive.
  assert (Hsame : ∀ o w0, active (channel w0) = a → changeFlow o a w0 = (w0, [])).
  { intros o w0 Hw0. unfold changeFlow. by rewrite Hw0, Bool.eqb_reflx. }
  destruct (Bool.eqb (active (channel w)) a) eqn:He.
  - apply Bool.eqb_prop in He. rewrite (Hsame order w He). cbn [fst snd].
    split; [done|]. split; [done|]. split; [congruence|].
    split; [by apply Hsame|done].
  - assert (Hcf : changeFlow order a w
                  = (set_active w a, concat (map (flow_calls a (consumers (channel w))) order))).
    { unfold changeFlow. rewrite He. simpl. destruct a; rewrite flow_range; simpl; f_equal. }
    apply Bool.eqb_false_iff in He. rewrite Hcf. cbn [fst snd].
    split; [done|]. split; [congruence|]. split; [|split; [by apply Hsame|done]].
    intros _. split; [done|]. split; [done|]. intros Hord cmr.
    rewrite list_elem_of_In, in_concat. split.
    + intros [k Hk]. exists (flow_calls a (consumers (channel w)) k). split.
      * apply in_map_iff. exists k. split; [done|].
        apply list_elem_of_In, (range_order_elem _ _ _ Hord). eauto.
      * apply list_elem_of_In. unfold flow_calls. rewrite Hk. destruct a; left.
    + intros (l & Hl & Hin). apply in_map_iff in Hl as (k & <- & _).
      apply list_elem_of_In in Hin.
      exists k. unfold flow_calls in Hin.
      destruct (consumers (channel w) !! k) as [c|]; [|by apply elem_of_nil in Hin].
      destruct a.
      * apply elem_of_cons in Hin as [Hin|Hin]; [by injection Hin as ->|].
        apply elem_of_cons in Hin as [Hin|Hin]; [done|by apply elem_of_nil in Hin].
      * apply elem_of_cons in Hin as [Hin|Hin]; [by injection Hin as ->|].
        by apply elem_of_nil in Hin.
Qed.

Lemma reject_loop_outgoing (store0 : gmap N UnackedMessage) (tags : list N) (requeue : bool) (w w' : World) :
  for_each (λ tag w, rejectMsg (store0 !! tag) tag requeue w) tags w = Some w' →
  outgoing w' = outgoing w
  ∧ status (channel w') = status (channel w)
  ∧ confirmQueue (channel w') = confirmQueue (channel w)
  ∧ currentMessage (channel w') = currentMessage (channel w).
Proof.
  revert w. induction tags as [|t tags IH]; intros w; cbn [for_each]; [by intros [= <-]|].
  destruct (store0 !! t) as [u|]; [|done].
  destruct (rejectMsg_Some u t requeue w) as (w1 & Hr & Hch & _). rewrite Hr.
  intros Hl. destruct (IH _ Hl) as (-> & -> & -> & ->). rewrite Hch.
  unfold rejectMsg in Hr. rewrite decQosAndConsumerNext_eq in Hr. injection Hr as <-.
  split; [|done]. destruct (GetQueue _ _); destruct requeue; done.
Qed.

(** What [close] leaves behind. *)
Lemma close_post (cmrOrder : list string) (ackOrder : list N) (w w' : World) :
  range_order cmrOrder (consumers (channel w)) →
  range_order ackOrder (ackStore (channel w)) →
  (∀ k c, consumers (channel w) !! k = Some c → Tag c = k) →
  close cmrOrder ackOrder w = Some w' →
  consumers (channel w') = ∅
  ∧ status (channel w') = channelClosed
  ∧ id (channel w') = id (channel w)
  ∧ (id (channel w) > 0 → ackStore (channel w') = ∅)
  ∧ outgoing w' = outgoing w
  ∧ confirmQueue (channel w') = confirmQueue (channel w).
Proof.
  intros Hco Hao Htag.
  pose proof (close_range cmrOrder w (range_order_NoDup _ _ Hco) Htag) as Hcr.
  cbv zeta in Hcr. unfold close.
  set (w1 := range_map cmrOrder (λ w, consumers (channel w))
               (λ _ cmr w, let w := call (ConsumerStop cmr) w in
                           set_consumers w (delete (Tag cmr) (consumers (channel w)))) w) in *.
  destruct Hcr as (Hl & Hack & Hid & Hvh & _ & _).
  assert (Hempty : consumers (channel w1) = ∅).
  { apply map_empty. intros k. rewrite Hl. case_bool_decide as Hin; [done|].
    destruct (consumers (channel w) !! k) eqn:Hk; [|done].
    exfalso. apply Hin. apply (range_order_elem _ _ _ Hco). eauto. }
  assert (Hkeep : outgoing w1 = outgoing w ∧ confirmQueue (channel w1) = confirmQueue (channel w)).
  { unfold w1, range_map. clear. revert w. induction cmrOrder as [|k l IH]; intros w; [done|].
    cbn [foldl]. destruct (consumers (channel w) !! k); [|apply IH].
    match goal with |- context [foldl _ ?w0 l] => destruct (IH w0) as [-> ->] end. done. }
  destruct Hkeep as [Ho Hcq]. rewrite Hid.
  case_bool_decide as Hpos.
  - destruct (handleReject_multiple ackOrder 0 true (BasicNack 0 false false) w1)
      as (_ & _ & w2 & Hr & Hloop & Hst & Hc2 & Hid2); [by rewrite Hack|].
    rewrite Hr. simpl. intros [= <-]. simpl.
    rewrite (reject_loop (ackStore (channel w1))) in Hloop;
      [|by apply NoDup_filter, sort_Slice_desc_spec, (range_order_NoDup _ _ Hao)|done].
    destruct (reject_loop_outgoing _ _ _ _ _ Hloop) as (-> & _ & -> & _).
    split; [by rewrite Hc2|]. split; [done|]. split; [by rewrite Hid2|].
    split; [|done]. intros _. apply map_empty. intros k. by rewrite Hst.
  - simpl. intros [= <-]. simpl. split; [done|]. split; [done|]. split; [done|].
    split; [lia|done].
Qed.

(** X11.  Closing a channel that [close] has closed changes nothing: the
    second [close] returns the same state.  [close] itself writes nothing
    to the wire and leaves the waiting confirms where they are. *)
Theorem close_twice (cmrOrder : list string) (ackOrder ackOrder' : list N) (w w' : World) :
  range_order cmrOrder (consumers (channel w)) →
  range_order ackOrder (ackStore (channel w)) →
  (∀ k c, consumers (channel w) !! k = Some c → Tag c = k) →
  close cmrOrder ackOrder w = Some w' →
  range_order ackOrder' (ackStore (channel w')) →
  close [] ackOrder' w' = Some w'
  ∧ outgoing w' = outgoing w
  ∧ confirmQueue (channel w') = confirmQueue (channel w).
Proof.
  intros Hco Hao Htag Hc Hao'.
  destruct (close_post _ _ _ _ Hco Hao Htag Hc) as (Hreg & Hst & Hid & Hled & Ho & Hcq).
  split; [|done].
  assert (Hself : set_status w' channelClosed = w').
  { destruct w' as [[] ? ? ? ? ? ? ?]. simpl in Hst. by subst. }
  unfold close, range_map. cbn [foldl].
  case_bool_decide as Hpos; [|simpl; by rewrite Hself].
  rewrite Hid in Hpos. specialize (Hled Hpos).
  assert (ackOrder' = []) as ->.
  { unfold range_order in Hao'. rewrite Hled, dom_empty_L, elements_empty in Hao'.
    by apply Permutation_nil_r in Hao'. }
  unfold handleReject, range_map. simpl. by rewrite Hself.
Qed.

End FlowAndClose.

Lemma changeFlow_pauses_and_resumes_witness :
  (changeFlow ["c1"%string] false consuming_world).2
  = [CmrPause (mkConsumer "q1" "c1" false [0%nat; 2%nat])]
  ∧ changeFlow ["c1"%string] true consuming_world = (consuming_world, []).
Proof.
  destruct (changeFlow_pauses_and_resumes ["c1"%string] [] false consuming_world)
    as (_ & _ & Hoff & _).
  destruct Hoff as (_ & Ht & _); [vm_compute; discriminate|].
  split; [rewrite Ht; vm_compute; reflexivity|].
  destruct (changeFlow_pauses_and_resumes ["c1"%string] [] true consuming_world)
    as (_ & Hon & _).
  apply Hon. reflexivity.
Defined.

Lemma close_twice_witness :
  ∃ w', @close example_amqp ["c1"%string] [7%N]
          (set_ackStore consuming_world {[7%N := mkUnackedMessage "c1" (example_message 12) "q1"]})
        = Some w'
    ∧ @close example_amqp [] [] w' = Some w'.
Proof.
  destruct (@close example_amqp ["c1"%string] [7%N]
              (set_ackStore consuming_world
                 {[7%N := mkUnackedMessage "c1" (example_message 12) "q1"]}))
    as [w'|] eqn:Hc; [|vm_compute in Hc; discriminate].
  exists w'. split; [reflexivity|].
  assert (Hw : ackStore (channel w') = ∅).
  { vm_compute in Hc. injection Hc as <-. reflexivity. }
  refine (proj1 (@close_twice example_amqp ["c1"%string] [7%N] []
                   (set_ackStore consuming_world
                      {[7%N := mkUnackedMessage "c1" (example_message 12) "q1"]}) w' _ _ _ Hc _)).
  - vm_compute. reflexivity.
  - vm_compute. reflexivity.
  - intros k c Hk. simpl in Hk. apply lookup_singleton_Some in Hk as [<- <-]. reflexivity.
  - unfold range_order. rewrite Hw. vm_compute. reflexivity.
Defined.

(** ** Errors and the connection *)

Section ConnectionProps.
Context `{Amqp} `{Broker} `{ServerConsts}.

(** An error of a content frame handler leaves the state as it was and is
    a connection-level FrameError without class and method. *)
Lemma content_error (frame : Frame) (w w' : World) (e : Error) :
  handleContentHeader frame w = (w', Some e)
  ∨ handleContentBody frame w = Some (w', Some e) →
  w' = w ∧ e = mkError FrameError (ReplyText e) 0 0 ErrorOnConnection.
Proof.
  intros [Hh|Hb].
  - unfold handleContentHeader in Hh. repeat case_match; by simplify_eq.
  - unfold handleContentBody in Hb.
    destruct (currentMessage (channel w)) as [cm|] eqn:Hcm; [|by simplify_eq].
    destruct (Header cm) as [h|]; [|by simplify_eq].
    case_match; [by simplify_eq|].
    by apply handleContentBody_route_slot in Hb as [? _].
Qed.

(** X12.  [sendError] for a channel error puts the channel in Closing and
    sends [channel.close] with the four fields of the error on the
    channel's own id; the connection's state stays.  For a connection
    error it puts the connection in Closing and sends [connection.close]
    with the fields of the error on the id of the connection's channel 0,
    the channel itself staying in its state; it panics when the
    connection has no channel 0.  In both cases exactly one frame is
    written and the registry and the ledger are not touched. *)
Theorem sendError_by_class (err : Error) (c : Conn) :
  (ErrorType_of err = ErrorOnChannel →
   ∃ c', sendError err c = Some c'
     ∧ status (channel (world c')) = channelClosing
     ∧ conn_status c' = conn_status c
     ∧ outgoing (world c')
       = outgoing (world c)
         ++ [method_frame
               (ChannelClose (ReplyCode_of err) (ReplyText err) (ClassID err) (MethodID err))
               (world c)]
     ∧ consumers (channel (world c')) = consumers (channel (world c))
     ∧ ackStore (channel (world c')) = ackStore (channel (world c))
     ∧ calls (world c') = calls (world c))
  ∧ (ErrorType_of err = ErrorOnConnection →
     (conn_channels c !! 0 = None → sendError err c = None)
     ∧ ∀ channel0, conn_channels c !! 0 = Some channel0 →
         ∃ c' f, sendError err c = Some c'
           ∧ conn_status c' = ConnClosing
           ∧ channel (world c') = channel (world c)
           ∧ outgoing (world c') = outgoing (world c) ++ [f]
           ∧ f = method_frame
                   (ConnectionClose (ReplyCode_of err) (ReplyText err) (ClassID err) (MethodID err))
                   (set_channel (world c) channel0)
           ∧ ChannelID f = id channel0
           ∧ Type_ f = FrameMethod
           ∧ calls (world c') = calls (world c)).
Proof.
  split.
  - intros He. unfold sendError. rewrite He. eexists. split; [reflexivity|]. done.
  - intros He. unfold sendError. rewrite He. split.
    + intros Hn. simpl. by rewrite Hn.
    + intros channel0 H0'. simpl. rewrite H0'. eexists _, _. split; [reflexivity|]. done.
Qed.

(** X13.  In the loop of [handleIncoming], a header or body frame that its
    handler refuses closes the connection, not the channel: the state of
    the channel stays as it was, the connection goes to Closing and
    [connection.close] is sent on channel 0 with the reply code FrameError
    and the text of the error.  A frame that is no method, header or body
    frame is ignored. *)
Theorem handleIncoming_frame_content_error
    (on_method : Frame → Conn → option Conn) (frame : Frame) (c : Conn) (channel0 : Channel)
    (w' : World) (e : Error) :
  conn_channels c !! 0 = Some channel0 →
  (Type_ frame = FrameHeader ∧ handleContentHeader frame (world c) = (w', Some e))
  ∨ (Type_ frame = FrameBody ∧ handleContentBody frame (world c) = Some (w', Some e)) →
  ∃ c', handleIncoming_frame on_method frame c = Some c'
    ∧ conn_status c' = ConnClosing
    ∧ channel (world c') = channel (world c)
    ∧ outgoing (world c')
      = outgoing (world c)
        ++ [method_frame (ConnectionClose FrameError (ReplyText e) 0 0)
              (set_channel (world c) channel0)]
    ∧ calls (world c') = calls (world c)
    ∧ conn_vhost (world c') = conn_vhost (world c).
Proof.
  intros H0' Hcase.
  assert (Hce : w' = world c ∧ e = mkError FrameError (ReplyText e) 0 0 ErrorOnConnection).
  { apply (content_error frame). destruct Hcase as [[_ ?]|[_ ?]]; eauto. }
  destruct Hce as [-> He].
  assert (Hsend : sendError e (set_world c (world c))
                  = Some (set_world (set_conn_status c ConnClosing)
                            (set_channel
                               (SendMethod (ConnectionClose FrameError (ReplyText e) 0 0)
                                  (set_channel (world c) channel0))
                               (channel (world c))))).
  { unfold sendError. rewrite He. simpl. by rewrite H0'. }
  unfold handleIncoming_frame.
  destruct Hcase as [[Ht Hh]|[Ht Hb]]; rewrite Ht.
  - rewrite bool_decide_eq_false_2 by done. rewrite bool_decide_eq_true_2 by done.
    rewrite Hh, Hsend. eexists. split; [reflexivity|]. done.
  - rewrite !bool_decide_eq_false_2 by done. rewrite bool_decide_eq_true_2 by done.
    rewrite Hb, Hsend. eexists. split; [reflexivity|]. done.
Qed.

(** X14.  [checkQueueLockWithError] answers an error exactly for a queue
    that is exclusive and belongs to another connection, and then the
    channel-level ResourceLocked that names the queue; a missing queue
    passes the check. *)
Theorem checkQueueLockWithError_iff (qu : option Queue) (method : Method) (c : Conn) :
  (is_Some (checkQueueLockWithError qu method c)
   ↔ ∃ q, qu = Some q ∧ quExclusive q = true ∧ quConnID q ≠ conn_id c)
  ∧ (∀ e, checkQueueLockWithError qu method c = Some e →
       ∃ q, qu = Some q
         ∧ e = mkError ResourceLocked ("queue '" +:+ GetName q +:+ "' is locked to another connection")
                 (ClassIdentifier method) (MethodIdentifier method) ErrorOnChannel)
  ∧ checkQueueLockWithError None method c = None.
Proof.
  unfold checkQueueLockWithError. split; [|split; [|done]].
  - destruct qu as [q|].
    + destruct (quExclusive q) eqn:Hx; simpl.
      * destruct (quConnID q =? conn_id c)%N eqn:Hc; simpl.
        -- apply N.eqb_eq in Hc. split; [by intros [? ?]|].
           intros (q' & [= <-] & _ & Hne). done.
        -- apply N.eqb_neq in Hc. split; [eauto|eauto].
      * split; [by intros [? ?]|]. intros (q' & [= <-] & Hx' & _). congruence.
    + split; [by intros [? ?]|]. by intros (q' & ? & _).
  - intros e. destruct qu as [q|]; [|done].
    destruct (quExclusive q && negb (quConnID q =? conn_id c)%N); [|done].
    intros [= <-]. eauto.
Qed.

End ConnectionProps.

Lemma sendError_by_class_witness :
  ∃ c', @sendError example_amqp example_consts
          (mkError NotFound "queue 'q2' not found" 60 20 ErrorOnChannel)
          (example_conn consuming_world) = Some c'
    ∧ status (channel (world c')) = channelClosing
    ∧ outgoing (world c')
      = [@method_frame example_amqp (ChannelClose NotFound "queue 'q2' not found" 60 20)
           consuming_world].
Proof.
  destruct (@sendError_by_class example_amqp example_consts
              (mkError NotFound "queue 'q2' not found" 60 20 ErrorOnChannel)
              (example_conn consuming_world)) as [Hc _].
  destruct Hc as (c' & Hs & Hst & _ & Ho & _); [reflexivity|].
  exists c'. split; [exact Hs|]. split; [exact Hst|exact Ho].
Defined.

(** Scenario S6: a body frame arrives after the publish method and before
    the header. *)
Lemma handleIncoming_frame_content_error_witness :
  ∃ c', @handleIncoming_frame example_amqp example_broker example_consts (λ _ c, Some c) frame_abc
          (example_conn
             (set_currentMessage (example_world 1 "amqp-0-9-1")
                (Some (mkMessage "" "q1" false None [] 0 example_meta))))
        = Some c'
    ∧ conn_status c' = 2
    ∧ outgoing (world c')
      = [mkFrame FrameMethod 0
           (@WriteMethod example_amqp
              (ConnectionClose FrameError "unexpected content body frame - no header yet" 0 0)
              "amqp-0-9-1")
           false false].
Proof.
  destruct (@handleIncoming_frame_content_error example_amqp example_broker example_consts
              (λ _ c, Some c) frame_abc
              (example_conn
                 (set_currentMessage (example_world 1 "amqp-0-9-1")
                    (Some (mkMessage "" "q1" false None [] 0 example_meta))))
              (example_channel 0 "amqp-0-9-1")
              (set_currentMessage (example_world 1 "amqp-0-9-1")
                 (Some (mkMessage "" "q1" false None [] 0 example_meta)))
              (mkError FrameError "unexpected content body frame - no header yet" 0 0
                 ErrorOnConnection))
    as (c' & Hr & Hs & _ & Ho & _).
  - vm_compute. reflexivity.
  - right. split; reflexivity.
  - exists c'. split; [exact Hr|]. split; [exact Hs|exact Ho].
Defined.

Lemma checkQueueLockWithError_iff_witness :
  @checkQueueLockWithError example_amqp
    (Some (mkQueue "q9" 5 true false false 1 true)) (BasicConsume "q9" "c1" false false)
    (example_conn consuming_world)
  = Some (mkError ResourceLocked "queue 'q9' is locked to another connection" 60 20 ErrorOnChannel).
Proof.
  destruct (@checkQueueLockWithError_iff example_amqp
              (Some (mkQueue "q9" 5 true false false 1 true)) (BasicConsume "q9" "c1" false false)
              (example_conn consuming_world)) as (Hiff & Hform & _).
  destruct (proj2 Hiff) as [e He].
  { eexists. split; [reflexivity|]. split; [reflexivity|]. vm_compute. discriminate. }
  destruct (Hform e He) as (q & [= <-] & ->). exact He.
Defined.

(** ** More on message assembly *)

Section AssemblyMore.
Context `{Amqp} `{Broker}.

(** X15.  [handleContentHeader] never routes: it sends nothing, calls no
    queue and changes no counter.  It succeeds exactly when there is a
    current message without header and the payload can be read as a
    content header, and then records the header in the message; on an
    error it changes nothing.  In particular a message whose header
    declares a body of 0 bytes stays in the slot, and it is the next body
    frame, whatever its payload, that completes and routes it. *)
Theorem handleContentHeader_records_only (frame bodyFrame : Frame) (w : World) :
  let r := handleContentHeader frame w in
  (outgoing r.1 = outgoing w ∧ calls r.1 = calls w ∧ srvMetrics r.1 = srvMetrics w
   ∧ heap r.1 = heap w ∧ conn_vhost r.1 = conn_vhost w
   ∧ confirmQueue (channel r.1) = confirmQueue (channel w)
   ∧ ackStore (channel r.1) = ackStore (channel w)
   ∧ consumers (channel r.1) = consumers (channel w))
  ∧ (r.2 = None
     ↔ ∃ cm h, currentMessage (channel w) = Some cm ∧ Header cm = None
               ∧ ReadContentHeader (Payload frame) (protoVersion (channel w)) = Some h)
  ∧ (is_Some r.2 → r.1 = w)
  ∧ (∀ cm h, currentMessage (channel w) = Some cm → Header cm = None →
       ReadContentHeader (Payload frame) (protoVersion (channel w)) = Some h →
       r = (set_currentMessage w (Some (Message_set_Header cm (Some h))), None)
       ∧ (hBodySize h = 0%N →
          handleContentBody bodyFrame r.1
          = handleContentBody_route
              (Message_Append (Message_set_Header cm (Some h)) bodyFrame)
              (set_currentMessage w
                 (Some (Message_Append (Message_set_Header cm (Some h)) bodyFrame))))).
Proof.
  intros r. subst r. unfold handleContentHeader.
  destruct (currentMessage (channel w)) as [cm|] eqn:Hcm.
  - destruct (Header cm) as [h0|] eqn:Hh.
    + simpl. split; [done|]. split; [|split; [done|]].
      * split; [done|]. intros (cm' & h & [= <-] & Hn & _). congruence.
      * intros cm' h [= <-] Hn. congruence.
    + destruct (ReadContentHeader (Payload frame) (protoVersion (channel w))) as [h|] eqn:Hr; simpl.
      * split; [done|]. split; [split; [eauto|done]|]. split; [by intros [? ?]|].
        intros cm' h' [= <-] _ [= <-]. split; [done|].
        intros Hz. unfold handleContentBody. simpl. rewrite Hz.
        assert (Hnlt : ((BodySize cm + N.of_nat (length (Payload bodyFrame))) mod uint64_mod <? 0)%N
                       = false) by (apply N.ltb_ge, N.le_0_l).
        by rewrite Hnlt.
      * split; [done|]. split; [|split; [done|]].
        -- split; [done|]. by intros (cm' & h & [= <-] & _ & ?).
        -- by intros cm' h [= <-] _ ?.
  - simpl. split; [done|]. split; [|split; [done|done]].
    split; [done|]. by intros (cm' & h & ? & _).
Qed.

Lemma foldl_Message_Append (frames : list Frame) (cm : Message) :
  (BodySize cm + N.of_nat (length (concat (map Payload frames))) < 2 ^ 64)%N →
  foldl Message_Append cm frames
  = mkMessage (Exchange_ cm) (RoutingKey cm) (Mandatory cm) (Header cm) (Body cm ++ frames)
      (BodySize cm + N.of_nat (length (concat (map Payload frames)))) (ConfirmMeta_ cm).
Proof.
  revert cm. induction frames as [|f frames IH]; intros cm Hlt.
  - simpl. rewrite app_nil_r, N.add_0_r. by destruct cm.
  - cbn [foldl map concat] in *. rewrite length_app, Nat2N.inj_add in Hlt.
    assert (Hs : BodySize (Message_Append cm f) = (BodySize cm + N.of_nat (length (Payload f)))%N).
    { simpl. apply N.mod_small. unfold uint64_mod. lia. }
    rewrite IH; [|rewrite Hs; lia].
    rewrite Hs, length_app, Nat2N.inj_add. simpl. rewrite <- app_assoc. f_equal. lia.
Qed.

(** X16.  Body frames that together stay below the declared body size are
    all accepted without error; the message in the slot then holds the
    frames in the order of their arrival behind the ones it had, its
    running size has grown by the total length of their payloads, and
    nothing has been routed. *)
Theorem body_frames_accumulate (frames : list Frame) (w : World) (cm : Message) (header : ContentHeader) :
  currentMessage (channel w) = Some cm →
  Header cm = Some header →
  (hBodySize header ≤ 2 ^ 64)%N →
  (BodySize cm + N.of_nat (length (concat (map Payload frames))) < hBodySize header)%N →
  for_each (λ f w, match handleContentBody f w with Some (w, None) => Some w | _ => None end) frames w
  = Some (set_currentMessage w (Some (foldl Message_Append cm frames)))
  ∧ Body (foldl Message_Append cm frames) = Body cm ++ frames
  ∧ BodySize (foldl Message_Append cm frames)
    = (BodySize cm + N.of_nat (length (concat (map Payload frames))))%N
  ∧ Header (foldl Message_Append cm frames) = Some header.
Proof.
  intros Hcm Hh Hmax Hlt.
  rewrite (foldl_Message_Append frames cm) by lia. simpl.
  split; [|by rewrite Hh].
  rewrite <- (foldl_Message_Append frames cm) by lia.
  revert w cm Hcm Hh Hlt. induction frames as [|f frames IH]; intros w cm Hcm Hh Hlt.
  - simpl. f_equal. destruct w as [[] ? ? ? ? ? ? ?]. simpl in *. by subst.
  - cbn [for_each foldl map concat] in *. rewrite length_app, Nat2N.inj_add in Hlt.
    assert (Hs : BodySize (Message_Append cm f) = (BodySize cm + N.of_nat (length (Payload f)))%N).
    { simpl. apply N.mod_small. unfold uint64_mod. lia. }
    assert (Hstep : handleContentBody f w
                    = Some (set_currentMessage w (Some (Message_Append cm f)), None)).
    { unfold handleContentBody. rewrite Hcm, Hh. cbv zeta.
      assert (Hb : (BodySize (Message_Append cm f) <? hBodySize header)%N = true)
        by (apply N.ltb_lt; rewrite Hs; lia).
      by rewrite Hb. }
    rewrite Hstep.
    rewrite (IH (set_currentMessage w (Some (Message_Append cm f))) (Message_Append cm f));
      [done|done|done|rewrite Hs; lia].
Qed.

End AssemblyMore.

Lemma handleContentHeader_records_only_witness :
  @handleContentHeader example_amqp (mkFrame FrameHeader 1 [x03] false false)
    (set_currentMessage (example_world 1 "amqp-0-9-1")
       (Some (mkMessage "" "q1" false None [] 0 example_meta)))
  = (set_currentMessage (example_world 1 "amqp-0-9-1")
       (Some (mkMessage "" "q1" false (Some (mkContentHeader 3 None)) [] 0 example_meta)),
     None).
Proof.
  destruct (@handleContentHeader_records_only example_amqp example_broker
              (mkFrame FrameHeader 1 [x03] false false) frame_abc
              (set_currentMessage (example_world 1 "amqp-0-9-1")
                 (Some (mkMessage "" "q1" false None [] 0 example_meta))))
    as (_ & _ & _ & Hok).
  destruct (Hok (mkMessage "" "q1" false None [] 0 example_meta) (mkContentHeader 3 None))
    as [Hr _]; [reflexivity|reflexivity|reflexivity|].
  exact Hr.
Defined.

(** Two frames of three bytes for a message that declares ten. *)
Lemma body_frames_accumulate_witness :
  Body (foldl Message_Append
          (mkMessage "" "q1" false (Some (mkContentHeader 10 None)) [] 0 example_meta)
          [frame_abc; frame_abc])
  = [frame_abc; frame_abc]
  ∧ BodySize (foldl Message_Append
                (mkMessage "" "q1" false (Some (mkContentHeader 10 None)) [] 0 example_meta)
                [frame_abc; frame_abc])
    = 6%N.
Proof.
  destruct (@body_frames_accumulate example_amqp example_broker [frame_abc; frame_abc]
              (set_currentMessage (example_world 1 "amqp-0-9-1")
                 (Some (mkMessage "" "q1" false (Some (mkContentHeader 10 None)) [] 0 example_meta)))
              (mkMessage "" "q1" false (Some (mkContentHeader 10 None)) [] 0 example_meta)
              (mkContentHeader 10 None))
    as (_ & Hb & Hs & _).
  - reflexivity.
  - reflexivity.
  - vm_compute. discriminate.
  - vm_compute. reflexivity.
  - split; [exact Hb|exact Hs].
Defined.

(** ** More on the virtual host *)

(** X17.  After [initSystemExchanges] the virtual host has the durable
    system exchanges "amq.direct", "amq.fanout", "amq.headers" and
    "amq.topic" of their types and the default exchange, a direct one
    under the empty name, all without bindings whatever was declared under
    these names before; the exchanges under other names, the queues and
    the storage are as before. *)
Theorem initSystemExchanges_declares (vhost : VirtualHost) :
  let v := initSystemExchanges vhost in
  GetExchange v "amq.direct" = Some (exchange_New "amq.direct" EX_TYPE_DIRECT true false false true)
  ∧ GetExchange v "amq.fanout" = Some (exchange_New "amq.fanout" EX_TYPE_FANOUT true false false true)
  ∧ GetExchange v "amq.headers" = Some (exchange_New "amq.headers" EX_TYPE_HEADERS true false false true)
  ∧ GetExchange v "amq.topic" = Some (exchange_New "amq.topic" EX_TYPE_TOPIC true false false true)
  ∧ GetDefaultExchange v = Some (exchange_New "" EX_TYPE_DIRECT true false false true)
  ∧ (∀ n, n ∉ ["amq.direct"; "amq.fanout"; "amq.headers"; "amq.topic"; ""]%string →
          GetExchange v n = GetExchange vhost n)
  ∧ queues v = queues vhost
  ∧ srvStorage v = srvStorage vhost
  ∧ name v = name vhost.
Proof.
  intros v. subst v.
  unfold initSystemExchanges, GetExchange, getExchange, GetDefaultExchange, AppendExchange,
    EX_DEFAULT_NAME. simpl.
  split; [by repeat (rewrite lookup_insert_ne by done); rewrite lookup_insert_eq|].
  split; [by repeat (rewrite lookup_insert_ne by done); rewrite lookup_insert_eq|].
  split; [by repeat (rewrite lookup_insert_ne by done); rewrite lookup_insert_eq|].
  split; [by repeat (rewrite lookup_insert_ne by done); rewrite lookup_insert_eq|].
  split; [by rewrite lookup_insert_eq|].
  split; [|done]. intros n Hn.
  repeat (rewrite lookup_insert_ne; [|intros <-; apply Hn; set_solver]). done.
Qed.

Section VirtualHostMore.
Context `{VhostOps}.

(** X18.  [DeleteQueue] answers "not found" for a name without queue and
    the error of the queue's [Delete] when that refuses, and changes
    nothing in either case.  When [Delete] succeeds it answers the length
    [Delete] gave; the name then has no queue, the other queues are as
    before, every exchange has been through [RemoveQueueBindings] for the
    name, and the stored list of durable queues is not rewritten. *)
Theorem DeleteQueue_outcomes (vhost : VirtualHost) (queueName : string) (ifUnused ifEmpty : bool) :
  (GetQueue vhost queueName = None →
   DeleteQueue vhost queueName ifUnused ifEmpty = (vhost, inr "not found"%string))
  ∧ (∀ qu, GetQueue vhost queueName = Some qu →
       (∀ err, Queue_Delete qu ifUnused ifEmpty = inr err →
               DeleteQueue vhost queueName ifUnused ifEmpty = (vhost, inr err))
       ∧ (∀ len, Queue_Delete qu ifUnused ifEmpty = inl len →
            let v := (DeleteQueue vhost queueName ifUnused ifEmpty).1 in
            (DeleteQueue vhost queueName ifUnused ifEmpty).2 = inl len
            ∧ GetQueue v queueName = None
            ∧ (∀ n, n ≠ queueName → GetQueue v n = GetQueue vhost n)
            ∧ (∀ n, GetExchange v n
                    = (λ ex, RemoveQueueBindings ex queueName) <$> GetExchange vhost n)
            ∧ srvStorage v = srvStorage vhost
            ∧ DeleteQueue v queueName ifUnused ifEmpty = (v, inr "not found"%string))).
Proof.
  unfold DeleteQueue, GetQueue. split.
  - intros Hn. by rewrite Hn.
  - intros qu Hq. rewrite Hq. split.
    + intros err He. by rewrite He.
    + intros len Hl. rewrite Hl. simpl.
      split; [done|]. unfold getQueue, GetExchange, getExchange. simpl.
      split; [apply lookup_delete_eq|].
      split; [intros n Hn; by apply lookup_delete_ne|].
      split; [intros n; apply lookup_fmap|].
      split; [done|]. by rewrite lookup_delete_eq.
Qed.

Lemma Join_cons2 (x y : string) (l : list string) (sep : string) :
  Join (x :: y :: l) sep = (x +:+ sep +:+ Join (y :: l) sep)%string.
Proof. reflexivity. Qed.

Lemma Split_no_sep (x : string) (c : Ascii.ascii) :
  has_char c x = false → Split x c = [x].
Proof.
  induction x as [|a x IH]; simpl; [done|].
  intros Hc. apply orb_false_iff in Hc as [Ha Hx]. rewrite Ha, (IH Hx). done.
Qed.

Lemma Split_app_sep (x rest : string) (c : Ascii.ascii) :
  has_char c x = false → Split (x +:+ String c rest) c = x :: Split rest c.
Proof.
  induction x as [|a x IH]; simpl.
  - intros _. by rewrite Ascii.eqb_refl.
  - intros Hc. apply orb_false_iff in Hc as [Ha Hx]. rewrite Ha, (IH Hx). done.
Qed.

(** [strings.Split] undoes [strings.Join] when no element holds the
    separator and there is an element. *)
Lemma Split_Join (names : list string) (c : Ascii.ascii) :
  names ≠ [] →
  Forall (λ x, has_char c x = false) names →
  Split (Join names (String c EmptyString)) c = names.
Proof.
  induction names as [|x names IH]; [done|]. intros _ Hall.
  apply Forall_cons in Hall as [Hx Hall].
  destruct names as [|y names].
  - simpl. by apply Split_no_sep.
  - rewrite Join_cons2.
    change (x +:+ String c "" +:+ Join (y :: names) (String c ""))%string
      with (x +:+ String c (Join (y :: names) (String c "")))%string.
    rewrite Split_app_sep by done. f_equal. by apply IH.
Qed.

Lemma Join_not_empty (x : string) (l : list string) (sep : string) :
  x ≠ EmptyString → String.length (Join (x :: l) sep) ≠ 0%nat.
Proof.
  intros Hx. destruct x as [|a x]; [done|]. destruct l; simpl; lia.
Qed.

Lemma saveQueues_names (order : list string) (m : gmap string Queue) (acc : list string) :
  range_map order (λ _ : list string, m)
    (λ name q queueNames, if negb (IsDurable q) then queueNames else queueNames ++ [name]) acc
  = acc ++ filter (λ k, durable_key m k = true) order.
Proof.
  unfold range_map. revert acc. induction order as [|k order IH]; intros acc; simpl.
  - by rewrite app_nil_r.
  - destruct (m !! k) as [q|] eqn:Hk; [destruct (IsDurable q) eqn:Hd|]; simpl; rewrite IH.
    + rewrite filter_cons_True by (unfold durable_key; by rewrite Hk).
      by rewrite <- app_assoc.
    + rewrite filter_cons_False; [done|]. unfold durable_key. rewrite Hk. congruence.
    + rewrite filter_cons_False; [done|]. unfold durable_key. by rewrite Hk.
Qed.

(** The loop of [loadQueues]. *)
Lemma load_loop (order_of : string → list string) (shardSize : Z) (names : list string)
    (vhost : VirtualHost) :
  is_Some (GetDefaultExchange vhost) →
  ∃ v', for_each (λ name vhost,
                    AppendQueue (order_of name) vhost (NewQueue vhost name 0 false false true shardSize))
          names vhost = Some v'
    ∧ (∀ k, queues v' !! k
            = if bool_decide (k ∈ names)
              then Some (mkQueue k 0 false false true shardSize NewQueue_active)
              else queues vhost !! k)
    ∧ (∃ ex ex', GetDefaultExchange vhost = Some ex ∧ GetDefaultExchange v' = Some ex'
                 ∧ exBindings ex'
                   = exBindings ex ++ map (λ k, mkBinding k EX_DEFAULT_NAME k false) names)
    ∧ (∀ n, n ≠ EX_DEFAULT_NAME → exchanges v' !! n = exchanges vhost !! n).
Proof.
  revert vhost. induction names as [|k0 names IH]; intros vhost [ex Hex]; cbn [for_each].
  - eexists. split; [reflexivity|]. split; [|split; [|done]].
    + intros k. rewrite bool_decide_eq_false_2; [done|apply not_elem_of_nil].
    + exists ex, ex. by rewrite app_nil_r.
  - unfold AppendQueue at 1.
    assert (Hd : GetDefaultExchange
                   (vhost_set_queues vhost
                      (<[GetName (NewQueue vhost k0 0 false false true shardSize) :=
                           NewQueue vhost k0 0 false false true shardSize]> (queues vhost)))
                 = Some ex) by exact Hex.
    rewrite Hd.
    match goal with |- context [for_each _ names ?v1] => set (v := v1) end.
    assert (Hv : GetDefaultExchange v
                 = Some (AppendBinding ex (mkBinding k0 EX_DEFAULT_NAME k0 false))).
    { unfold v, GetDefaultExchange. rewrite saveQueues_exchanges. simpl. apply lookup_insert_eq. }
    destruct (IH v) as (v' & Hl & Hq & (ex1 & ex' & Hex1 & Hex' & Hb) & Hoth); [by rewrite Hv|].
    exists v'. split; [exact Hl|]. split; [|split].
    + intros k. rewrite Hq. unfold v. rewrite saveQueues_queues. simpl.
      destruct (decide (k = k0)) as [->|Hne].
      * rewrite lookup_insert_eq.
        rewrite (bool_decide_eq_true_2 (k0 ∈ k0 :: names)) by left.
        by case_bool_decide.
      * rewrite lookup_insert_ne by done.
        apply (f_equal (λ b : bool,
                 if b then Some (mkQueue k 0 false false true shardSize NewQueue_active)
                 else queues vhost !! k)).
        apply bool_decide_ext. rewrite elem_of_cons. split; [by right|by intros [?|?]].
    + exists ex, ex'. split; [done|]. split; [done|].
      rewrite Hb. rewrite Hv in Hex1. injection Hex1 as <-. simpl. by rewrite <- app_assoc.
    + intros n Hn. rewrite (Hoth n Hn). unfold v. rewrite saveQueues_exchanges. simpl.
      by rewrite lookup_insert_ne.
Qed.

(** X19.  [saveQueues] stores, under the key of the virtual host, the keys
    of its durable queues joined by newlines.  When no durable queue has
    an empty name or a newline in its name, [loadQueues] on a virtual host
    made anew with that storage returns, and restores exactly the durable
    queues: each one is back under its name as a durable queue that is
    neither exclusive nor auto-deleted and belongs to no connection, and
    is bound to the default exchange by its name; the queues that were not
    durable are gone. *)
Theorem durable_queues_survive_restart
    (order : list string) (order_of : string → list string) (shardSize : Z) (sys : bool)
    (vhost : VirtualHost) :
  range_order order (queues vhost) →
  (∀ k, durable_key (queues vhost) k = true → has_char nl k = false ∧ k ≠ EmptyString) →
  let stored := srvStorage (saveQueues order vhost) in
  let names := filter (λ k, durable_key (queues vhost) k = true) order in
  stored !! (getKeyName vhost +:+ ".queues")%string = Some (Join names (String nl EmptyString))
  ∧ ∃ v', loadQueues order_of shardSize (vhost_New (name vhost) sys stored) = Some v'
      ∧ (∀ k, queues v' !! k
              = if durable_key (queues vhost) k
                then Some (mkQueue k 0 false false true shardSize NewQueue_active)
                else None)
      ∧ (∃ ex', GetDefaultExchange v' = Some ex'
                ∧ exBindings ex' = map (λ k, mkBinding k EX_DEFAULT_NAME k false) names)
      ∧ (∀ k, k ∈ names ↔ durable_key (queues vhost) k = true).
Proof.
  intros Hord Hnames stored names.
  assert (Hmem : ∀ k, k ∈ names ↔ durable_key (queues vhost) k = true).
  { intros k. unfold names. rewrite list_elem_of_filter. split; [tauto|].
    intros Hd. split; [done|]. apply (range_order_elem _ _ _ Hord).
    unfold durable_key in Hd. destruct (queues vhost !! k); [eauto|done]. }
  assert (Hstored : stored !! (getKeyName vhost +:+ ".queues")%string
                    = Some (Join names (String nl EmptyString))).
  { unfold stored, saveQueues. simpl. rewrite lookup_insert_eq.
    by rewrite saveQueues_names. }
  split; [exact Hstored|].
  set (v0 := vhost_New (name vhost) sys stored).
  assert (Hkey : srvStorage v0 !! (getKeyName v0 +:+ ".queues")%string
                 = Some (Join names (String nl EmptyString))) by exact Hstored.
  assert (Hd0 : GetDefaultExchange v0
                = Some (exchange_New EX_DEFAULT_NAME EX_TYPE_DIRECT true false false true))
    by apply vhost_New_default.
  assert (Hq0 : queues v0 = ∅) by reflexivity.
  unfold loadQueues. rewrite Hkey.
  destruct names as [|x rest] eqn:Hn.
  - simpl. exists v0. split; [done|]. split; [|split; [|done]].
    + intros k. rewrite Hq0, lookup_empty.
      destruct (durable_key (queues vhost) k) eqn:Hd; [|done].
      apply Hmem in Hd. by apply elem_of_nil in Hd.
    + eexists. split; [exact Hd0|done].
  - rewrite bool_decide_eq_false_2.
    2:{ apply Join_not_empty. apply (Hnames x), Hmem. left. }
    rewrite Split_Join; [|done|].
    2:{ apply Forall_forall. intros k Hk. by apply (Hnames k), Hmem. }
    destruct (load_loop order_of shardSize (x :: rest) v0) as (v' & Hl & Hq & Hb & _);
      [by rewrite Hd0|].
    exists v'. split; [exact Hl|]. split; [|split; [|done]].
    + intros k. rewrite Hq, Hq0, lookup_empty.
      destruct (durable_key (queues vhost) k) eqn:Hd.
      * apply Hmem in Hd. by rewrite bool_decide_eq_true_2.
      * rewrite bool_decide_eq_false_2; [done|]. intros Hin. apply Hmem in Hin. congruence.
    + destruct Hb as (ex & ex' & Hex & Hex' & Hbind). rewrite Hd0 in Hex. injection Hex as <-.
      exists ex'. split; [done|]. by rewrite Hbind.
Qed.

End VirtualHostMore.

Lemma DeleteQueue_outcomes_witness :
  GetQueue (@DeleteQueue example_vhostops example_vhost "q1" false false).1 "q1" = None
  ∧ (@DeleteQueue example_vhostops example_vhost "q1" false false).2 = inl 0%N
  ∧ @DeleteQueue example_vhostops example_vhost "q2" false false
    = (example_vhost, inr "not found"%string).
Proof.
  destruct (@DeleteQueue_outcomes example_vhostops example_vhost "q1" false false) as [_ Hf].
  destruct (Hf (example_queue "q1")) as [_ Hok]; [vm_compute; reflexivity|].
  destruct (Hok 0%N) as (Hr & Hg & _); [reflexivity|].
  split; [exact Hg|]. split; [exact Hr|].
  apply (@DeleteQueue_outcomes example_vhostops example_vhost "q2" false false).
  vm_compute. reflexivity.
Defined.

(** The durable queues "q1" and "q2" come back, the transient "tmp" does not. *)
Lemma durable_queues_survive_restart_witness :
  ∃ v', @loadQueues example_vhostops (λ _, []) 1
          (vhost_New "/" false (srvStorage (saveQueues ["q1"; "q2"; "tmp"]%string durable_vhost)))
        = Some v'
    ∧ ∀ k, queues v' !! k
           = if durable_key (queues durable_vhost) k
             then Some (mkQueue k 0 false false true 1 true)
             else None.
Proof.
  destruct (@durable_queues_survive_restart example_vhostops ["q1"; "q2"; "tmp"]%string (λ _, [])
              1 false durable_vhost) as (_ & v' & Hl & Hq & _).
  - vm_compute. reflexivity.
  - intros k Hk. unfold durable_key in Hk.
    destruct (queues durable_vhost !! k) as [q|] eqn:Hq; [|done].
    simpl in Hq.
    apply lookup_insert_Some in Hq as [[<- _]|[_ Hq]]; [by split|].
    apply lookup_insert_Some in Hq as [[<- _]|[_ Hq]]; [by split|].
    apply lookup_singleton_Some in Hq as [<- <-]. done.
  - exists v'. split; [exact Hl|exact Hq].
Defined.
